(** * Clearnet research assistant: crawler and report context

    A shallow embedding of [crawler.py] (class [ClearnetCrawler]),
    [agent.py] ([ResearchAgent._prepare_context]), [knowledge_base.py]
    ([KnowledgeBase.query] and [add_document]), [utils.py] and the parts
    of [app.py] that build the crawler and index its pages, with the
    properties of the crawling subsystem stated over it.

    Conventions.
    - A Python [str] is a [string]; one [ascii] stands for one character.
    - A Python [int] is a [Z]; positions inside a string are [nat], and a
      failed [find] (Python's -1) is [None].
    - A function that may raise returns a [result]; state that the code
      mutates ([self.robots_cache], [self.visited_urls], the local queue and
      result dictionary) is passed explicitly.
    - The outside world (HTTP, robots.txt retrieval, the HTML tree builder,
      the vector store) is a parameter of the development; where a library
      call can raise, the parameter says so ([netloc_ok], [markup_ok],
      [robots_read], [can_fetch]). *)

From Stdlib Require Import ZArith Ascii String List Lia Bool.
From stdpp Require Import base decidable option list sorting gmap sets strings.

Open Scope Z_scope.

(** ** Python strings *)

Module PyStr.

Fixpoint take (n : nat) (s : string) : string :=
  match n, s with
  | S n', String c s' => String c (take n' s')
  | _, _ => EmptyString
  end.

Fixpoint drop (n : nat) (s : string) : string :=
  match n, s with
  | S n', String _ s' => drop n' s'
  | _, _ => s
  end.

(** [s.find(c)] *)
Fixpoint find0 (c : ascii) (s : string) : option nat :=
  match s with
  | EmptyString => None
  | String a s' => if Ascii.eqb a c then Some O else option_map S (find0 c s')
  end.

(** [s.find(c, start)] *)
Definition find (c : ascii) (start : nat) (s : string) : option nat :=
  option_map (Nat.add start) (find0 c (drop start s)).

(** [s.rfind(c)] *)
Fixpoint rfind (c : ascii) (s : string) : option nat :=
  match s with
  | EmptyString => None
  | String a s' =>
      match rfind c s' with
      | Some i => Some (S i)
      | None => if Ascii.eqb a c then Some O else None
      end
  end.

(** [c in s] *)
Definition contains (c : ascii) (s : string) : bool :=
  match find0 c s with Some _ => true | None => false end.

(** [s.split(c, 1)] when [c in s]: the text before and after the first [c] *)
Definition cut (c : ascii) (s : string) : string * string :=
  match find0 c s with
  | Some i => (take i s, drop (S i) s)
  | None => (s, EmptyString)
  end.

(** [s.split(c)] *)
Fixpoint split_aux (c : ascii) (cur : string) (s : string) : list string :=
  match s with
  | EmptyString => [String.rev cur]
  | String a s' =>
      if Ascii.eqb a c then String.rev cur :: split_aux c EmptyString s'
      else split_aux c (String a cur) s'
  end.

Definition split (c : ascii) (s : string) : list string :=
  split_aux c EmptyString s.

(** [sep.join(l)] *)
Fixpoint join (sep : string) (l : list string) : string :=
  match l with
  | [] => EmptyString
  | [x] => x
  | x :: l' => x +:+ sep +:+ join sep l'
  end.

Definition is_empty (s : string) : bool :=
  match s with EmptyString => true | _ => false end.

Definition all (p : ascii -> bool) (s : string) : bool :=
  forallb p (list_ascii_of_string s).

Definition filter (p : ascii -> bool) (s : string) : string :=
  string_of_list_ascii (List.filter p (list_ascii_of_string s)).

Definition code (c : ascii) : nat := nat_of_ascii c.

Definition is_upper (c : ascii) : bool :=
  (65 <=? code c)%nat && (code c <=? 90)%nat.
Definition is_lower (c : ascii) : bool :=
  (97 <=? code c)%nat && (code c <=? 122)%nat.
Definition is_digit (c : ascii) : bool :=
  (48 <=? code c)%nat && (code c <=? 57)%nat.
(** [c.isascii() and c.isalpha()] *)
Definition is_ascii_alpha (c : ascii) : bool := is_upper c || is_lower c.

Definition lower_char (c : ascii) : ascii :=
  if is_upper c then ascii_of_nat (code c + 32) else c.

(** [s.lower()] *)
Fixpoint lower (s : string) : string :=
  match s with
  | EmptyString => EmptyString
  | String c s' => String (lower_char c) (lower s')
  end.

(** [s.lstrip(chars)], [s.rstrip(chars)] and [s.strip(chars)], with the set
    of characters given as a predicate *)
Fixpoint lstrip (p : ascii -> bool) (s : string) : string :=
  match s with
  | String c s' => if p c then lstrip p s' else s
  | EmptyString => EmptyString
  end.

Definition rstrip (p : ascii -> bool) (s : string) : string :=
  String.rev (lstrip p (String.rev s)).

Definition strip (p : ascii -> bool) (s : string) : string :=
  rstrip p (lstrip p s).

(** [str.isspace] on the code points below 256 *)
Definition is_space (c : ascii) : bool :=
  let n := code c in
  ((9 <=? n)%nat && (n <=? 13)%nat) || ((28 <=? n)%nat && (n <=? 32)%nat)
  || (n =? 133)%nat || (n =? 160)%nat.

(** [s.split()]: the maximal runs of non-space characters *)
Fixpoint words_aux (cur : string) (s : string) : list string :=
  match s with
  | EmptyString => if is_empty cur then [] else [String.rev cur]
  | String a s' =>
      if is_space a
      then (if is_empty cur then words_aux EmptyString s'
            else String.rev cur :: words_aux EmptyString s')
      else words_aux (String a cur) s'
  end.

Definition words (s : string) : list string := words_aux EmptyString s.

(** membership of a string in a list literal, [s in [...]] *)
Definition mem (s : string) (l : list string) : bool :=
  existsb (String.eqb s) l.

End PyStr.

(** [l[:n]] on a list, for any integer [n]: a negative bound counts from the
    end of the list. *)
Definition slice_to {A} (l : list A) (n : Z) : list A :=
  if 0 <=? n then firstn (Z.to_nat n) l
  else firstn (length l - Z.to_nat (- n)) l.

(** ** Exceptions *)

Inductive exn : Type :=
| ValueError
| KeyError
| ParserRejectedMarkup.

Inductive result (A : Type) : Type :=
| Ok (a : A)
| Raise (e : exn).
Arguments Ok {A} a.
Arguments Raise {A} e.

Definition is_ok {A} (r : result A) : bool :=
  match r with Ok _ => true | Raise _ => false end.

(** ** urllib.parse

    [urlparse], [urlunparse] and [urljoin] of the Python standard library, as
    the crawler uses them on [str] arguments.  The checks that make
    [urlsplit] raise [ValueError] (unbalanced or ill-formed bracketed hosts,
    hosts that change under NFKC normalisation) all look at the network
    location only; they are the parameter [netloc_ok]. *)

Module UrlLib.

Record ParseResult : Type := mkParse {
  scheme : string;
  netloc : string;
  path : string;
  params : string;
  query : string;
  fragment : string
}.

Definition uses_relative : list string :=
  [""; "ftp"; "http"; "gopher"; "nntp"; "imap"; "wais"; "file"; "https";
   "shttp"; "mms"; "prospero"; "rtsp"; "rtspu"; "sftp"; "svn"; "svn+ssh";
   "ws"; "wss"].

Definition uses_netloc : list string :=
  [""; "ftp"; "http"; "gopher"; "nntp"; "telnet"; "imap"; "wais"; "file";
   "mms"; "https"; "shttp"; "snews"; "prospero"; "rtsp"; "rtspu"; "rsync";
   "svn"; "svn+ssh"; "sftp"; "nfs"; "git"; "git+ssh"; "ws"; "wss"].

Definition uses_params : list string :=
  [""; "ftp"; "hdl"; "prospero"; "http"; "imap"; "https"; "shttp"; "rtsp";
   "rtspu"; "sip"; "sips"; "mms"; "sftp"; "tel"].

Definition scheme_char (c : ascii) : bool :=
  PyStr.is_lower c || PyStr.is_upper c || PyStr.is_digit c
  || Ascii.eqb c "+" || Ascii.eqb c "-" || Ascii.eqb c ".".

(** the characters of [_WHATWG_C0_CONTROL_OR_SPACE] *)
Definition c0_or_space (c : ascii) : bool := (PyStr.code c <=? 32)%nat.

(** the characters kept after removing [_UNSAFE_URL_BYTES_TO_REMOVE] *)
Definition safe_byte (c : ascii) : bool :=
  negb ((PyStr.code c =? 9)%nat || (PyStr.code c =? 13)%nat
        || (PyStr.code c =? 10)%nat).

(** [_splitnetloc(url, 2)]: the earliest of the delimiters / ? # from
    position 2 on ends the network location *)
Definition splitnetloc (url : string) : string * string :=
  let upd (delim : nat) (c : ascii) :=
    match PyStr.find c 2 url with
    | Some w => Nat.min delim w
    | None => delim
    end in
  let delim := fold_left upd ["/"; "?"; "#"]%char (String.length url) in
  (PyStr.take (delim - 2) (PyStr.drop 2 url), PyStr.drop delim url).

(** The steps of [urlsplit(url, scheme)], each returning what it splits
    off and what is left of the URL. *)

(** stripping and removal of the unsafe characters *)
Definition clean_url (url : string) : string :=
  PyStr.filter safe_byte (PyStr.lstrip c0_or_space url).

Definition clean_scheme (scheme0 : string) : string :=
  PyStr.filter safe_byte (PyStr.strip c0_or_space scheme0).

(** the scheme: the text before the first colon when that colon is not
    the first character, the URL starts with an ASCII letter and the text
    holds scheme characters only *)
Definition split_scheme (url scheme0 : string) : string * string :=
  match PyStr.find0 ":" url, url with
  | Some (S i), String c0 _ =>
      if PyStr.is_ascii_alpha c0
         && PyStr.all scheme_char (PyStr.take (S i) url)
      then (PyStr.lower (PyStr.take (S i) url), PyStr.drop (S (S i)) url)
      else (scheme0, url)
  | _, _ => (scheme0, url)
  end.

(** the network location, after two slashes *)
Definition split_netloc (url : string) : string * string :=
  if String.eqb (PyStr.take 2 url) "//" then splitnetloc url
  else (EmptyString, url).

(** [url, fragment = url.split('#', 1)] when there is a [#] *)
Definition split_fragment (url : string) : string * string :=
  if PyStr.contains "#" url then PyStr.cut "#" url else (url, EmptyString).

(** [url, query = url.split('?', 1)] when there is a [?] *)
Definition split_query (url : string) : string * string :=
  if PyStr.contains "?" url then PyStr.cut "?" url else (url, EmptyString).

Record SplitResult : Type := mkSplit {
  s_scheme : string;
  s_netloc : string;
  s_path : string;
  s_query : string;
  s_fragment : string
}.

(** The components [urlsplit(url, scheme)] computes, before its validity
    checks. *)
Definition urlsplit_parts (url scheme0 : string) : SplitResult :=
  let a := split_scheme (clean_url url) (clean_scheme scheme0) in
  let b := split_netloc (snd a) in
  let c := split_fragment (snd b) in
  let d := split_query (fst c) in
  mkSplit (fst a) (fst b) (fst d) (snd d) (snd c).

(** [_splitparams(url)] *)
Definition splitparams (url : string) : string * string :=
  if PyStr.contains "/" url then
    match PyStr.rfind "/" url with
    | Some r =>
        match PyStr.find ";" r url with
        | Some i => (PyStr.take i url, PyStr.drop (S i) url)
        | None => (url, EmptyString)
        end
    | None => (url, EmptyString)
    end
  else
    match PyStr.find0 ";" url with
    | Some i => (PyStr.take i url, PyStr.drop (S i) url)
    | None => (url, EmptyString)
    end.

(** The six components of [urlparse(url, scheme)]. *)
Definition urlparse_parts (url scheme0 : string) : ParseResult :=
  let sp := urlsplit_parts url scheme0 in
  let up :=
    if PyStr.mem (s_scheme sp) uses_params && PyStr.contains ";" (s_path sp)
    then splitparams (s_path sp) else (s_path sp, EmptyString) in
  mkParse (s_scheme sp) (s_netloc sp) (fst up) (snd up)
    (s_query sp) (s_fragment sp).

(** [urlunsplit((scheme, netloc, url, query, fragment))] *)
Definition urlunsplit (sch nl url q f : string) : string :=
  let url :=
    if negb (PyStr.is_empty nl)
       || (negb (PyStr.is_empty sch) && PyStr.mem sch uses_netloc
           && negb (String.eqb (PyStr.take 2 url) "//"))
    then
      let url :=
        if negb (PyStr.is_empty url)
           && negb (String.eqb (PyStr.take 1 url) "/")
        then "/" +:+ url else url in
      "//" +:+ nl +:+ url
    else url in
  let url := if negb (PyStr.is_empty sch) then sch +:+ ":" +:+ url else url in
  let url := if negb (PyStr.is_empty q) then url +:+ "?" +:+ q else url in
  let url := if negb (PyStr.is_empty f) then url +:+ "#" +:+ f else url in
  url.

(** [urlunparse((scheme, netloc, url, params, query, fragment))] *)
Definition urlunparse (p : ParseResult) : string :=
  let url :=
    if negb (PyStr.is_empty (params p))
    then path p +:+ ";" +:+ params p else path p in
  urlunsplit (scheme p) (netloc p) url (query p) (fragment p).

(** [segments[1:-1] = filter(None, segments[1:-1])] *)
Definition drop_empty_middle (segments : list string) : list string :=
  match segments with
  | first :: (_ :: _) as rest =>
      first :: List.filter (fun s => negb (PyStr.is_empty s)) (removelast rest)
            ++ [List.last rest EmptyString]
  | _ => segments
  end.

(** the loop of [urljoin] that resolves the dot segments *)
Definition resolve_step (resolved : list string) (seg : string) : list string :=
  if String.eqb seg ".." then removelast resolved
  else if String.eqb seg "." then resolved
  else resolved ++ [seg].

(** The string [urljoin(base, url)] returns when none of its two calls of
    [urlparse] raises. *)
Definition urljoin_value (base url : string) : string :=
  if PyStr.is_empty base then url
  else if PyStr.is_empty url then base
  else
    let b := urlparse_parts base EmptyString in
    let u := urlparse_parts url (scheme b) in
    if negb (String.eqb (scheme u) (scheme b))
       || negb (PyStr.mem (scheme u) uses_relative)
    then url
    else if PyStr.mem (scheme u) uses_netloc
            && negb (PyStr.is_empty (netloc u))
    then urlunparse u
    else
      let nl := if PyStr.mem (scheme u) uses_netloc then netloc b
                else netloc u in
      if PyStr.is_empty (path u) && PyStr.is_empty (params u) then
        let q := if PyStr.is_empty (query u) then query b else query u in
        urlunparse (mkParse (scheme u) nl (path b) (params b) q (fragment u))
      else
        let base_parts := PyStr.split "/" (path b) in
        let base_parts :=
          if negb (PyStr.is_empty (List.last base_parts EmptyString))
          then removelast base_parts else base_parts in
        let segments :=
          if String.eqb (PyStr.take 1 (path u)) "/"
          then PyStr.split "/" (path u)
          else drop_empty_middle (base_parts ++ PyStr.split "/" (path u)) in
        let resolved := fold_left resolve_step segments [] in
        let resolved :=
          if PyStr.mem (List.last segments EmptyString) ["."; ".."]
          then resolved ++ [EmptyString] else resolved in
        let joined := PyStr.join "/" resolved in
        let joined := if PyStr.is_empty joined then "/"%string else joined in
        urlunparse (mkParse (scheme u) nl joined (params u) (query u)
                            (fragment u)).

Section Checked.

(** [netloc_ok n] is false when [urlsplit] raises [ValueError] for a URL
    whose network location is the non-empty string [n]. *)
Variable netloc_ok : string -> bool.

Definition urlsplit_ok (url scheme0 : string) : bool :=
  let nl := netloc (urlparse_parts url scheme0) in
  PyStr.is_empty nl || netloc_ok nl.

(** [urlparse(url)] *)
Definition urlparse (url : string) : result ParseResult :=
  if urlsplit_ok url EmptyString
  then Ok (urlparse_parts url EmptyString)
  else Raise ValueError.

(** [urljoin(base, url)] *)
Definition urljoin (base url : string) : result string :=
  if PyStr.is_empty base then Ok url
  else if PyStr.is_empty url then Ok base
  else if urlsplit_ok base EmptyString
          && urlsplit_ok url (scheme (urlparse_parts base EmptyString))
  then Ok (urljoin_value base url)
  else Raise ValueError.

End Checked.

End UrlLib.

(** [result] is the error monad of the functions that may raise. *)
Global Instance result_ret : MRet result := fun _ a => Ok a.
Global Instance result_bind : MBind result := fun _ _ f r =>
  match r with
  | Ok a => f a
  | Raise e => Raise e
  end.

(** ** The parsed document

    The tree [BeautifulSoup(html, 'html.parser')] builds.  A string node
    carries a flag telling whether [get_text] reports it (it skips comments
    and the like); attribute values are strings. *)

Module Soup.

#[warnings="-register-all"]
Inductive node : Type :=
| Str (reported : bool) (s : string)
| Tag (name : string) (attrs : list (string * string)) (contents : list node).

Definition is_tag (n : node) : bool :=
  match n with Tag _ _ _ => true | Str _ _ => false end.

Definition tag_name (n : node) : string :=
  match n with Tag nm _ _ => nm | Str _ _ => EmptyString end.

Fixpoint assoc (key : string) (l : list (string * string)) : option string :=
  match l with
  | [] => None
  | (k, v) :: l' => if String.eqb k key then Some v else assoc key l'
  end.

(** [tag.attrs.get(key)] *)
Definition attr (key : string) (n : node) : option string :=
  match n with Tag _ ats _ => assoc key ats | Str _ _ => None end.

(** [tag[key]] *)
Definition get_item (n : node) (key : string) : result string :=
  match attr key n with
  | Some v => Ok v
  | None => Raise KeyError
  end.

(** the tags below (and including) a node, in document order *)
Fixpoint tags (n : node) : list node :=
  match n with
  | Str _ _ => []
  | Tag _ _ cs => n :: List.flat_map tags cs
  end.

(** the strings below a node that [get_text] reports, in document order *)
Fixpoint strings (n : node) : list string :=
  match n with
  | Str true s => [s]
  | Str false _ => []
  | Tag _ _ cs => List.flat_map strings cs
  end.

(** [tag.get_text(strip=True)] *)
Definition get_text_strip (n : node) : string :=
  PyStr.join EmptyString
    (List.filter (fun s => negb (PyStr.is_empty s))
       (List.map (PyStr.strip PyStr.is_space) (strings n))).

(** [soup.find_all(...)] with the criteria as a predicate on tags *)
Definition find_all (p : node -> bool) (doc : list node) : list node :=
  List.filter p (List.flat_map tags doc).

(** [soup.find(...)]; [None] is Python's [None] *)
Definition find (p : node -> bool) (doc : list node) : option node :=
  head (find_all p doc).

Definition named (names : list string) (n : node) : bool :=
  PyStr.mem (tag_name n) names.

(** the criterion [key=True]: the attribute is present *)
Definition has_attr (key : string) (n : node) : bool :=
  match attr key n with Some _ => true | None => false end.

(** the criterion [key=value] on a single-valued attribute *)
Definition attr_is (key value : string) (n : node) : bool :=
  match attr key n with Some v => String.eqb v value | None => false end.

(** the criterion [key=value] on a multi-valued attribute such as [rel]:
    one of its whitespace-separated values is [value] *)
Definition attr_has (key value : string) (n : node) : bool :=
  match attr key n with
  | Some v => PyStr.mem value (PyStr.words v) || String.eqb v value
  | None => false
  end.

(** [tag.string]; [None] is Python's [None] *)
Fixpoint string_of (n : node) : option string :=
  match n with
  | Str _ s => Some s
  | Tag _ _ [c] => string_of c
  | Tag _ _ _ => None
  end.

End Soup.

(** ** Page data *)

Record Resources : Type := mkResources {
  images : list string;
  scripts : list string;
  stylesheets : list string
}.

Record Metadata : Type := mkMetadata {
  title : option string;
  description : string;
  keywords : string
}.

Record PageData : Type := mkPageData {
  content : string;
  links : list string;
  resources : Resources;
  metadata : Metadata
}.

(** ** ClearnetCrawler.extract_content *)

Section Extract.

Variable netloc_ok : string -> bool.
(** [markup_ok html] is false when [BeautifulSoup(html, 'html.parser')]
    raises [ParserRejectedMarkup]: [html.parser] gives up on some markup,
    such as an unknown marked section, and the constructor then raises. *)
Variable markup_ok : string -> bool.
(** [BeautifulSoup(html, 'html.parser')]: the lenient tree builder, on the
    markup it accepts *)
Variable parse_html : string -> list Soup.node.

Let urlparse := UrlLib.urlparse netloc_ok.
Let urljoin := UrlLib.urljoin netloc_ok.

Definition text_tags : list string :=
  ["p"; "h1"; "h2"; "h3"; "h4"; "h5"; "h6"; "li"; "span"; "div"].

Definition text_content_of (doc : list Soup.node) : string :=
  PyStr.join " "
    (List.filter (fun s => negb (PyStr.is_empty s))
       (List.map Soup.get_text_strip
          (Soup.find_all (Soup.named text_tags) doc))).

(** the condition under which the loop appends [link] *)
Definition keeps_link (base_domain : string) (parsed_link : UrlLib.ParseResult)
  : bool :=
  (String.eqb (UrlLib.netloc parsed_link) base_domain
   || PyStr.is_empty (UrlLib.netloc parsed_link))
  && PyStr.mem (UrlLib.scheme parsed_link) ["http"; "https"]
  && negb (PyStr.contains "#" (UrlLib.path parsed_link)).

(** the loop over the anchors; [links] is the list built so far *)
Fixpoint collect_links (url base_domain : string) (anchors : list Soup.node)
    (links : list string) : result (list string) :=
  match anchors with
  | [] => Ok links
  | a_tag :: rest =>
      href ← Soup.get_item a_tag "href";
      link ← urljoin url href;
      parsed_link ← urlparse link;
      if keeps_link base_domain parsed_link
      then collect_links url base_domain rest (links ++ [link])
      else collect_links url base_domain rest links
  end.

(** [[urljoin(url, t[key]) for t in soup.find_all(...)]] *)
Fixpoint join_all (url key : string) (ts : list Soup.node)
  : result (list string) :=
  match ts with
  | [] => Ok []
  | t :: rest =>
      v ← Soup.get_item t key;
      u ← urljoin url v;
      us ← join_all url key rest;
      Ok (u :: us)
  end.

(** [soup.find('meta', attrs={'name': n})['content'] if soup.find(...) else ""] *)
Definition meta_content (doc : list Soup.node) (n : string) : result string :=
  match Soup.find (fun t => Soup.named ["meta"] t && Soup.attr_is "name" n t) doc with
  | Some t => Soup.get_item t "content"
  | None => Ok EmptyString
  end.

Definition a_href (t : Soup.node) : bool :=
  Soup.named ["a"] t && Soup.has_attr "href" t.

Definition extract_content (link_limit : Z) (url html : string)
  : result PageData :=
  if negb (markup_ok html) then Raise ParserRejectedMarkup
  else
  let soup := parse_html html in
  let text_content := text_content_of soup in
  base ← urlparse url;
  let base_domain := UrlLib.netloc base in
  links ← collect_links url base_domain (Soup.find_all a_href soup) [];
  let links := slice_to links link_limit in
  imgs ← join_all url "src"
    (Soup.find_all (fun t => Soup.named ["img"] t && Soup.has_attr "src" t) soup);
  scrs ← join_all url "src"
    (Soup.find_all (fun t => Soup.named ["script"] t && Soup.has_attr "src" t) soup);
  csss ← join_all url "href"
    (Soup.find_all (fun t => Soup.named ["link"] t
                             && Soup.attr_has "rel" "stylesheet" t
                             && Soup.has_attr "href" t) soup);
  let title :=
    match Soup.find (Soup.named ["title"]) soup with
    | Some t => Soup.string_of t
    | None => Some "No title"%string
    end in
  descr ← meta_content soup "description";
  keyw ← meta_content soup "keywords";
  Ok (mkPageData text_content links (mkResources imgs scrs csss)
        (mkMetadata title descr keyw)).

End Extract.

(** ** Dictionaries with string keys, in insertion order *)

Module Dict.

Definition t (V : Type) : Type := list (string * V).

Fixpoint get {V} (d : t V) (k : string) : option V :=
  match d with
  | [] => None
  | (k', v) :: d' => if String.eqb k' k then Some v else get d' k
  end.

(** [k in d] *)
Definition has {V} (d : t V) (k : string) : bool :=
  match get d k with Some _ => true | None => false end.

(** [d[k] = v] *)
Fixpoint set {V} (d : t V) (k : string) (v : V) : t V :=
  match d with
  | [] => [(k, v)]
  | (k', v') :: d' =>
      if String.eqb k' k then (k', v) :: d' else (k', v') :: set d' k v
  end.

(** [d.update(e)] *)
Definition update {V} (d e : t V) : t V :=
  fold_left (fun acc kv => set acc (fst kv) (snd kv)) e d.

Definition keys {V} (d : t V) : list string := List.map fst d.

End Dict.

(** ** The crawler *)

(** What [requests.get] does: it returns a response or raises. *)
Inductive response : Type :=
| Response (status_code : Z) (text : string)
| RequestError.

(** What a crawl does to the outside and to its visited set, in order.  The
    events of [crawl_url(url, depth)] carry its [depth]. *)
Inductive event : Type :=
| EvDequeue (url : string) (depth : Z)   (* [queue.pop(0)] *)
| EvVisited (url : string) (depth : Z)   (* [self.visited_urls.add(url)] *)
| EvRobots (base_url : string) (read_ok : bool)   (* [rp.read()] *)
| EvGet (url : string) (depth : Z) (r : response)   (* [requests.get(url, ...)] *)
| EvEnqueue (url : string) (depth : Z).  (* [queue.append((link, depth + 1))] *)

Section Crawler.

Variable netloc_ok : string -> bool.
Variable markup_ok : string -> bool.
Variable parse_html : string -> list Soup.node.

(** The network: its state, and what a request does to it. *)
Context {World : Type}.
(** [requests.get(url, headers=..., timeout=10)] *)
Variable requests_get : World -> string -> response * World.

(** A [RobotFileParser] that has read its file.  [robots_read w u] is
    [rp.set_url(u); rp.read()]: [None] when [read] raises. *)
Context {Rules : Type}.
Variable robots_read : World -> string -> option Rules * World.
(** [rp.can_fetch(useragent, url)]; it parses the unquoted address, and
    raises [ValueError] when that does not parse *)
Variable can_fetch : Rules -> string -> string -> result bool.

Let urlparse := UrlLib.urlparse netloc_ok.
Let urljoin := UrlLib.urljoin netloc_ok.

(** The attributes of a [ClearnetCrawler]. *)
Record crawler : Type := mkCrawler {
  respect_robots : bool;
  crawl_depth : Z;
  link_limit : Z;
  mode : string;
  user_agent : string;
  delay_min : Z;
  delay_max : Z;
  robots_cache : gmap string Rules;
  visited_urls : gset string
}.

Definition the_user_agent : string :=
  "ClearnetResearchAssistant/1.0 (+https://example.com/bot; research-purpose)".

(** [ClearnetCrawler.__init__] *)
Definition init (respect_robots : bool) (crawl_depth link_limit : Z)
    (mode : string) : crawler :=
  let mk depth limit dmin dmax :=
    mkCrawler respect_robots depth limit mode the_user_agent dmin dmax ∅ ∅ in
  if String.eqb mode "exploratory" then
    mk crawl_depth (Z.min (link_limit * 2) 20) 1 3
  else if String.eqb mode "deep_dive" then
    mk (Z.min (crawl_depth + 2) 10) link_limit 2 4
  else if String.eqb mode "stealth" then
    mk crawl_depth link_limit 3 7
  else
    mk crawl_depth link_limit 2 4.

(** A crawler at work: the object, the network, and the events so far. *)
Record session : Type := mkSession {
  self : crawler;
  world : World;
  trace : list event
}.

Definition set_visited (v : gset string) (c : crawler) : crawler :=
  mkCrawler (respect_robots c) (crawl_depth c) (link_limit c) (mode c)
    (user_agent c) (delay_min c) (delay_max c) (robots_cache c) v.

Definition set_cache (m : gmap string Rules) (c : crawler) : crawler :=
  mkCrawler (respect_robots c) (crawl_depth c) (link_limit c) (mode c)
    (user_agent c) (delay_min c) (delay_max c) m (visited_urls c).

Definition base_url_of (p : UrlLib.ParseResult) : string :=
  UrlLib.scheme p +:+ "://" +:+ UrlLib.netloc p.

(** [ClearnetCrawler.is_allowed] *)
Definition is_allowed (url : string) (s : session) : result bool * session :=
  if negb (respect_robots (self s)) then (Ok true, s)
  else
    match urlparse url with
    | Raise e => (Raise e, s)
    | Ok parsed_url =>
        let base_url := base_url_of parsed_url in
        match robots_cache (self s) !! base_url with
        | Some rp => (can_fetch rp (user_agent (self s)) url, s)
        | None =>
            match urljoin base_url "/robots.txt" with
            | Raise e => (Raise e, s)
            | Ok robots_url =>
                match robots_read (world s) robots_url with
                | (Some rp, w) =>
                    (can_fetch rp (user_agent (self s)) url,
                     mkSession
                       (set_cache (<[base_url := rp]> (robots_cache (self s)))
                          (self s))
                       w (trace s ++ [EvRobots base_url true]))
                | (None, w) =>
                    (Ok true,
                     mkSession (self s) w
                       (trace s ++ [EvRobots base_url false]))
                end
            end
        end
    end.

(** [ClearnetCrawler.crawl_url]; the politeness delay before the request
    changes nothing here. *)
Definition crawl_url (url : string) (depth : Z) (s : session)
  : result (Dict.t PageData) * session :=
  if (crawl_depth (self s) <? depth) || bool_decide (url ∈ visited_urls (self s))
  then (Ok [], s)
  else
    let s := mkSession (set_visited ({[url]} ∪ visited_urls (self s)) (self s))
               (world s) (trace s ++ [EvVisited url depth]) in
    match is_allowed url s with
    | (Raise e, s) => (Raise e, s)
    | (Ok false, s) => (Ok [], s)
    | (Ok true, s) =>
        let '(resp, w) := requests_get (world s) url in
        let s := mkSession (self s) w (trace s ++ [EvGet url depth resp]) in
        match resp with
        | RequestError => (Ok [], s)
        | Response status_code text =>
            if negb (status_code =? 200) then (Ok [], s)
            else
              match extract_content netloc_ok markup_ok parse_html
                      (link_limit (self s)) url text with
              | Ok data => (Ok [(url, data)], s)
              | Raise _ => (Ok [], s)
              end
        end
    end.

(** The local variables of [crawl] next to the session. *)
Record loop_state : Type := mkLoop {
  sess : session;
  results : Dict.t PageData;
  queue : list (string * Z)
}.

(** [for link in data[url]['links']: if link not in self.visited_urls:
    queue.append((link, depth + 1))] *)
Definition enqueue_link (depth : Z) (st : loop_state) (link : string)
  : loop_state :=
  if bool_decide (link ∈ visited_urls (self (sess st))) then st
  else mkLoop
         (mkSession (self (sess st)) (world (sess st))
            (trace (sess st) ++ [EvEnqueue link (depth + 1)]))
         (results st) (queue st ++ [(link, depth + 1)]).

Definition log (e : event) (s : session) : session :=
  mkSession (self s) (world s) (trace s ++ [e]).

(** One pass through the body of the [while queue:] loop, for a queue
    whose first element is [(url, depth)] and whose rest is [rest]. *)
Definition loop_body (url : string) (depth : Z) (rest : list (string * Z))
    (s : session) (res : Dict.t PageData) : result loop_state * session :=
  let s := log (EvDequeue url depth) s in
  if bool_decide (url ∈ visited_urls (self s)) || (crawl_depth (self s) <? depth)
  then (Ok (mkLoop s res rest), s)
  else
    match crawl_url url depth s with
    | (Raise e, s) => (Raise e, s)
    | (Ok data, s) =>
        let res := Dict.update res data in
        match Dict.get data url with
        | Some page =>
            let st := fold_left (enqueue_link depth) (links page)
                        (mkLoop s res rest) in
            (Ok st, sess st)
        | None => (Ok (mkLoop s res rest), s)
        end
    end.

(** How a call of [crawl] ends. *)
Inductive outcome : Type :=
| OutOfFuel
| Returned (res : Dict.t PageData) (s : session)
| Raised (e : exn) (s : session).

(** The [while queue:] loop, run for at most [fuel] passes. *)
Fixpoint crawl_loop (fuel : nat) (st : loop_state) : outcome :=
  match fuel with
  | O => OutOfFuel
  | S fuel' =>
      match queue st with
      | [] => Returned (results st) (sess st)
      | (url, depth) :: rest =>
          match loop_body url depth rest (sess st) (results st) with
          | (Ok st', _) => crawl_loop fuel' st'
          | (Raise e, s) => Raised e s
          end
      end
  end.

(** [ClearnetCrawler.crawl]: the events of the call are recorded from an
    empty trace. *)
Definition crawl (fuel : nat) (c : crawler) (w : World) (seed_url : string)
  : outcome :=
  crawl_loop fuel
    (mkLoop (mkSession (set_visited ∅ c) w []) [] [(seed_url, 0)]).

End Crawler.

(** ** KnowledgeBase.query *)

Module KB.

(** One entry of the list [KnowledgeBase.query] returns. *)
Record document (Distance : Type) : Type := mkDocument {
  text : string;
  metadata : Dict.t string;
  distance : option Distance
}.
Arguments mkDocument {Distance}.
Arguments text {Distance}.
Arguments metadata {Distance}.
Arguments distance {Distance}.

(** What [collection.query(query_texts=[q], n_results=n)] returns for its
    single query text. *)
Record query_result (Distance : Type) : Type := mkQueryResult {
  documents : list string;
  metadatas : list (Dict.t string);
  distances : option (list Distance)
}.
Arguments mkQueryResult {Distance}.
Arguments documents {Distance}.
Arguments metadatas {Distance}.
Arguments distances {Distance}.

Section Query.

Context {Store Distance : Type}.
(** the vector store; [None] when the call raises *)
Variable collection_query :
  Store -> string -> Z -> option (query_result Distance).

(** the body of the loop over [enumerate(results['documents'][0])] *)
Definition entry (r : query_result Distance) (i : nat) (doc : string)
  : document Distance :=
  mkDocument doc
    (match nth_error (metadatas r) i with Some m => m | None => [] end)
    (match distances r with
     | Some ds => nth_error ds i
     | None => None
     end).

Fixpoint entries (r : query_result Distance) (i : nat) (docs : list string)
    (acc : list (document Distance)) : list (document Distance) :=
  match docs with
  | [] => acc
  | doc :: docs' => entries r (S i) docs' (acc ++ [entry r i doc])
  end.

(** [KnowledgeBase.query(query_text, n_results)] *)
Definition query (store : Store) (query_text : string) (n_results : Z)
  : list (document Distance) :=
  match collection_query store query_text n_results with
  | Some r => entries r 0 (documents r) []
  | None => []
  end.

End Query.

End KB.

(** ** ResearchAgent *)

(** [data.get("metadata", {}).get("title", "No title")] on a page of the
    crawler, which always has both keys *)
Definition title_of (data : PageData) : option string :=
  title (metadata data).

Module Agent.

Record page_summary : Type := mkPageSummary {
  url : string;
  title : option string;
  content_preview : string;
  num_links : nat
}.

Record crawled_summary : Type := mkCrawledSummary {
  num_pages : nat;
  pages : list page_summary
}.

Record kb_doc : Type := mkKbDoc {
  text : string;
  source : string
}.

Record context : Type := mkContext {
  query : string;
  crawled_data : crawled_summary;
  relevant_documents : list kb_doc
}.

(** [s[:n] + "..." if len(s) > n else s] *)
Definition preview (n : nat) (s : string) : string :=
  if (n <? String.length s)%nat then PyStr.take n s +:+ "..." else s.

Definition summarize (item : string * PageData) : page_summary :=
  let '(u, data) := item in
  mkPageSummary u (title_of data)
    (preview 500 (content data)) (length (links data)).

Section Analyze.

Context {Store Distance : Type}.
Variable collection_query :
  Store -> string -> Z -> option (KB.query_result Distance).

Definition format_doc (doc : KB.document Distance) : kb_doc :=
  mkKbDoc (preview 1000 (KB.text doc))
    (match Dict.get (KB.metadata doc) "url" with
     | Some u => u
     | None => "Unknown source"%string
     end).

(** [ResearchAgent._prepare_context] *)
Definition prepare_context (query : string)
    (crawled_data : Dict.t PageData)
    (relevant_docs : list (KB.document Distance)) : context :=
  let pages :=
    fold_left (fun acc item => acc ++ [summarize item])
      (slice_to crawled_data 10) [] in
  let crawled_summary := mkCrawledSummary (length crawled_data) pages in
  let kb_docs :=
    fold_left (fun acc doc => acc ++ [format_doc doc]) relevant_docs [] in
  mkContext query crawled_summary kb_docs.

(** The context [ResearchAgent.analyze] hands to [_generate_report]. *)
Definition analyze_context (query : string)
    (crawled_data : Dict.t PageData) (knowledge_base : Store) : context :=
  let relevant_docs := KB.query collection_query knowledge_base query 5 in
  prepare_context query crawled_data relevant_docs.

End Analyze.

End Agent.

(** ** urllib.robotparser.RobotFileParser

    [read] and [can_fetch] of the class of the standard library, as
    [is_allowed] calls them. *)

Module RobotParser.

(** What fetching the file does inside [read]: [urlopen] raises
    [HTTPError] with a status code; or [urlopen], [f.read()] or the
    decoding of the body raises something else (a [URLError], a timeout,
    a [UnicodeDecodeError]); or the file is read, and [parse] makes
    entries of its lines. *)
Inductive opened (Entries : Type) : Type :=
| HTTPError (code : Z)
| OtherError
| Parsed (entries : Entries).
Arguments HTTPError {Entries}.
Arguments OtherError {Entries}.
Arguments Parsed {Entries}.

(** The attributes of a parser that [can_fetch] reads; [last_checked]
    tells whether the time of the last fetch is set. *)
Record t (Entries : Type) : Type := mkParser {
  disallow_all : bool;
  allow_all : bool;
  last_checked : bool;
  entries : Entries
}.
Arguments mkParser {Entries}.
Arguments disallow_all {Entries}.
Arguments allow_all {Entries}.
Arguments last_checked {Entries}.
Arguments entries {Entries}.

Section Parser.

Context {World Entries : Type}.
(** the entries of a parser that has parsed nothing *)
Variable no_entries : Entries.
(** [urllib.request.urlopen(self.url)], up to the parsing of the body *)
Variable urlopen : World -> string -> opened Entries * World.
(** the search of the entries for the user agent and the path of the
    address, which parses the unquoted address first: [ValueError] when
    that does not parse *)
Variable allowance : Entries -> string -> string -> result bool.

(** [RobotFileParser()] *)
Definition new : t Entries := mkParser false false false no_entries.

(** [rp.read()]: [None] when it raises *)
Definition read (o : opened Entries) : option (t Entries) :=
  match o with
  | HTTPError code =>
      if (code =? 401) || (code =? 403)
      then Some (mkParser true false false no_entries)
      else if (400 <=? code) && (code <? 500)
      then Some (mkParser false true false no_entries)
      else Some new
  | OtherError => None
  | Parsed entries => Some (mkParser false false true entries)
  end.

(** [rp.set_url(url); rp.read()] *)
Definition robots_read (w : World) (url : string)
  : option (t Entries) * World :=
  (read (fst (urlopen w url)), snd (urlopen w url)).

(** [rp.can_fetch(useragent, url)] *)
Definition can_fetch (rp : t Entries) (useragent url : string)
  : result bool :=
  if disallow_all rp then Ok false
  else if allow_all rp then Ok true
  else if negb (last_checked rp) then Ok false
  else allowance (entries rp) useragent url.

End Parser.

End RobotParser.

(** ** utils.py *)

Module Utils.

(** [s[:n]] on a string, for any integer [n] *)
Definition slice_to (s : string) (n : Z) : string :=
  if 0 <=? n then PyStr.take (Z.to_nat n) s
  else PyStr.take (String.length s - Z.to_nat (- n)) s.

(** [truncate_text(text, max_length)] *)
Definition truncate_text (text : string) (max_length : Z) : string :=
  if Z.of_nat (String.length text) <=? max_length then text
  else slice_to text max_length +:+ "...".

(** [s.replace(old, new)] for an [old] of one character *)
Fixpoint replace (old : ascii) (new : string) (s : string) : string :=
  match s with
  | EmptyString => EmptyString
  | String c s' =>
      if Ascii.eqb c old then new +:+ replace old new s'
      else String c (replace old new s')
  end.

(** the characters [<>:], the double quote and [/\|?*] *)
Definition invalid_chars : string :=
  String "<" (String ">" (String ":" (String "034" "/\|?*"))).

(** [sanitize_filename(filename)] *)
Definition sanitize_filename (filename : string) : string :=
  fold_left (fun filename char => replace char "_" filename)
    (list_ascii_of_string invalid_chars) filename.

End Utils.

(** ** KnowledgeBase.add_document *)

Module Index.

(** The arguments of one call of [collection.add]. *)
Record add_call : Type := mkAdd {
  documents : list string;
  metadatas : list (Dict.t string);
  ids : list string
}.

(** The clock and the vector store, and the calls of [collection.add] so
    far. *)
Record session {World : Type} : Type := mkSession {
  world : World;
  calls : list add_call
}.
Arguments mkSession {World}.

Section Add.

Context {World : Type}.
(** Python's [hash] on strings and [str] on integers *)
Variable hash : string -> Z.
Variable str : Z -> string.
(** [datetime.now().isoformat()] *)
Variable now : World -> string * World.
(** [collection.add(...)]; [false] when the call raises *)
Variable collection_add : World -> add_call -> bool * World.

(** [not text or len(text.strip()) == 0] *)
Definition is_blank (text : string) : bool :=
  PyStr.is_empty text
  || (String.length (PyStr.strip PyStr.is_space text) =? 0)%nat.

(** [add_document(text, metadata)] *)
Definition add_document (text : string) (metadata : option (Dict.t string))
    (s : @session World) : @session World :=
  if is_blank text then s
  else
    let '(doc_id, w) :=
      match metadata with
      | Some ((_ :: _) as m) =>
          match Dict.get m "url" with
          | Some u => (str (hash u), world s)
          | None =>
              let '(t, w) := now (world s) in
              (str (hash (PyStr.take 100 text +:+ t)), w)
          end
      | _ =>
          let '(t, w) := now (world s) in
          (str (hash (PyStr.take 100 text +:+ t)), w)
      end in
    let call :=
      mkAdd [text] [match metadata with Some m => m | None => [] end]
        [doc_id] in
    mkSession (snd (collection_add w call)) (calls s ++ [call]).

(** The indexing loop of [app.py]:
    [for url, data in crawled_data.items(): add_document(...)]. *)
Fixpoint index_pages (crawled_data : Dict.t PageData) (s : @session World)
  : @session World :=
  match crawled_data with
  | [] => s
  | (url, data) :: rest =>
      let '(timestamp, w) := now (world s) in
      index_pages rest
        (add_document (content data)
           (Some [("url", url); ("timestamp", timestamp)]%string)
           (mkSession w (calls s)))
  end.

End Add.

End Index.

(** ** app.py: the crawler of "Start Research" *)

Module App.

(** the options of the select box "Research Mode" *)
Definition research_modes : list string :=
  ["Exploratory"; "Deep Dive"; "Stealth"]%string.

(** [ClearnetCrawler(respect_robots=..., crawl_depth=..., link_limit=...,
    mode=mode.lower())] *)
Definition crawler_of {Rules : Type} (respect_robots : bool)
    (crawl_depth link_limit : Z) (mode : string) : @crawler Rules :=
  init respect_robots crawl_depth link_limit (PyStr.lower mode).

End App.

(** * What the specification says

    The notions the properties below are stated with. *)

(** ** Links of a page

    Every anchor [href], resolved against the address of the page; of these,
    the ones whose host is the host of the page (or empty), whose scheme is
    http or https and whose path holds no fragment marker. *)

Definition resolved_href (url : string) (a_tag : Soup.node) : string :=
  UrlLib.urljoin_value url
    (match Soup.attr "href" a_tag with Some h => h | None => EmptyString end).

Definition kept_link (base_host link : string) : bool :=
  let p := UrlLib.urlparse_parts link EmptyString in
  (String.eqb (UrlLib.netloc p) base_host || PyStr.is_empty (UrlLib.netloc p))
  && (String.eqb (UrlLib.scheme p) "http"
      || String.eqb (UrlLib.scheme p) "https")
  && negb (PyStr.contains "#" (UrlLib.path p)).

Definition qualifying_links (url : string) (doc : list Soup.node)
  : list string :=
  List.filter
    (kept_link (UrlLib.netloc (UrlLib.urlparse_parts url EmptyString)))
    (List.map (resolved_href url) (Soup.find_all a_href doc)).

(** ** Traces *)

(** The addresses requested, in the order of the requests. *)
Definition fetched (tr : list event) : list string :=
  omap (fun e => match e with EvGet u _ _ => Some u | _ => None end) tr.

Definition is_robots_event (e : event) : bool :=
  match e with EvRobots _ _ => true | _ => false end.

Definition robots_only (evs : list event) : Prop :=
  List.Forall (fun e => is_robots_event e = true) evs.

(** The depth of the pass of the loop an event belongs to: the depth of
    the address dequeued, marked or requested, and the depth of the page
    whose link is enqueued. *)
Definition pass_depth (e : event) : option Z :=
  match e with
  | EvDequeue _ d => Some d
  | EvVisited _ d => Some d
  | EvGet _ d _ => Some d
  | EvEnqueue _ d => Some (d - 1)
  | EvRobots _ _ => None
  end.

(** ** Pages and failures *)

Section Pages.

Variable netloc_ok : string -> bool.
Variable markup_ok : string -> bool.
Variable parse_html : string -> list Soup.node.

(** A request fails when it raises, when its status is not 200, or when
    the extraction of its text raises. *)
Definition fetch_fails (limit : Z) (url : string) (r : response) : Prop :=
  match r with
  | RequestError => True
  | Response status_code text =>
      status_code <> 200
      \/ exists e, extract_content netloc_ok markup_ok parse_html limit url text = Raise e
  end.

(** The page a response yields, if any. *)
Definition page_of (limit : Z) (url : string) (r : response)
  : option PageData :=
  match r with
  | RequestError => None
  | Response status_code text =>
      if status_code =? 200 then
        match extract_content netloc_ok markup_ok parse_html limit url text with
        | Ok data => Some data
        | Raise _ => None
        end
      else None
  end.

End Pages.

(** A path of links from the seed, through pages of the result. *)
Inductive link_path (res : Dict.t PageData) (seed : string)
  : nat -> string -> Prop :=
| path_seed : link_path res seed 0 seed
| path_link n u page v :
    link_path res seed n u ->
    Dict.get res u = Some page ->
    In v (links page) ->
    link_path res seed (S n) v.

(** ** The shapes of a pass of the loop

    What a pass of [while queue:] can do to the session, the result and the
    queue, case by case. *)

Section Passes.

Variable netloc_ok : string -> bool.
Variable markup_ok : string -> bool.
Variable parse_html : string -> list Soup.node.
Context {World Rules : Type}.
Variable can_fetch : Rules -> string -> string -> result bool.

Implicit Types (s : @session World Rules).

(** How [is_allowed] raises [e] for [url]: [urlparse] rejects the address,
    or [can_fetch] raises on the rules held for its base address. *)
Definition raised_by (url : string) (c : @crawler Rules) (e : exn) : Prop :=
  UrlLib.urlparse netloc_ok url = Raise e
  \/ exists p rp,
       UrlLib.urlparse netloc_ok url = Ok p
       /\ robots_cache c !! base_url_of p = Some rp
       /\ can_fetch rp (user_agent c) url = Raise e.

(** the links of a page that are not marked visited *)
Definition new_links (visited : gset string) (ls : list string)
  : list string :=
  List.filter (fun l => negb (bool_decide (l ∈ visited))) ls.

(** the session once [url] is marked and robots.txt is consulted *)
Definition checked (url : string) (depth : Z) s
    (cache : gmap string Rules) (w : World) (evs : list event)
  : @session World Rules :=
  mkSession
    (set_cache cache (set_visited ({[url]} ∪ visited_urls (self s)) (self s)))
    w (trace s ++ [EvDequeue url depth; EvVisited url depth] ++ evs).

(** the session once the request is made *)
Definition requested (url : string) (depth : Z) (r : response) (w : World) s
  : @session World Rules :=
  mkSession (self s) w (trace s ++ [EvGet url depth r]).

(** the session once the links are enqueued *)
Definition enqueued (depth : Z) (new : list string) s
  : @session World Rules :=
  mkSession (self s) (world s)
    (trace s ++ List.map (fun l => EvEnqueue l (depth + 1)) new).

Inductive pass (url : string) (depth : Z) (rest : list (string * Z)) s
    (res : Dict.t PageData)
  : result (@loop_state World Rules) * @session World Rules -> Prop :=
| pass_skip :
    url ∈ visited_urls (self s) \/ crawl_depth (self s) < depth ->
    pass url depth rest s res
      (Ok (mkLoop (log (EvDequeue url depth) s) res rest),
       log (EvDequeue url depth) s)
| pass_raised cache w evs e :
    url ∉ visited_urls (self s) -> depth <= crawl_depth (self s) ->
    robots_only evs ->
    raised_by url (self (checked url depth s cache w evs)) e ->
    pass url depth rest s res (Raise e, checked url depth s cache w evs)
| pass_denied cache w evs :
    url ∉ visited_urls (self s) -> depth <= crawl_depth (self s) ->
    robots_only evs ->
    pass url depth rest s res
      (Ok (mkLoop (checked url depth s cache w evs) res rest),
       checked url depth s cache w evs)
| pass_no_page cache w evs r w2 :
    url ∉ visited_urls (self s) -> depth <= crawl_depth (self s) ->
    robots_only evs ->
    page_of netloc_ok markup_ok parse_html (link_limit (self s)) url r = None ->
    let s2 := requested url depth r w2 (checked url depth s cache w evs) in
    pass url depth rest s res (Ok (mkLoop s2 res rest), s2)
| pass_page cache w evs r w2 page :
    url ∉ visited_urls (self s) -> depth <= crawl_depth (self s) ->
    robots_only evs ->
    page_of netloc_ok markup_ok parse_html (link_limit (self s)) url r = Some page ->
    let new := new_links ({[url]} ∪ visited_urls (self s)) (links page) in
    let s3 := enqueued depth new
                (requested url depth r w2 (checked url depth s cache w evs)) in
    pass url depth rest s res
      (Ok (mkLoop s3 (Dict.set res url page)
             (rest ++ List.map (fun l => (l, depth + 1)) new)),
       s3).

End Passes.

(** A request to the network: a read of robots.txt or a request for a
    page. *)
Definition is_network (e : event) : bool :=
  match e with
  | EvRobots _ _ | EvGet _ _ _ => true
  | _ => false
  end.

(** The events [pre] before a request [e] end with the mark of an address
    followed by reads of robots.txt only, and [e], when it requests a page,
    requests the page of that address. *)
Definition after_mark (pre : list event) (e : event) : Prop :=
  exists pre1 u d pre2,
    pre = pre1 ++ EvVisited u d :: pre2
    /\ robots_only pre2
    /\ forall u' d' r, e = EvGet u' d' r -> u' = u /\ d' = d.

(** Every request to the network is made for an address that was marked
    visited just before. *)
Definition marked_before_network (tr : list event) : Prop :=
  forall pre e post,
    tr = pre ++ e :: post -> is_network e = true -> after_mark pre e.

(** The events of a pass after the robots.txt reads: nothing, or the
    request for the page followed by events that are no requests. *)
Definition request_first (url : string) (depth : Z) (tail : list event)
  : Prop :=
  forall a e b,
    tail = a ++ e :: b -> is_network e = true ->
    a = [] /\ exists r, e = EvGet url depth r.

(** ** Invariants of the crawl loop *)

(** Every request for an address comes after the address is marked
    visited. *)
Definition visited_first (tr : list event) : Prop :=
  forall pre u d r post,
    tr = pre ++ EvGet u d r :: post -> In (EvVisited u d) pre.

Section Invariants.

Variable netloc_ok : string -> bool.
Variable markup_ok : string -> bool.
Variable parse_html : string -> list Soup.node.
Context {World Rules : Type}.

Implicit Types (st : @loop_state World Rules).

(** Requests: no address is requested twice, every requested address is
    marked, and the mark comes first. *)
Record inv_fetch st : Prop := mkInvFetch {
  fetch_nodup : NoDup (fetched (trace (sess st)));
  fetch_marked : forall u, In u (fetched (trace (sess st))) ->
                           u ∈ visited_urls (self (sess st));
  fetch_order : visited_first (trace (sess st))
}.

(** Results: every page of the result was extracted from the text of a
    request that returned status 200. *)
Record inv_origin (limit : Z) st : Prop := mkInvOrigin {
  origin_limit : link_limit (self (sess st)) = limit;
  origin_page : forall u page,
    Dict.get (results st) u = Some page ->
    exists d text,
      In (EvGet u d (Response 200 text)) (trace (sess st))
      /\ extract_content netloc_ok markup_ok parse_html limit u text = Ok page
}.

(** Paths: every item of the queue and every page of the result is at
    the end of a path of links from the seed. *)
Record inv_paths (seed : string) (D : Z) st : Prop := mkInvPaths {
  paths_depth : crawl_depth (self (sess st)) = D;
  paths_queue : forall u d,
    In (u, d) (queue st) ->
    0 <= d /\ link_path (results st) seed (Z.to_nat d) u;
  paths_result : forall u page,
    Dict.get (results st) u = Some page ->
    exists n, Z.of_nat n <= D /\ link_path (results st) seed n u
}.

(** Order: the passes so far ran at depths that never decrease, and the
    queue holds, in order, items of the current depth and the next. *)
Definition inv_order st : Prop :=
  exists lo,
    StronglySorted Z.le (omap pass_depth (trace (sess st)))
    /\ (forall d, In d (omap pass_depth (trace (sess st))) -> d <= lo)
    /\ StronglySorted Z.le (List.map snd (queue st))
    /\ (forall d, In d (List.map snd (queue st)) -> lo <= d <= lo + 1).

End Invariants.

(** ** A crawler session *)

Section Sessions.

Variable netloc_ok : string -> bool.
Context {World Rules : Type}.
Variable robots_read : World -> string -> option Rules * World.
Variable can_fetch : Rules -> string -> string -> result bool.

(** A sequence of calls of [is_allowed], one per address. *)
Fixpoint is_allowed_all (urls : list string) (s : @session World Rules)
  : @session World Rules :=
  match urls with
  | [] => s
  | url :: urls' =>
      is_allowed_all urls' (snd (is_allowed netloc_ok robots_read can_fetch url s))
  end.

(** Once robots.txt was read for a base address, it is not read again for
    it. *)
Definition read_once (tr : list event) : Prop :=
  forall pre b post,
    tr = pre ++ EvRobots b true :: post ->
    List.Forall (fun e => forall ok, e <> EvRobots b ok) post.

End Sessions.

(** ** A small site

    Pages, a network that serves them, and robots.txt readers, for the
    examples below. *)

Module Site.

Definition a (href : string) : Soup.node := Soup.Tag "a" [("href", href)] [].

(** The texts of the pages, by name. *)
Definition parse_html (html : string) : list Soup.node :=
  if String.eqb html "seed" then [a "/a"; a "/b"]
  else if String.eqb html "a" then [a "/c"; a "/"]
  else if String.eqb html "fragment" then [a "page#section"]
  else if String.eqb html "meta" then
    [Soup.Tag "meta" [("name", "description")] []]
  else if String.eqb html "four" then
    [a "/1"; a "https://other.test/x"; a "/2"; a "/3"]
  else [].

Definition requests_get (w : unit) (url : string) : response * unit :=
  if String.eqb url "https://ex.test/" then (Response 200 "seed", tt)
  else if String.eqb url "https://ex.test/a" then (Response 200 "a", tt)
  else if String.eqb url "https://ex.test/b" then (Response 404 "", tt)
  else if String.eqb url "https://ex.test/c" then (Response 200 "meta", tt)
  else if String.eqb url "https://four.test/" then (Response 200 "four", tt)
  else (RequestError, tt).

Definition netloc_ok (n : string) : bool := true.

(** the tree builder accepts every page of the site *)
Definition markup_ok (html : string) : bool := true.

(** Rules that allow everything or nothing. *)
Definition can_fetch (rp : bool) (useragent url : string) : result bool :=
  Ok rp.

(** a reader for which [read] always raises *)
Definition robots_down (w : unit) (url : string) : option bool * unit :=
  (None, tt).

(** a reader that finds a file that allows everything *)
Definition robots_up (w : unit) (url : string) : option bool * unit :=
  (Some true, tt).



(** entries that allow everything *)
Definition allowance (entries : unit) (useragent url : string)
  : result bool :=
  Ok true.

Definition start (c : @crawler bool) : @session unit bool :=
  mkSession c tt [].

Definition page (text : string) : PageData :=
  mkPageData text [] (mkResources [] [] []) (mkMetadata (Some "t"%string) "" "").

(** a text of 501 characters *)
Definition long_text : string := string_of_list_ascii (repeat "a"%char 501).

(** a store that returns one document *)
Definition one_document (store : unit) (q : string) (n : Z)
  : option (KB.query_result unit) :=
  Some (KB.mkQueryResult ["text"%string] [[("url", "https://ex.test/")]]%string None).

End Site.

(** ** Runs of the loop *)

Section Runs.

Variable netloc_ok : string -> bool.
Variable markup_ok : string -> bool.
Variable parse_html : string -> list Soup.node.
Context {World : Type}.
Variable requests_get : World -> string -> response * World.
Context {Rules : Type}.
Variable robots_read : World -> string -> option Rules * World.
Variable can_fetch : Rules -> string -> string -> result bool.

(** The loop started in [st] ends: some amount of fuel is enough. *)
Definition terminates (st : @loop_state World Rules) : Prop :=
  exists fuel,
    crawl_loop netloc_ok markup_ok parse_html requests_get robots_read can_fetch fuel st
    <> OutOfFuel.

End Runs.

(** The number of levels left below an item of the queue. *)
Definition levels_left (D : Z) (item : string * Z) : nat :=
  Z.to_nat (D + 1 - snd item).

(** What [crawl_url] returns for a response. *)
Definition data_of (url : string) (page : option PageData)
  : Dict.t PageData :=
  match page with Some p => [(url, p)] | None => [] end.

(** A character of a scheme once lowered: no colon, no slash, and not one
    that [urlsplit] strips or removes. *)
Definition plain_char (c : ascii) : bool :=
  negb (Ascii.eqb c ":") && negb (Ascii.eqb c "/")
  && negb (UrlLib.c0_or_space c) && UrlLib.safe_byte c.

(** ** More notions for a crawl *)

Section Recorded.

Variable netloc_ok : string -> bool.
Variable markup_ok : string -> bool.
Variable parse_html : string -> list Soup.node.

(** The pages of the requests of a trace that yielded one, each with its
    address, in the order of the requests. *)
Definition recorded (limit : Z) (tr : list event) : Dict.t PageData :=
  omap (fun e => match e with
                 | EvGet u _ r =>
                     match page_of netloc_ok markup_ok parse_html limit u r with
                     | Some page => Some (u, page)
                     | None => None
                     end
                 | _ => None
                 end) tr.

End Recorded.

(** The depths at which the events of a crawl with maximum depth [D] may
    happen. *)
Definition in_range (D : Z) (e : event) : Prop :=
  match e with
  | EvDequeue _ d => 0 <= d
  | EvVisited _ d => 0 <= d <= D
  | EvGet _ d _ => 0 <= d <= D
  | EvEnqueue _ d => 1 <= d <= D + 1
  | EvRobots _ _ => True
  end.

(** [u] is on the site of [seed]: its network location is that of the seed
    or empty. *)
Definition same_site (seed u : string) : Prop :=
  UrlLib.netloc (UrlLib.urlparse_parts u EmptyString)
  = UrlLib.netloc (UrlLib.urlparse_parts seed EmptyString)
  \/ UrlLib.netloc (UrlLib.urlparse_parts u EmptyString) = EmptyString.

Definition web_scheme (u : string) : Prop :=
  UrlLib.scheme (UrlLib.urlparse_parts u EmptyString) = "http"%string
  \/ UrlLib.scheme (UrlLib.urlparse_parts u EmptyString) = "https"%string.

Section MoreInvariants.

Variable netloc_ok : string -> bool.
Variable markup_ok : string -> bool.
Variable parse_html : string -> list Soup.node.
Context {World Rules : Type}.

Implicit Types (st : @loop_state World Rules).

(** Depths: the queue holds no negative depth and every event so far
    happened at a depth in range. *)
Record inv_depths (D : Z) st : Prop := mkInvDepths {
  depths_config : crawl_depth (self (sess st)) = D;
  depths_queue : forall u d, In (u, d) (queue st) -> 0 <= d;
  depths_trace : List.Forall (in_range D) (trace (sess st))
}.

(** Closure: a link of a page fetched above the last level is marked
    visited or waits in the queue, one level deeper. *)
Record inv_closure (limit D : Z) st : Prop := mkInvClosure {
  closure_depth : crawl_depth (self (sess st)) = D;
  closure_limit : link_limit (self (sess st)) = limit;
  closure_links : forall u d r page l,
    In (EvGet u d r) (trace (sess st)) ->
    page_of netloc_ok markup_ok parse_html limit u r = Some page ->
    d < D -> In l (links page) ->
    l ∈ visited_urls (self (sess st)) \/ In (l, d + 1) (queue st)
}.

(** Site: the addresses in the queue and the addresses requested are on
    the site of the seed and, but for the seed, have a web scheme. *)
Record inv_site (seed : string) st : Prop := mkInvSite {
  site_queue : forall u d,
    In (u, d) (queue st) -> same_site seed u /\ (u = seed \/ web_scheme u);
  site_fetched : forall u,
    In u (fetched (trace (sess st))) ->
    same_site seed u /\ (u = seed \/ web_scheme u)
}.

End MoreInvariants.

(** ** A pass, after the robots check *)

Section AfterCheck.

Variable netloc_ok : string -> bool.
Variable markup_ok : string -> bool.
Variable parse_html : string -> list Soup.node.
Context {World : Type}.
Variable requests_get : World -> string -> response * World.
Context {Rules : Type}.
Variable can_fetch : Rules -> string -> string -> result bool.

Implicit Types (s : @session World Rules).

(** the session once [url] is dequeued and marked visited *)
Definition marked (url : string) (depth : Z) s : @session World Rules :=
  mkSession (set_visited ({[url]} ∪ visited_urls (self s)) (self s)) (world s)
    (trace s ++ [EvDequeue url depth; EvVisited url depth]).

(** What is left of a pass of the loop once [is_allowed] has answered [r]
    and left the session [s1]. *)
Definition pass_after (url : string) (depth : Z) (rest : list (string * Z))
    (res : Dict.t PageData) (r : result bool) s1
  : result (@loop_state World Rules) * @session World Rules :=
  match r with
  | Raise e => (Raise e, s1)
  | Ok false => (Ok (mkLoop s1 res rest), s1)
  | Ok true =>
      let resp := fst (requests_get (world s1) url) in
      let s2 := requested url depth resp (snd (requests_get (world s1) url)) s1 in
      match page_of netloc_ok markup_ok parse_html (link_limit (self s1)) url resp with
      | None => (Ok (mkLoop s2 res rest), s2)
      | Some page =>
          let new := new_links (visited_urls (self s1)) (links page) in
          let s3 := enqueued depth new s2 in
          (Ok (mkLoop s3 (Dict.set res url page)
                 (rest ++ List.map (fun l => (l, depth + 1)) new)),
           s3)
      end
  end.

(** Every request made so far is allowed by the rules in the cache of
    [c], but for rules that were read after the request. *)
Definition complies (c : @crawler Rules) (tr : list event) : Prop :=
  forall pre u d r post,
    tr = pre ++ EvGet u d r :: post ->
    respect_robots c = false
    \/ exists p,
         UrlLib.urlparse netloc_ok u = Ok p
         /\ forall rp, robots_cache c !! base_url_of p = Some rp ->
                       can_fetch rp (user_agent c) u = Ok true
                       \/ In (EvRobots (base_url_of p) true) post.

(** The cache of [c] is the cache of [c0] with the rules read in [tr]. *)
Record cache_grown (c0 c : @crawler Rules) (tr : list event) : Prop :=
  mkCacheGrown {
    grown_respect : respect_robots c = respect_robots c0;
    grown_agent : user_agent c = user_agent c0;
    grown_keeps : forall b rp,
      robots_cache c0 !! b = Some rp -> robots_cache c !! b = Some rp;
    grown_origin : forall b rp,
      robots_cache c !! b = Some rp ->
      robots_cache c0 !! b = Some rp \/ In (EvRobots b true) tr;
    grown_read : forall b,
      In (EvRobots b true) tr -> is_Some (robots_cache c !! b);
    grown_fresh : forall b ok,
      In (EvRobots b ok) tr -> robots_cache c0 !! b = None
  }.

End AfterCheck.

(** ** The meta tags of a page *)

(** The first meta tag of the document with the name [n], when there is
    one, has a [content] attribute. *)
Definition meta_complete (doc : list Soup.node) (n : string) : bool :=
  match Soup.find (fun t => Soup.named ["meta"] t && Soup.attr_is "name" n t)
          doc with
  | Some t => Soup.has_attr "content" t
  | None => true
  end.

(** What [sanitize_filename] does to one character. *)
Definition sanitized_char (c : ascii) : ascii :=
  if PyStr.contains c Utils.invalid_chars then "_"%char else c.

(** The pages of a crawl that the indexing loop hands to the store. *)
Definition indexed_pages (crawled_data : Dict.t PageData)
  : list (string * PageData) :=
  List.filter (fun item => negb (Index.is_blank (content (snd item))))
    crawled_data.

(** The string with [f] applied to each of its characters. *)
Fixpoint map_chars (f : ascii -> ascii) (s : string) : string :=
  match s with
  | EmptyString => EmptyString
  | String c s' => String (f c) (map_chars f s')
  end.

(** A character [sanitize_filename] leaves alone. *)
Definition valid_char (c : ascii) : bool :=
  negb (PyStr.contains c Utils.invalid_chars).

(** ** The requests of a crawl *)

(** [1 + L + ... + L^(n-1)] *)
Fixpoint geometric (L n : nat) : nat :=
  match n with
  | O => O
  | S n' => 1 + L * geometric L n'
  end.

(** The requests a crawl with [L] links per page and [D] levels can make
    for an item of the queue and the pages below it. *)
Definition budget (L D : Z) (item : string * Z) : nat :=
  geometric (Z.to_nat L) (levels_left D item).

Definition queue_budget (L D : Z) (q : list (string * Z)) : nat :=
  list_sum (List.map (budget L D) q).

Section Budget.

Context {World Rules : Type}.

Implicit Types (st : @loop_state World Rules).

(** The requests made and the requests the queue can still lead to stay
    within the budget of the seed, and each page of the result was
    requested. *)
Record inv_budget (L D : Z) st : Prop := mkInvBudget {
  budget_depth : crawl_depth (self (sess st)) = D;
  budget_limit : link_limit (self (sess st)) = L;
  budget_left :
    (length (fetched (trace (sess st))) + queue_budget L D (queue st)
     <= geometric (Z.to_nat L) (Z.to_nat (D + 1)))%nat;
  budget_pages :
    (length (results st) <= length (fetched (trace (sess st))))%nat
}.

End Budget.

(** The URL library accepts the address of the page and the addresses
    the document refers to: the address of the page parses, and every
    [href] and [src] of the document resolves against it to an address
    that parses. *)
Definition addresses_ok (netloc_ok : string -> bool) (url : string)
    (doc : list Soup.node) : Prop :=
  is_ok (UrlLib.urlparse netloc_ok url) = true
  /\ forall t key v,
       In t (List.flat_map Soup.tags doc) ->
       key = "href"%string \/ key = "src"%string ->
       Soup.attr key t = Some v ->
       exists link,
         UrlLib.urljoin netloc_ok url v = Ok link
         /\ is_ok (UrlLib.urlparse netloc_ok link) = true.

(** ** The queue, from the trace *)



Section Fifo.

Context {World Rules : Type}.


End Fifo.

Section Served.

Context {World Rules : Type}.


End Served.

(** * Properties *)

(** ** Strings and lists *)

Lemma length_append (s t : string) :
  String.length (s +:+ t) = (String.length s + String.length t)%nat.
Proof. induction s as [|c s IH]; simpl; [reflexivity | now rewrite IH]. Qed.

Lemma length_take (n : nat) (s : string) :
  (String.length (PyStr.take n s) <= n)%nat.
Proof.
  revert s; induction n as [|n IH]; intros [|c s]; simpl; try lia.
  specialize (IH s); lia.
Qed.

(** A loop that appends [f x] for each [x] builds [map f]. *)
Lemma fold_append_map {A B} (f : A -> B) (l : list A) (acc : list B) :
  fold_left (fun acc x => acc ++ [f x]) l acc = acc ++ List.map f l.
Proof.
  revert acc; induction l as [|x l IH]; intros acc; simpl.
  - now rewrite app_nil_r.
  - rewrite IH, <- app_assoc. reflexivity.
Qed.

Lemma slice_to_nonneg {A} (l : list A) (n : Z) :
  0 <= n -> slice_to l n = firstn (Z.to_nat n) l.
Proof. intros H. unfold slice_to. destruct (Z.leb_spec 0 n); [reflexivity | lia]. Qed.

Lemma in_firstn {A} (k : nat) (l : list A) (x : A) :
  In x (firstn k l) -> In x l.
Proof.
  intros H. rewrite <- (firstn_skipn k l). apply in_or_app. now left.
Qed.

Lemma slice_to_sublist {A} (l : list A) (n : Z) (x : A) :
  In x (slice_to l n) -> In x l.
Proof. unfold slice_to. destruct (0 <=? n); apply in_firstn. Qed.

(** ** The report context *)

Section AgentFacts.

Context {Store Distance : Type}.
Variable collection_query :
  Store -> string -> Z -> option (KB.query_result Distance).

Lemma preview_length (n : nat) (s : string) :
  (String.length (Agent.preview n s) <= n + 3)%nat.
Proof.
  unfold Agent.preview. destruct (Nat.ltb_spec n (String.length s)).
  - rewrite length_append. pose proof (length_take n s). simpl. lia.
  - lia.
Qed.

Lemma preview_short (n : nat) (s : string) :
  (String.length s <= n)%nat -> Agent.preview n s = s.
Proof.
  intros H. unfold Agent.preview.
  destruct (Nat.ltb_spec n (String.length s)); [lia | reflexivity].
Qed.

Lemma entries_length (r : KB.query_result Distance) docs i acc :
  length (KB.entries r i docs acc) = (length acc + length docs)%nat.
Proof.
  revert i acc; induction docs as [|d docs IH]; intros i acc; simpl.
  - lia.
  - rewrite IH, length_app. simpl. lia.
Qed.

Lemma pages_of_context q (data : Dict.t PageData)
    (docs : list (KB.document Distance)) :
  Agent.pages (Agent.crawled_data (Agent.prepare_context q data docs))
  = List.map Agent.summarize (firstn 10 data).
Proof. unfold Agent.prepare_context; simpl. now rewrite fold_append_map. Qed.

Lemma documents_of_context q (data : Dict.t PageData)
    (docs : list (KB.document Distance)) :
  Agent.relevant_documents (Agent.prepare_context q data docs)
  = List.map Agent.format_doc docs.
Proof. unfold Agent.prepare_context; simpl. now rewrite fold_append_map. Qed.

Lemma entries_text (r : KB.query_result Distance) docs i acc :
  List.map KB.text (KB.entries r i docs acc)
  = List.map KB.text acc ++ docs.
Proof.
  revert i acc; induction docs as [|d docs IH]; intros i acc; simpl.
  - now rewrite app_nil_r.
  - rewrite IH, map_app, <- app_assoc. reflexivity.
Qed.

(** the texts of the documents [KnowledgeBase.query] returns are the
    documents of the store's answer *)
Lemma query_texts (kb : Store) (q : string) (n : Z) :
  List.map KB.text (KB.query collection_query kb q n)
  = match collection_query kb q n with
    | Some r => KB.documents r
    | None => []
    end.
Proof.
  unfold KB.query. destruct (collection_query kb q n) as [r|]; [|reflexivity].
  now rewrite entries_text.
Qed.

(** C9, as the code has it.  The context built by [analyze] holds the
    summaries of the first 10 pages, so at most 10; a content preview is
    the content itself when that has at most 500 characters and otherwise
    its first 500 characters followed by three dots, so at most 503
    characters.  There is one excerpt per document the store returns for
    [n_results = 5], in the order of the store, none when the query
    raises; an excerpt is the text of its document when that has at most
    1000 characters and otherwise its first 1000 characters followed by
    three dots, so at most 1003 characters; and there are at most 5
    excerpts when the store returns no more documents than it was asked
    for. *)
Theorem context_bounds (q : string) (data : Dict.t PageData) (kb : Store) :
  let ctx := Agent.analyze_context collection_query q data kb in
  let documents :=
    match collection_query kb q 5 with
    | Some r => KB.documents r
    | None => []
    end in
  Agent.pages (Agent.crawled_data ctx)
    = List.map Agent.summarize (firstn 10 data)
  /\ (length (Agent.pages (Agent.crawled_data ctx)) <= 10)%nat
  /\ List.map Agent.content_preview (Agent.pages (Agent.crawled_data ctx))
     = List.map
         (fun item =>
            let s := content (snd item) in
            if (500 <? String.length s)%nat
            then PyStr.take 500 s +:+ "..." else s)
         (firstn 10 data)
  /\ Forall (fun p => (String.length (Agent.content_preview p) <= 503)%nat)
       (Agent.pages (Agent.crawled_data ctx))
  /\ List.map Agent.text (Agent.relevant_documents ctx)
     = List.map
         (fun doc =>
            if (1000 <? String.length doc)%nat
            then PyStr.take 1000 doc +:+ "..." else doc)
         documents
  /\ length (Agent.relevant_documents ctx) = length documents
  /\ ((length documents <= 5)%nat ->
      (length (Agent.relevant_documents ctx) <= 5)%nat)
  /\ Forall (fun d => (String.length (Agent.text d) <= 1003)%nat)
       (Agent.relevant_documents ctx).
Proof.
  intros ctx documents. subst ctx documents. unfold Agent.analyze_context.
  rewrite pages_of_context, documents_of_context.
  assert (Htexts :
            List.map Agent.text
              (List.map Agent.format_doc (KB.query collection_query kb q 5))
            = List.map
                (fun doc =>
                   if (1000 <? String.length doc)%nat
                   then PyStr.take 1000 doc +:+ "..." else doc)
                match collection_query kb q 5 with
                | Some r => KB.documents r
                | None => []
                end).
  { rewrite <- query_texts, !map_map. reflexivity. }
  assert (Hlen : length (List.map Agent.format_doc
                           (KB.query collection_query kb q 5))
                 = length match collection_query kb q 5 with
                          | Some r => KB.documents r
                          | None => []
                          end).
  { rewrite <- query_texts, !length_map. reflexivity. }
  split; [reflexivity|]. split; [rewrite length_map, length_firstn; lia|].
  split.
  { rewrite map_map. apply map_ext. intros [u d]. reflexivity. }
  split.
  { apply List.Forall_forall. intros p Hp.
    apply in_map_iff in Hp as [[u d] [<- _]].
    simpl. apply (preview_length 500). }
  split; [exact Htexts|]. split; [exact Hlen|].
  split; [now rewrite Hlen|].
  apply List.Forall_forall. intros d Hd.
  apply in_map_iff in Hd as [doc [<- _]].
  simpl. apply (preview_length 1000).
Qed.

End AgentFacts.

(** ** URL parsing *)

Lemma find0_take (c : ascii) (s : string) (i : nat) :
  PyStr.find0 c s = Some i -> PyStr.find0 c (PyStr.take i s) = None.
Proof.
  revert i; induction s as [|a s IH]; intros i; simpl; [discriminate|].
  destruct (Ascii.eqb a c) eqn:E.
  - intros [= <-]. reflexivity.
  - destruct (PyStr.find0 c s) as [j|] eqn:F; simpl; [|discriminate].
    intros [= <-]. simpl. rewrite E, (IH j eq_refl). reflexivity.
Qed.

Lemma find0_take_none (c : ascii) (s : string) (n : nat) :
  PyStr.find0 c s = None -> PyStr.find0 c (PyStr.take n s) = None.
Proof.
  revert n; induction s as [|a s IH]; intros [|n]; simpl; try reflexivity.
  destruct (Ascii.eqb a c); [discriminate|].
  destruct (PyStr.find0 c s) eqn:F; simpl; [discriminate|].
  intros _. rewrite (IH n eq_refl). reflexivity.
Qed.

Lemma contains_take (c : ascii) (s : string) (n : nat) :
  PyStr.contains c s = false -> PyStr.contains c (PyStr.take n s) = false.
Proof.
  unfold PyStr.contains. destruct (PyStr.find0 c s) eqn:F; [discriminate|].
  intros _. now rewrite find0_take_none.
Qed.

(** What is left of a string once the text from the first [c] on is cut
    off holds no [c]. *)
Lemma contains_cut (c : ascii) (s : string) :
  PyStr.contains c s = true ->
  PyStr.contains c (fst (PyStr.cut c s)) = false.
Proof.
  unfold PyStr.cut, PyStr.contains.
  destruct (PyStr.find0 c s) as [i|] eqn:F; [|discriminate].
  intros _. simpl. now rewrite (find0_take c s i F).
Qed.

Lemma cut_prefix (c d : ascii) (s : string) :
  PyStr.contains d s = false ->
  PyStr.contains d (fst (PyStr.cut c s)) = false.
Proof.
  intros H. unfold PyStr.cut. destruct (PyStr.find0 c s); simpl; [|exact H].
  now apply contains_take.
Qed.

Lemma split_fragment_no_marker (u : string) :
  PyStr.contains "#" (fst (UrlLib.split_fragment u)) = false.
Proof.
  unfold UrlLib.split_fragment.
  destruct (PyStr.contains "#" u) eqn:E; [now apply contains_cut | exact E].
Qed.

Lemma split_query_prefix (d : ascii) (u : string) :
  PyStr.contains d u = false ->
  PyStr.contains d (fst (UrlLib.split_query u)) = false.
Proof.
  intros H. unfold UrlLib.split_query.
  destruct (PyStr.contains "?" u); [now apply cut_prefix | exact H].
Qed.

Lemma splitparams_prefix (d : ascii) (s : string) :
  PyStr.contains d s = false ->
  PyStr.contains d (fst (UrlLib.splitparams s)) = false.
Proof.
  intros H. unfold UrlLib.splitparams.
  destruct (PyStr.contains "/" s).
  - destruct (PyStr.rfind "/" s); [|exact H].
    destruct (PyStr.find ";" _ s); simpl; [now apply contains_take | exact H].
  - destruct (PyStr.find0 ";" s); simpl; [now apply contains_take | exact H].
Qed.

(** The path component of a parsed URL never holds the fragment marker:
    [urlsplit] moves everything from the first one on into the fragment. *)
Lemma path_has_no_fragment_marker (url scheme0 : string) :
  PyStr.contains "#" (UrlLib.path (UrlLib.urlparse_parts url scheme0)) = false.
Proof.
  unfold UrlLib.urlparse_parts. simpl.
  assert (H : PyStr.contains "#"
                (UrlLib.s_path (UrlLib.urlsplit_parts url scheme0)) = false).
  { unfold UrlLib.urlsplit_parts. simpl.
    apply split_query_prefix, split_fragment_no_marker. }
  destruct (_ && _); simpl; [now apply splitparams_prefix | exact H].
Qed.

Lemma urlparse_parts_of (netloc_ok : string -> bool) (url : string) p :
  UrlLib.urlparse netloc_ok url = Ok p ->
  p = UrlLib.urlparse_parts url EmptyString.
Proof.
  unfold UrlLib.urlparse. destruct (UrlLib.urlsplit_ok _ _ _); congruence.
Qed.

Lemma urljoin_value_of (netloc_ok : string -> bool) (base url v : string) :
  UrlLib.urljoin netloc_ok base url = Ok v ->
  v = UrlLib.urljoin_value base url.
Proof.
  unfold UrlLib.urljoin, UrlLib.urljoin_value.
  destruct (PyStr.is_empty base); [congruence|].
  destruct (PyStr.is_empty url); [congruence|].
  destruct (_ && _); congruence.
Qed.

(** ** Content extraction *)

Lemma bind_ok {A B} (r : result A) (k : A -> result B) (b : B) :
  (r ≫= k) = Ok b -> exists a, r = Ok a /\ k a = Ok b.
Proof. destruct r as [a|e]; simpl; [eauto | discriminate]. Qed.

Section ExtractFacts.

Variable netloc_ok : string -> bool.
Variable markup_ok : string -> bool.
Variable parse_html : string -> list Soup.node.

Local Abbreviation urlparse := (UrlLib.urlparse netloc_ok).
Local Abbreviation urljoin := (UrlLib.urljoin netloc_ok).
Local Abbreviation extract_content := (extract_content netloc_ok markup_ok parse_html).

(** The fragment test of the link filter is true of every parsed link. *)
Lemma keeps_link_ignores_fragment (base_domain link : string) :
  let p := UrlLib.urlparse_parts link EmptyString in
  keeps_link base_domain p
  = (String.eqb (UrlLib.netloc p) base_domain
     || PyStr.is_empty (UrlLib.netloc p))
    && PyStr.mem (UrlLib.scheme p) ["http"; "https"].
Proof.
  intros p. unfold keeps_link. subst p.
  rewrite path_has_no_fragment_marker. simpl. now rewrite andb_true_r.
Qed.

Lemma keeps_link_kept (base_domain link : string) :
  keeps_link base_domain (UrlLib.urlparse_parts link EmptyString)
  = kept_link base_domain link.
Proof.
  unfold keeps_link, kept_link, PyStr.mem. simpl.
  now rewrite orb_false_r.
Qed.

(** The loop of [extract_content] keeps the links that pass its test, in
    the order of the anchors. *)
Lemma collect_links_spec (url base_domain : string) anchors acc ls :
  collect_links netloc_ok url base_domain anchors acc = Ok ls ->
  ls = acc ++ List.filter (kept_link base_domain)
                (List.map (resolved_href url) anchors).
Proof.
  revert acc; induction anchors as [|a rest IH]; intros acc; simpl.
  - intros [= <-]. now rewrite app_nil_r.
  - intros H.
    apply bind_ok in H as (href & Hh & H).
    apply bind_ok in H as (link & Hl & H).
    apply bind_ok in H as (pl & Hp & H).
    apply urljoin_value_of in Hl. apply urlparse_parts_of in Hp.
    unfold Soup.get_item in Hh.
    assert (Hlink : resolved_href url a = link).
    { unfold resolved_href. destruct (Soup.attr "href" a); [|discriminate].
      injection Hh as ->. now symmetry. }
    rewrite Hlink, <- keeps_link_kept, <- Hp.
    destruct (keeps_link base_domain pl).
    + apply IH in H. rewrite H, <- app_assoc. reflexivity.
    + apply IH in H. exact H.
Qed.

(** The links an extracted page records are the first [link_limit]
    qualifying links of the document. *)
Lemma extract_content_links (limit : Z) (url html : string) page :
  extract_content limit url html = Ok page ->
  links page = slice_to (qualifying_links url (parse_html html)) limit.
Proof.
  unfold extract_content. intros H.
  destruct (markup_ok html); [|discriminate]. cbn [negb] in H.
  apply bind_ok in H as (base & Hb & H).
  apply bind_ok in H as (ls & Hls & H).
  apply bind_ok in H as (imgs & _ & H).
  apply bind_ok in H as (scrs & _ & H).
  apply bind_ok in H as (csss & _ & H).
  apply bind_ok in H as (descr & _ & H).
  apply bind_ok in H as (keyw & _ & H).
  injection H as <-. simpl.
  apply collect_links_spec in Hls. apply urlparse_parts_of in Hb.
  subst ls base. reflexivity.
Qed.

(** Every link an extracted page records is a URL that [urlparse]
    accepts. *)
Lemma collect_links_parse (url base_domain : string) anchors acc ls :
  collect_links netloc_ok url base_domain anchors acc = Ok ls ->
  List.Forall (fun l => is_ok (urlparse l) = true) acc ->
  List.Forall (fun l => is_ok (urlparse l) = true) ls.
Proof.
  revert acc; induction anchors as [|a rest IH]; intros acc; simpl.
  - intros [= <-] Hacc. exact Hacc.
  - intros H Hacc.
    apply bind_ok in H as (href & Hh & H).
    apply bind_ok in H as (link & Hl & H).
    apply bind_ok in H as (pl & Hp & H).
    destruct (keeps_link base_domain pl); apply IH in H; auto.
    apply List.Forall_app. split; [exact Hacc|].
    constructor; [|constructor]. now rewrite Hp.
Qed.

Lemma extract_content_links_parse (limit : Z) (url html : string) page :
  extract_content limit url html = Ok page ->
  List.Forall (fun l => is_ok (urlparse l) = true) (links page).
Proof.
  unfold extract_content. intros H.
  destruct (markup_ok html); [|discriminate]. cbn [negb] in H.
  apply bind_ok in H as (base & Hb & H).
  apply bind_ok in H as (ls & Hls & H).
  apply bind_ok in H as (imgs & _ & H).
  apply bind_ok in H as (scrs & _ & H).
  apply bind_ok in H as (csss & _ & H).
  apply bind_ok in H as (descr & _ & H).
  apply bind_ok in H as (keyw & _ & H).
  injection H as <-. simpl.
  apply collect_links_parse in Hls; [|constructor].
  apply List.Forall_forall. intros l Hl.
  apply slice_to_sublist in Hl.
  now apply (proj1 (List.Forall_forall _ _) Hls).
Qed.

End ExtractFacts.

(** ** The robots.txt address *)

Lemma scheme_char_plain (c : ascii) :
  UrlLib.scheme_char c = true -> plain_char (PyStr.lower_char c) = true.
Proof.
  destruct c as [b0 b1 b2 b3 b4 b5 b6 b7].
  destruct b0, b1, b2, b3, b4, b5, b6, b7; vm_compute; congruence.
Qed.

Lemma all_take (p : ascii -> bool) (n : nat) (s : string) :
  PyStr.all p s = true -> PyStr.all p (PyStr.take n s) = true.
Proof.
  unfold PyStr.all. revert n; induction s as [|c s IH]; intros [|n]; simpl;
    try reflexivity.
  intros H. apply andb_true_iff in H as [-> H]. now apply IH.
Qed.

Lemma all_drop (p : ascii -> bool) (n : nat) (s : string) :
  PyStr.all p s = true -> PyStr.all p (PyStr.drop n s) = true.
Proof.
  unfold PyStr.all. revert n; induction s as [|c s IH]; intros [|n]; simpl;
    try reflexivity; try (intros H; exact H).
  intros H. apply andb_true_iff in H as [_ H]. now apply IH.
Qed.

Lemma all_filter (p : ascii -> bool) (s : string) :
  PyStr.all p (PyStr.filter p s) = true.
Proof.
  unfold PyStr.all, PyStr.filter. rewrite list_ascii_of_string_of_list_ascii.
  induction (list_ascii_of_string s) as [|c l IH]; simpl; [reflexivity|].
  destruct (p c) eqn:E; simpl; [now rewrite E | exact IH].
Qed.

Lemma filter_all (p : ascii -> bool) (s : string) :
  PyStr.all p s = true -> PyStr.filter p s = s.
Proof.
  unfold PyStr.all, PyStr.filter. induction s as [|c s IH]; simpl;
    [reflexivity|].
  intros H. apply andb_true_iff in H as [-> H]. simpl. now rewrite IH.
Qed.

Lemma all_append (p : ascii -> bool) (s t : string) :
  PyStr.all p (s +:+ t) = PyStr.all p s && PyStr.all p t.
Proof.
  unfold PyStr.all. induction s as [|c s IH]; simpl; [reflexivity|].
  now rewrite IH, andb_assoc.
Qed.

Lemma all_lower_plain (s : string) :
  PyStr.all UrlLib.scheme_char s = true ->
  PyStr.all plain_char (PyStr.lower s) = true.
Proof.
  unfold PyStr.all. induction s as [|c s IH]; simpl; [reflexivity|].
  intros H. apply andb_true_iff in H as [Hc H].
  now rewrite (scheme_char_plain c Hc), IH.
Qed.

Lemma all_weaken (p q : ascii -> bool) (s : string) :
  (forall c, p c = true -> q c = true) ->
  PyStr.all p s = true -> PyStr.all q s = true.
Proof.
  intros Hpq. unfold PyStr.all. induction s as [|c s IH]; simpl;
    [reflexivity|].
  intros H. apply andb_true_iff in H as [Hc H].
  now rewrite (Hpq c Hc), IH.
Qed.

Lemma all_find0 (p : ascii -> bool) (c : ascii) (s : string) :
  p c = false -> PyStr.all p s = true -> PyStr.find0 c s = None.
Proof.
  intros Hc. unfold PyStr.all. induction s as [|a s IH]; simpl;
    [reflexivity|].
  intros H. apply andb_true_iff in H as [Ha H].
  destruct (Ascii.eqb_spec a c) as [->|_]; [congruence|].
  now rewrite IH.
Qed.

Lemma find0_append (c : ascii) (s t : string) :
  PyStr.find0 c s = None ->
  PyStr.find0 c (s +:+ String c t) = Some (String.length s).
Proof.
  induction s as [|a s IH]; simpl.
  - now rewrite Ascii.eqb_refl.
  - destruct (Ascii.eqb a c); [discriminate|].
    destruct (PyStr.find0 c s); [discriminate|].
    intros _. now rewrite IH.
Qed.

Lemma drop_append (s t : string) : PyStr.drop (String.length s) (s +:+ t) = t.
Proof. induction s as [|a s IH]; simpl; [now destruct t | exact IH]. Qed.

Lemma take_all (s : string) : PyStr.take (String.length s) s = s.
Proof. induction s as [|a s IH]; simpl; [reflexivity | now rewrite IH]. Qed.

Lemma find0_take_before (c : ascii) (s : string) (j k : nat) :
  PyStr.find0 c s = Some j -> (k <= j)%nat ->
  PyStr.find0 c (PyStr.take k s) = None.
Proof.
  revert j k; induction s as [|a s IH]; intros j k; simpl; [discriminate|].
  destruct (Ascii.eqb a c) eqn:E.
  - intros [= <-] Hk. assert (k = 0%nat) as -> by lia. reflexivity.
  - destruct (PyStr.find0 c s) as [i|] eqn:F; simpl; [|discriminate].
    intros [= <-] Hk. destruct k as [|k]; simpl; [reflexivity|].
    rewrite E, (IH i k eq_refl) by lia. reflexivity.
Qed.

(** The scheme [urlsplit] finds holds plain characters only. *)
Lemma split_scheme_plain (u : string) :
  PyStr.all plain_char (fst (UrlLib.split_scheme u EmptyString)) = true.
Proof.
  unfold UrlLib.split_scheme.
  destruct (PyStr.find0 ":" u) as [[|i]|]; try reflexivity.
  destruct u as [|c0 u']; [reflexivity|].
  destruct (PyStr.is_ascii_alpha c0 && _) eqn:E; [|reflexivity].
  apply andb_true_iff in E as [_ E]. cbn [fst]. now apply all_lower_plain.
Qed.

(** What [urlsplit] leaves after the scheme is a part of the URL. *)
Lemma split_scheme_rest_all (p : ascii -> bool) (u s0 : string) :
  PyStr.all p u = true ->
  PyStr.all p (snd (UrlLib.split_scheme u s0)) = true.
Proof.
  intros H. unfold UrlLib.split_scheme.
  destruct (PyStr.find0 ":" u) as [[|i]|]; try exact H.
  destruct u as [|c0 u']; [exact H|].
  destruct (PyStr.is_ascii_alpha c0 && _); [|exact H].
  cbn [snd]. now apply all_drop.
Qed.

(** The network location holds none of the delimiters that end it, and is
    a part of the URL. *)
Lemma split_netloc_delimiters (u : string) (c : ascii) :
  In c ["/"; "?"; "#"]%char ->
  PyStr.find0 c (fst (UrlLib.split_netloc u)) = None.
Proof.
  intros Hc. unfold UrlLib.split_netloc.
  destruct (String.eqb (PyStr.take 2 u) "//"); [|reflexivity].
  unfold UrlLib.splitnetloc. cbn [fst]. simpl fold_left. unfold PyStr.find.
  set (v := PyStr.drop 2 u).
  destruct (PyStr.find0 c v) as [j|] eqn:Hj; [|now apply find0_take_none].
  apply (find0_take_before c v j); [exact Hj|].
  destruct Hc as [<-|[<-|[<-|[]]]]; rewrite Hj; simpl;
    repeat match goal with
           | |- context [PyStr.find0 ?x v] => destruct (PyStr.find0 x v); simpl
           end; lia.
Qed.

Lemma split_netloc_all (p : ascii -> bool) (u : string) :
  PyStr.all p u = true ->
  PyStr.all p (fst (UrlLib.split_netloc u)) = true.
Proof.
  intros H. unfold UrlLib.split_netloc.
  destruct (String.eqb (PyStr.take 2 u) "//"); [|reflexivity].
  unfold UrlLib.splitnetloc. cbn [fst]. now apply all_take, all_drop.
Qed.

Lemma lstrip_plain (s t : string) :
  PyStr.all plain_char s = true ->
  PyStr.lstrip UrlLib.c0_or_space (s +:+ ":" +:+ t) = s +:+ ":" +:+ t.
Proof.
  destruct s as [|c s]; [reflexivity|]. unfold PyStr.all. simpl.
  intros H. apply andb_true_iff in H as [Hc _].
  unfold plain_char in Hc.
  destruct (UrlLib.c0_or_space c); [|reflexivity].
  now rewrite !andb_false_r in Hc.
Qed.

Lemma take_append (s t : string) : PyStr.take (String.length s) (s +:+ t) = s.
Proof. induction s as [|a s IH]; simpl; [now destruct t | now rewrite IH]. Qed.

Lemma drop_append_char (s : string) (c : ascii) (t : string) :
  PyStr.drop (S (String.length s)) (s +:+ String c t) = t.
Proof. induction s as [|a s IH]; simpl; [now destruct t | exact IH]. Qed.

(** Splitting the scheme off [s:t], for [s] without a colon, leaves [t] or
    the whole string. *)
Lemma split_scheme_append (s t s0 : string) :
  PyStr.find0 ":" s = None ->
  UrlLib.split_scheme (s +:+ String ":" t) s0 = (PyStr.lower s, t)
  \/ UrlLib.split_scheme (s +:+ String ":" t) s0 = (s0, s +:+ String ":" t).
Proof.
  intros Hs. unfold UrlLib.split_scheme. rewrite (find0_append ":" s t Hs).
  destruct s as [|c s']; [now right|].
  cbn [String.length String.append].
  change (S (String.length s')) with (String.length (String c s')).
  change (String c (s' +:+ String ":" t)) with (String c s' +:+ String ":" t).
  rewrite take_append, drop_append_char.
  change (String c s' +:+ String ":" t) with (String c (s' +:+ String ":" t)).
  cbv iota.
  destruct (PyStr.is_ascii_alpha c
            && PyStr.all UrlLib.scheme_char (String c s'));
    [now left | now right].
Qed.

Lemma split_netloc_slashes (N : string) :
  (forall c, In c ["/"; "?"; "#"]%char -> PyStr.find0 c N = None) ->
  fst (UrlLib.split_netloc ("//" +:+ N)) = N.
Proof.
  intros Hdel. unfold UrlLib.split_netloc, UrlLib.splitnetloc, PyStr.find.
  change ("//" +:+ N) with (String "/" (String "/" N)).
  cbn [PyStr.take PyStr.drop String.eqb Ascii.eqb Bool.eqb
       fold_left fst String.length].
  rewrite !Hdel by (simpl; tauto). cbn [option_map].
  replace (S (S (String.length N)) - 2)%nat with (String.length N) by lia.
  apply take_all.
Qed.

Lemma split_netloc_plain (c : ascii) (s : string) :
  Ascii.eqb c "/" = false ->
  fst (UrlLib.split_netloc (String c s)) = EmptyString.
Proof.
  intros Hc. unfold UrlLib.split_netloc.
  destruct s as [|a s]; simpl; rewrite ?Hc; reflexivity.
Qed.

(** The network location of the base address [scheme://netloc] is either
    that [netloc] or empty. *)
Lemma base_url_netloc (S N : string) :
  PyStr.all plain_char S = true ->
  PyStr.all UrlLib.safe_byte N = true ->
  (forall c, In c ["/"; "?"; "#"]%char -> PyStr.find0 c N = None) ->
  let nl := UrlLib.s_netloc
              (UrlLib.urlsplit_parts (S +:+ "://" +:+ N) EmptyString) in
  nl = N \/ nl = EmptyString.
Proof.
  intros HS HN Hdel.
  assert (Hsafe : PyStr.all UrlLib.safe_byte (S +:+ "://" +:+ N) = true).
  { rewrite all_append. apply andb_true_iff. split.
    - apply (all_weaken plain_char); [|exact HS].
      intros c Hc. unfold plain_char in Hc. now apply andb_true_iff in Hc as [_ Hc].
    - rewrite all_append. apply andb_true_iff. split; [reflexivity | exact HN]. }
  unfold UrlLib.urlsplit_parts. cbn [UrlLib.s_netloc].
  unfold UrlLib.clean_url.
  change ("://" +:+ N) with (":" +:+ "//" +:+ N) in *.
  rewrite (lstrip_plain S _ HS), (filter_all _ _ Hsafe).
  change (":" +:+ "//" +:+ N) with (String ":" ("//" +:+ N)).
  assert (Hcolon : PyStr.find0 ":" S = None).
  { apply (all_find0 plain_char); [reflexivity | exact HS]. }
  destruct (split_scheme_append S ("//" +:+ N)
              (UrlLib.clean_scheme EmptyString) Hcolon) as [-> | ->];
    cbn [snd].
  - left. now apply split_netloc_slashes.
  - right. destruct S as [|c S']; [reflexivity|].
    apply split_netloc_plain.
    unfold PyStr.all in HS. simpl in HS. apply andb_true_iff in HS as [HS _].
    unfold plain_char in HS. destruct (Ascii.eqb c "/"); [|reflexivity].
    now rewrite andb_false_r in HS.
Qed.

(** The base address built from a parsed URL is a URL that [urljoin]
    accepts. *)
Lemma robots_url_ok (netloc_ok : string -> bool) (url : string) p :
  UrlLib.urlparse netloc_ok url = Ok p ->
  forall e, UrlLib.urljoin netloc_ok (base_url_of p) "/robots.txt" <> Raise e.
Proof.
  intros Hp e. pose proof (urlparse_parts_of _ _ _ Hp) as ->.
  unfold UrlLib.urlparse in Hp.
  destruct (UrlLib.urlsplit_ok netloc_ok url EmptyString) eqn:Hok;
    [clear Hp | discriminate].
  unfold base_url_of. cbn [UrlLib.scheme UrlLib.netloc UrlLib.urlparse_parts].
  set (S := UrlLib.s_scheme (UrlLib.urlsplit_parts url EmptyString)).
  set (N := UrlLib.s_netloc (UrlLib.urlsplit_parts url EmptyString)).
  assert (HS : PyStr.all plain_char S = true).
  { subst S. unfold UrlLib.urlsplit_parts. cbn [UrlLib.s_scheme].
    change (UrlLib.clean_scheme EmptyString) with EmptyString.
    apply split_scheme_plain. }
  assert (HN : PyStr.all UrlLib.safe_byte N = true).
  { subst N. unfold UrlLib.urlsplit_parts. cbn [UrlLib.s_netloc].
    apply split_netloc_all, split_scheme_rest_all. apply all_filter. }
  assert (Hdel : forall c, In c ["/"; "?"; "#"]%char -> PyStr.find0 c N = None).
  { intros c Hc. subst N. unfold UrlLib.urlsplit_parts. cbn [UrlLib.s_netloc].
    now apply split_netloc_delimiters. }
  unfold UrlLib.urljoin.
  assert (Hne : PyStr.is_empty (S +:+ "://" +:+ N) = false).
  { now destruct S. }
  rewrite Hne. cbn [PyStr.is_empty].
  assert (H1 : UrlLib.urlsplit_ok netloc_ok (S +:+ "://" +:+ N) EmptyString
               = true).
  { unfold UrlLib.urlsplit_ok. cbn [UrlLib.netloc UrlLib.urlparse_parts].
    destruct (base_url_netloc S N HS HN Hdel) as [-> | ->]; [|reflexivity].
    exact Hok. }
  rewrite H1.
  assert (H2 : forall sch,
             UrlLib.urlsplit_ok netloc_ok "/robots.txt" sch = true).
  { intros sch. reflexivity. }
  rewrite H2. discriminate.
Qed.

(** ** One pass of the crawl loop *)

Section CrawlerFacts.

Variable netloc_ok : string -> bool.
Variable markup_ok : string -> bool.
Variable parse_html : string -> list Soup.node.
Context {World : Type}.
Variable requests_get : World -> string -> response * World.
Context {Rules : Type}.
Variable robots_read : World -> string -> option Rules * World.
Variable can_fetch : Rules -> string -> string -> result bool.

Local Abbreviation urlparse := (UrlLib.urlparse netloc_ok).
Local Abbreviation urljoin := (UrlLib.urljoin netloc_ok).
Local Abbreviation extract_content := (extract_content netloc_ok markup_ok parse_html).
Local Abbreviation is_allowed := (is_allowed netloc_ok robots_read can_fetch).
Local Abbreviation crawl_url :=
  (crawl_url netloc_ok markup_ok parse_html requests_get robots_read can_fetch).
Local Abbreviation loop_body :=
  (loop_body netloc_ok markup_ok parse_html requests_get robots_read can_fetch).
Local Abbreviation crawl_loop :=
  (crawl_loop netloc_ok markup_ok parse_html requests_get robots_read can_fetch).
Local Abbreviation crawl :=
  (crawl netloc_ok markup_ok parse_html requests_get robots_read can_fetch).
Local Abbreviation page_of := (page_of netloc_ok markup_ok parse_html).
Local Abbreviation terminates :=
  (terminates netloc_ok markup_ok parse_html requests_get robots_read can_fetch).
Local Abbreviation session := (@session World Rules).
Local Abbreviation loop_state := (@loop_state World Rules).

Implicit Types (s : session) (st : loop_state) (c : @crawler Rules) (w : World).

Lemma set_cache_visited m c :
  visited_urls (set_cache m c) = visited_urls c.
Proof. reflexivity. Qed.

(** [is_allowed] changes the cache and the network only, and adds only
    robots.txt reads to the trace. *)
Lemma is_allowed_effect url s r s' :
  is_allowed url s = (r, s') ->
  exists cache w evs,
    s' = mkSession (set_cache cache (self s)) w (trace s ++ evs)
    /\ robots_only evs.
Proof.
  unfold is_allowed. destruct s as [c w tr]; simpl.
  assert (Hid : mkSession c w tr
                = mkSession (set_cache (robots_cache c) c) w (tr ++ [])).
  { rewrite app_nil_r. destruct c; reflexivity. }
  destruct (negb (respect_robots c)).
  { intros [= <- <-]. exists (robots_cache c), w, [].
    split; [exact Hid|]. constructor. }
  destruct (urlparse url) as [p|e].
  2:{ intros [= <- <-]. exists (robots_cache c), w, [].
      split; [exact Hid|]. constructor. }
  destruct (robots_cache c !! base_url_of p) as [rp|].
  { intros [= <- <-]. exists (robots_cache c), w, [].
    split; [exact Hid|]. constructor. }
  destruct (urljoin (base_url_of p) "/robots.txt") as [ru|e].
  2:{ intros [= <- <-]. exists (robots_cache c), w, [].
      split; [exact Hid|]. constructor. }
  destruct (robots_read w ru) as [[rp|] w'].
  - intros [= <- <-]. eexists _, w', [_]. split; [reflexivity|].
    repeat constructor.
  - intros [= <- <-]. exists (robots_cache c), w', [EvRobots (base_url_of p) false].
    split; [destruct c; reflexivity|]. repeat constructor.
Qed.

Lemma enqueue_links_spec depth ls st :
  fold_left (enqueue_link depth) ls st
  = let new := new_links (visited_urls (self (sess st))) ls in
    mkLoop (enqueued depth new (sess st)) (results st)
      (queue st ++ List.map (fun l => (l, depth + 1)) new).
Proof.
  revert st; induction ls as [|l ls IH]; intros [[c w tr] res q]; simpl.
  - unfold enqueued; simpl. now rewrite !app_nil_r.
  - rewrite IH. unfold enqueue_link; simpl.
    destruct (bool_decide (l ∈ visited_urls c)); simpl; [reflexivity|].
    unfold enqueued; simpl. now rewrite <- !app_assoc.
Qed.

Lemma dict_get_single {V} (k : string) (v : V) :
  Dict.get [(k, v)] k = Some v.
Proof. simpl. now rewrite String.eqb_refl. Qed.

(** [is_allowed] raises only when [urlparse] rejects the address or
    [can_fetch] raises on the rules held for its base address. *)
Lemma is_allowed_raises url s e s' :
  is_allowed url s = (Raise e, s') ->
  raised_by netloc_ok can_fetch url (self s') e.
Proof.
  unfold is_allowed, raised_by.
  destruct (negb _); [discriminate|].
  destruct (urlparse url) as [p|e'] eqn:Hp; [|intros [= <- <-]; now left].
  destruct (robots_cache (self s) !! base_url_of p) as [rp|] eqn:Hc.
  { intros [= Hr <-]. right. now exists p, rp. }
  destruct (urljoin (base_url_of p) "/robots.txt") as [ru|e'] eqn:Hj.
  - destruct (robots_read (world s) ru) as [[rp|] w']; [|discriminate].
    intros [= Hr <-]. right. exists p, rp. simpl.
    split; [reflexivity|]. split; [apply lookup_insert_eq | exact Hr].
  - exfalso. revert Hj. apply (robots_url_ok netloc_ok url p Hp).
Qed.

Lemma response_data limit url resp s2 :
  match resp with
  | Response status_code text =>
      if negb (status_code =? 200) then (Ok [], s2)
      else
        match extract_content limit url text with
        | Ok data => (Ok [(url, data)], s2)
        | Raise _ => (Ok [], s2)
        end
  | RequestError => (Ok [], s2)
  end = (Ok (data_of url (page_of limit url resp)), s2).
Proof.
  destruct resp as [code text|]; [|reflexivity].
  unfold page_of. destruct (code =? 200); simpl; [|reflexivity].
  destruct (extract_content limit url text); reflexivity.
Qed.

Lemma crawl_url_eq url depth s :
  url ∉ visited_urls (self s) -> depth <= crawl_depth (self s) ->
  crawl_url url depth s
  = match is_allowed url
            (mkSession (set_visited ({[url]} ∪ visited_urls (self s)) (self s))
               (world s) (trace s ++ [EvVisited url depth])) with
    | (Raise e, s1) => (Raise e, s1)
    | (Ok false, s1) => (Ok [], s1)
    | (Ok true, s1) =>
        (Ok (data_of url
               (page_of (link_limit (self s1)) url
                  (fst (requests_get (world s1) url)))),
         requested url depth (fst (requests_get (world s1) url))
           (snd (requests_get (world s1) url)) s1)
    end.
Proof.
  intros Hv Hd. unfold crawl_url.
  rewrite (proj2 (Z.ltb_ge _ _) Hd), bool_decide_eq_false_2 by exact Hv.
  simpl orb. cbv iota.
  destruct (is_allowed url _) as [[[|]|e] s1]; try reflexivity.
  destruct (requests_get (world s1) url) as [resp w2]. simpl fst. simpl snd.
  apply response_data.
Qed.

(** Every pass of the loop has one of the five shapes. *)
Lemma loop_body_pass url depth rest s res :
  pass netloc_ok markup_ok parse_html can_fetch url depth rest s res
    (loop_body url depth rest s res).
Proof.
  unfold loop_body.
  destruct (bool_decide (url ∈ visited_urls (self (log (EvDequeue url depth) s)))
            || (crawl_depth (self (log (EvDequeue url depth) s)) <? depth))
    eqn:Hskip.
  { apply pass_skip. apply orb_true_iff in Hskip as [H|H].
    - left. now apply bool_decide_eq_true in H.
    - right. now apply Z.ltb_lt in H. }
  apply orb_false_iff in Hskip as [Hv Hd].
  apply bool_decide_eq_false in Hv. apply Z.ltb_ge in Hd.
  rewrite crawl_url_eq by assumption.
  destruct (is_allowed url _) as [r s1] eqn:Hal.
  pose proof (is_allowed_effect _ _ _ _ Hal) as (cache & w & evs & Hs1 & Hev).
  assert (Hck : s1 = checked url depth s cache w evs).
  { rewrite Hs1. unfold checked, log. simpl. now rewrite <- !app_assoc. }
  clear Hs1. subst s1.
  destruct r as [[|]|e].
  - destruct (requests_get (world (checked url depth s cache w evs)) url)
      as [resp w2].
    simpl fst. simpl snd.
    change (link_limit (self (checked url depth s cache w evs)))
      with (link_limit (self s)).
    destruct (page_of (link_limit (self s)) url resp) as [page|] eqn:Hpage.
    + unfold data_of. rewrite dict_get_single, enqueue_links_spec.
      apply (pass_page netloc_ok markup_ok parse_html can_fetch url depth rest s res
               cache w evs resp w2 page); assumption.
    + apply (pass_no_page netloc_ok markup_ok parse_html can_fetch url depth rest s res
               cache w evs resp w2); assumption.
  - now apply pass_denied.
  - apply pass_raised; try assumption.
    now apply (is_allowed_raises _ _ _ _ Hal).
Qed.
(** ** The loop *)

(** A property of the loop state that every pass keeps holds when the
    loop ends. *)
Lemma crawl_loop_invariant (I : loop_state -> Prop) (Q : outcome -> Prop) :
  (forall st, I st -> queue st = [] -> Q (Returned (results st) (sess st))) ->
  (forall st url depth rest out,
      I st -> queue st = (url, depth) :: rest ->
      pass netloc_ok markup_ok parse_html can_fetch url depth rest (sess st) (results st) out ->
      match out with
      | (Ok st', _) => I st'
      | (Raise e, s') => Q (Raised e s')
      end) ->
  forall fuel st, I st -> crawl_loop fuel st <> OutOfFuel ->
                  Q (crawl_loop fuel st).
Proof.
  intros Hend Hstep. induction fuel as [|fuel IH]; intros st HI Hfuel.
  - now destruct Hfuel.
  - simpl in *. destruct (queue st) as [|[url depth] rest] eqn:Hq.
    + now apply Hend.
    + pose proof (Hstep st url depth rest _ HI Hq
                    (loop_body_pass url depth rest (sess st) (results st))) as H.
      destruct (loop_body url depth rest (sess st) (results st)) as [[st'|e] s'].
      * now apply IH.
      * exact H.
Qed.

(** More fuel does not change how a crawl ends. *)
Lemma crawl_loop_more_fuel fuel fuel' st :
  (fuel <= fuel')%nat -> crawl_loop fuel st <> OutOfFuel ->
  crawl_loop fuel' st = crawl_loop fuel st.
Proof.
  revert fuel' st; induction fuel as [|fuel IH]; intros fuel' st Hle Hne.
  - now destruct Hne.
  - destruct fuel' as [|fuel']; [lia|]. simpl in *.
    destruct (queue st) as [|[url depth] rest]; [reflexivity|].
    destruct (loop_body url depth rest (sess st) (results st)) as [[st'|e] s'];
      [|reflexivity].
    apply IH; [lia | exact Hne].
Qed.

Lemma terminates_pass st url depth rest :
  queue st = (url, depth) :: rest ->
  match loop_body url depth rest (sess st) (results st) with
  | (Ok st', _) => terminates st'
  | (Raise _, _) => True
  end ->
  terminates st.
Proof.
  intros Hq H.
  destruct (loop_body url depth rest (sess st) (results st)) as [[st'|e] s']
    eqn:Hb.
  - destruct H as [fuel Hf]. exists (S fuel). simpl. now rewrite Hq, Hb.
  - exists 1%nat. simpl. now rewrite Hq, Hb.
Qed.

Lemma terminates_levels (D : Z) (n : nat) :
  forall q1 q2 s res,
    crawl_depth (self s) = D ->
    List.Forall (fun x => (levels_left D x <= S n)%nat) q1 ->
    List.Forall (fun x => (levels_left D x <= n)%nat) q2 ->
    (forall q s' res',
        crawl_depth (self s') = D ->
        List.Forall (fun x => (levels_left D x <= n)%nat) q ->
        terminates (mkLoop s' res' q)) ->
    terminates (mkLoop s res (q1 ++ q2)).
Proof.
  induction q1 as [|[url depth] q1 IH]; intros q2 s res HD H1 H2 Hn.
  - now apply Hn.
  - apply (terminates_pass _ url depth (q1 ++ q2)); [reflexivity|]. simpl.
    inversion H1 as [|x l Hx H1']; subst. unfold levels_left in Hx; simpl in Hx.
    destruct (loop_body_pass url depth (q1 ++ q2) s res)
      as [Hskip|cache w evs e|cache w evs|cache w evs r w2|cache w evs r w2 page];
      try exact I.
    + now apply IH.
    + now apply IH.
    + now apply IH.
    + rewrite <- app_assoc. apply IH; try assumption; [reflexivity|].
      apply List.Forall_app. split; [exact H2|].
      apply List.Forall_forall. intros [l d] Hin.
      apply in_map_iff in Hin as (l' & [= <- <-] & _).
      unfold levels_left; simpl. lia.
Qed.

Lemma terminates_below (D : Z) (n : nat) :
  forall q s res,
    crawl_depth (self s) = D ->
    List.Forall (fun x => (levels_left D x <= n)%nat) q ->
    terminates (mkLoop s res q).
Proof.
  induction n as [|n IHn]; intros q s res HD Hq.
  - induction q as [|[url depth] q IHq] in s, res, HD, Hq |- *.
    + exists 1%nat. discriminate.
    + apply (terminates_pass _ url depth q); [reflexivity|]. simpl.
      inversion Hq as [|x l Hx Hq']; subst.
      unfold levels_left in Hx; simpl in Hx.
      destruct (loop_body_pass url depth q s res)
        as [Hskip|cache w evs e|cache w evs|cache w evs r w2|cache w evs r w2 page];
        try exact I; try (now apply IHq); lia.
  - rewrite <- (app_nil_r q).
    apply (terminates_levels D n); auto.
Qed.

(** The loop ends, whatever the network answers. *)
Lemma crawl_loop_terminates st : terminates st.
Proof.
  destruct st as [s res q].
  set (D := crawl_depth (self s)).
  set (n := list_max (List.map (levels_left D) q)).
  apply (terminates_below D n); [reflexivity|].
  apply List.Forall_forall. intros x Hx.
  assert (H : List.Forall (fun k => (k <= n)%nat) (List.map (levels_left D) q)).
  { apply list_max_le. reflexivity. }
  apply (proj1 (List.Forall_forall _ _) H). now apply in_map.
Qed.

(** A crawl ends, and what holds of every pass holds of its outcome. *)
Lemma crawl_outcome (I : loop_state -> Prop) (Q : outcome -> Prop)
    c w seed_url :
  I (mkLoop (mkSession (set_visited ∅ c) w []) [] [(seed_url, 0)]) ->
  (forall st, I st -> queue st = [] -> Q (Returned (results st) (sess st))) ->
  (forall st url depth rest out,
      I st -> queue st = (url, depth) :: rest ->
      pass netloc_ok markup_ok parse_html can_fetch url depth rest (sess st) (results st) out ->
      match out with
      | (Ok st', _) => I st'
      | (Raise e, s') => Q (Raised e s')
      end) ->
  exists fuel,
    crawl fuel c w seed_url <> OutOfFuel /\ Q (crawl fuel c w seed_url).
Proof.
  intros Hinit Hend Hstep.
  destruct (crawl_loop_terminates
              (mkLoop (mkSession (set_visited ∅ c) w []) [] [(seed_url, 0)]))
    as [fuel Hfuel].
  exists fuel. split; [exact Hfuel|].
  now apply (crawl_loop_invariant I Q Hend Hstep).
Qed.

(** ** Requests and the visited set *)

Lemma fetched_robots evs : robots_only evs -> fetched evs = [].
Proof.
  induction 1 as [|e evs He _ IH]; [reflexivity|].
  destruct e; try discriminate. exact IH.
Qed.

Lemma fetched_enqueue depth (new : list string) :
  fetched (List.map (fun l => EvEnqueue l (depth + 1)) new) = [].
Proof. induction new; [reflexivity | assumption]. Qed.

Lemma fetched_app tr1 tr2 : fetched (tr1 ++ tr2) = fetched tr1 ++ fetched tr2.
Proof. apply omap_app. Qed.

Lemma fetched_in u d r tr : In (EvGet u d r) tr -> In u (fetched tr).
Proof.
  intros H. apply list_elem_of_In, list_elem_of_omap.
  exists (EvGet u d r). split; [now apply list_elem_of_In | reflexivity].
Qed.

Lemma fetched_none tr pre u d r post :
  fetched tr = [] -> tr <> pre ++ EvGet u d r :: post.
Proof.
  intros Hf ->. rewrite fetched_app in Hf. simpl in Hf.
  now destruct (fetched pre).
Qed.

(** Appending events keeps the order of marks and requests when each new
    request has its mark before it. *)
Lemma visited_first_app tr evs :
  visited_first tr ->
  (forall pre u d r post,
      evs = pre ++ EvGet u d r :: post -> In (EvVisited u d) (tr ++ pre)) ->
  visited_first (tr ++ evs).
Proof.
  intros Htr Hevs pre u d r post Heq.
  apply app_eq_app in Heq as [l [[-> Hl]|[-> Hl]]].
  - destruct l as [|e l]; simpl in Hl.
    + specialize (Hevs [] u d r post (eq_sym Hl)).
      now rewrite !app_nil_r in Hevs.
    + injection Hl as <- ->.
      apply (Htr pre u d r l). reflexivity.
  - now apply (Hevs l u d r post).
Qed.

Lemma visited_first_quiet tr evs :
  visited_first tr -> fetched evs = [] -> visited_first (tr ++ evs).
Proof.
  intros Htr Hq. apply visited_first_app; [exact Htr|].
  intros pre u d r post Heq. now destruct (fetched_none evs pre u d r post Hq).
Qed.

(** A pass that marks [url] and then requests nothing but [url] keeps the
    order. *)
Lemma visited_first_pass tr url depth tail :
  visited_first tr ->
  (forall u d r, In (EvGet u d r) tail -> u = url /\ d = depth) ->
  visited_first (tr ++ EvDequeue url depth :: EvVisited url depth :: tail).
Proof.
  intros Htr Htail. apply visited_first_app; [exact Htr|].
  intros pre u d r post Heq.
  destruct pre as [|a [|b pre]]; simpl in Heq; try discriminate.
  injection Heq as <- <- Heq.
  destruct (Htail u d r) as [-> ->].
  { rewrite Heq. apply in_or_app. right. now left. }
  apply in_or_app. right. right. now left.
Qed.

Lemma new_links_fresh visited ls l :
  In l (new_links visited ls) -> In l ls /\ l ∉ visited.
Proof.
  unfold new_links. rewrite filter_In. intros [Hin Hb]. split; [exact Hin|].
  apply negb_true_iff, bool_decide_eq_false in Hb. exact Hb.
Qed.

Lemma fetched_quiet tr evs :
  fetched evs = [] -> fetched (tr ++ evs) = fetched tr.
Proof. intros H. now rewrite fetched_app, H, app_nil_r. Qed.

Lemma fetched_checked url depth s cache w evs :
  robots_only evs ->
  fetched (trace (checked url depth s cache w evs)) = fetched (trace s).
Proof.
  intros Hev. unfold checked; simpl. apply fetched_quiet.
  simpl. now apply fetched_robots.
Qed.

Lemma fetched_requested url depth r w2 s :
  fetched (trace (requested url depth r w2 s)) = fetched (trace s) ++ [url].
Proof. unfold requested; simpl. now rewrite fetched_app. Qed.

Lemma fetched_enqueued depth new s :
  fetched (trace (enqueued depth new s)) = fetched (trace s).
Proof. unfold enqueued; simpl. apply fetched_quiet, fetched_enqueue. Qed.

Lemma NoDup_snoc_fresh (l : list string) (x : string) :
  NoDup l -> ~ In x l -> NoDup (l ++ [x]).
Proof.
  intros Hl Hx. apply NoDup_app. split; [exact Hl|]. split.
  - intros y Hy Hy'. apply list_elem_of_In in Hy.
    apply list_elem_of_In in Hy'. destruct Hy' as [<-|[]]. auto.
  - apply NoDup_singleton.
Qed.

(** Every pass keeps [inv_fetch]. *)
Lemma inv_fetch_pass st url depth rest out :
  inv_fetch st ->
  pass netloc_ok markup_ok parse_html can_fetch url depth rest (sess st) (results st) out ->
  match out with
  | (Ok st', s') => inv_fetch st' /\ sess st' = s'
  | (Raise _, s') => NoDup (fetched (trace s')) /\ visited_first (trace s')
  end.
Proof.
  intros [Hnd Hmk Hord] Hpass.
  destruct Hpass
    as [Hskip|cache w evs e Hv Hd Hev Hby|cache w evs Hv Hd Hev
        |cache w evs r w2 Hv Hd Hev Hpage s2
        |cache w evs r w2 page Hv Hd Hev Hpage new s3].
  - split; [|reflexivity]. constructor; simpl.
    + now rewrite fetched_quiet.
    + now rewrite fetched_quiet.
    + now apply visited_first_quiet.
  - pose proof (fetched_robots evs Hev) as Hq. split.
    + now rewrite fetched_checked.
    + apply visited_first_quiet; [exact Hord|]. simpl. exact Hq.
  - pose proof (fetched_robots evs Hev) as Hq.
    split; [|reflexivity]. constructor.
    + simpl sess. now rewrite fetched_checked.
    + simpl sess. rewrite fetched_checked by assumption.
      intros u Hu. simpl. apply elem_of_union_r. now apply Hmk.
    + apply visited_first_quiet; [exact Hord|]. simpl. exact Hq.
  - pose proof (fetched_robots evs Hev) as Hq.
    assert (Hfresh : ~ In url (fetched (trace (sess st)))).
    { intros Hin. apply Hv. now apply Hmk. }
    split; [|reflexivity]. subst s2. constructor; simpl sess.
    + rewrite fetched_requested, fetched_checked by assumption.
      now apply NoDup_snoc_fresh.
    + rewrite fetched_requested, fetched_checked by assumption.
      intros u Hu. simpl. apply in_app_or in Hu as [Hu|[<-|[]]].
      * apply elem_of_union_r. now apply Hmk.
      * apply elem_of_union_l, elem_of_singleton. reflexivity.
    + unfold requested, checked; simpl. rewrite <- !app_assoc. simpl.
      apply visited_first_pass; [exact Hord|].
      intros u d r' Hin. apply in_app_or in Hin as [Hin|[[= -> -> _]|[]]];
        [|now split].
      apply (proj1 (List.Forall_forall _ _) Hev) in Hin. discriminate.
  - pose proof (fetched_robots evs Hev) as Hq.
    assert (Hfresh : ~ In url (fetched (trace (sess st)))).
    { intros Hin. apply Hv. now apply Hmk. }
    split; [|reflexivity]. subst s3. constructor; simpl sess.
    + rewrite fetched_enqueued, fetched_requested, fetched_checked
        by assumption.
      now apply NoDup_snoc_fresh.
    + rewrite fetched_enqueued, fetched_requested, fetched_checked
        by assumption.
      intros u Hu. simpl. apply in_app_or in Hu as [Hu|[<-|[]]].
      * apply elem_of_union_r. now apply Hmk.
      * apply elem_of_union_l, elem_of_singleton. reflexivity.
    + unfold enqueued, requested, checked; simpl.
      rewrite <- !app_assoc. simpl.
      apply visited_first_pass; [exact Hord|].
      intros u d r' Hin. apply in_app_or in Hin as [Hin|[[= -> -> _]|Hin]];
        [|now split|].
      * apply (proj1 (List.Forall_forall _ _) Hev) in Hin. discriminate.
      * apply in_map_iff in Hin as (l & Hl & _). discriminate.
Qed.
(** ** Requests come after the mark *)

Lemma marked_before_network_app tr evs :
  marked_before_network tr ->
  (forall a e b, evs = a ++ e :: b -> is_network e = true ->
                 after_mark (tr ++ a) e) ->
  marked_before_network (tr ++ evs).
Proof.
  intros Htr Hevs pre e post Heq Hnet.
  apply app_eq_app in Heq as [l [[-> Hl]|[-> Hl]]].
  - destruct l as [|x l]; simpl in Hl.
    + specialize (Hevs [] e post (eq_sym Hl) Hnet).
      now rewrite !app_nil_r in *.
    + injection Hl as <- ->. now apply (Htr pre e l).
  - now apply (Hevs l e post).
Qed.

Lemma request_first_nil url depth : request_first url depth [].
Proof. intros a e b H. now destruct a. Qed.

Lemma request_first_get url depth r (new : list string) :
  request_first url depth
    (EvGet url depth r :: List.map (fun l => EvEnqueue l (depth + 1)) new).
Proof.
  intros a e b H Hnet. destruct a as [|x a]; simpl in H.
  - injection H as <- _. split; [reflexivity | now exists r].
  - injection H as _ H.
    assert (Hin : In e (List.map (fun l => EvEnqueue l (depth + 1)) new)).
    { rewrite H. apply in_or_app. right. now left. }
    apply in_map_iff in Hin as (l & <- & _). discriminate.
Qed.

(** The requests of a pass: reads of robots.txt, then at most the request
    for the page. *)
Lemma block_requests url depth evs tail a e b :
  robots_only evs -> request_first url depth tail ->
  evs ++ tail = a ++ e :: b -> is_network e = true ->
  robots_only a /\ forall u' d' r, e = EvGet u' d' r -> u' = url /\ d' = depth.
Proof.
  intros Hev Htail. revert a.
  induction Hev as [|x evs Hx Hev IH]; intros a Heq Hnet; simpl in Heq.
  - destruct (Htail a e b Heq Hnet) as [-> [r ->]].
    split; [constructor|]. intros u' d' r' [= <- <- _]. now split.
  - destruct a as [|y a]; simpl in Heq; injection Heq as <- Heq.
    + split; [constructor|]. intros u' d' r ->. discriminate.
    + destruct (IH a Heq Hnet) as [Ha He].
      split; [now constructor | exact He].
Qed.

Lemma marked_before_network_pass tr url depth evs tail :
  marked_before_network tr ->
  robots_only evs -> request_first url depth tail ->
  marked_before_network
    (tr ++ EvDequeue url depth :: EvVisited url depth :: evs ++ tail).
Proof.
  intros Htr Hev Htail. apply marked_before_network_app; [exact Htr|].
  intros a e b Heq Hnet.
  destruct a as [|x [|y a]]; simpl in Heq.
  - injection Heq as <- _. discriminate.
  - injection Heq as _ <- _. discriminate.
  - injection Heq as <- <- Heq.
    destruct (block_requests url depth evs tail a e b Hev Htail Heq Hnet)
      as [Ha He].
    exists (tr ++ [EvDequeue url depth]), url, depth, a.
    split; [now rewrite <- app_assoc|]. now split.
Qed.

(** The trace of a pass: the dequeue alone, or the dequeue, the mark, the
    reads of robots.txt and then at most one request, for the page. *)
Lemma pass_block url depth rest s res out :
  pass netloc_ok markup_ok parse_html can_fetch url depth rest s res out ->
  trace (snd out) = trace s ++ [EvDequeue url depth]
  \/ exists evs tail,
       robots_only evs /\ request_first url depth tail
       /\ trace (snd out)
          = trace s ++ EvDequeue url depth :: EvVisited url depth
                       :: evs ++ tail.
Proof.
  intros Hpass.
  destruct Hpass
    as [Hskip|cache w evs e Hv Hd Hev Hby|cache w evs Hv Hd Hev
        |cache w evs r w2 Hv Hd Hev Hpage s2
        |cache w evs r w2 page Hv Hd Hev Hpage new s3].
  - now left.
  - right. exists evs, []. split; [exact Hev|].
    split; [apply request_first_nil|]. simpl. now rewrite app_nil_r.
  - right. exists evs, []. split; [exact Hev|].
    split; [apply request_first_nil|]. simpl. now rewrite app_nil_r.
  - right. exists evs, [EvGet url depth r]. split; [exact Hev|].
    split; [apply (request_first_get url depth r [])|].
    subst s2. simpl. now rewrite <- app_assoc.
  - right. exists evs, (EvGet url depth r
                        :: List.map (fun l => EvEnqueue l (depth + 1)) new).
    split; [exact Hev|]. split; [apply request_first_get|].
    subst s3. simpl. now rewrite <- !app_assoc.
Qed.

Lemma marked_before_network_step url depth rest s res out :
  marked_before_network (trace s) ->
  pass netloc_ok markup_ok parse_html can_fetch url depth rest s res out ->
  marked_before_network (trace (snd out)).
Proof.
  intros Htr Hpass.
  destruct (pass_block _ _ _ _ _ _ Hpass)
    as [->|(evs & tail & Hev & Htail & ->)].
  - apply marked_before_network_app; [exact Htr|].
    intros a e b Heq Hnet. destruct a as [|x [|y a]]; simpl in Heq;
      try discriminate.
    injection Heq as <- _. discriminate.
  - now apply marked_before_network_pass.
Qed.

Lemma inv_fetch_init c w seed_url :
  inv_fetch (mkLoop (mkSession (set_visited ∅ c) w []) [] [(seed_url, 0)]).
Proof.
  constructor; simpl.
  - apply NoDup_nil_2.
  - intros u [].
  - intros pre u d r post H. now destruct pre.
Qed.

(** C1.  Every call of [crawl] ends, and in its course no address is
    requested twice.  Each request for an address comes after the address
    was added to the visited set; and more precisely every request to the
    network, for robots.txt or for a page, directly follows the addition
    of the address it is made for, with only reads of robots.txt in
    between. *)
Theorem visited_once c w seed_url :
  exists fuel,
    match crawl fuel c w seed_url with
    | OutOfFuel => False
    | Returned _ s | Raised _ s =>
        NoDup (fetched (trace s))
        /\ visited_first (trace s)
        /\ marked_before_network (trace s)
    end.
Proof.
  destruct (crawl_outcome
              (fun st => inv_fetch st
                         /\ marked_before_network (trace (sess st)))
              (fun o => match o with
                        | OutOfFuel => False
                        | Returned _ s | Raised _ s =>
                            NoDup (fetched (trace s))
                            /\ visited_first (trace s)
                            /\ marked_before_network (trace s)
                        end)
              c w seed_url) as [fuel [_ H]].
  - split; [apply inv_fetch_init|].
    intros pre e post Heq. now destruct pre.
  - intros st [[Hnd _ Hord] Hnet] _. now repeat split.
  - intros st url depth rest out [HI Hnet] _ Hpass.
    pose proof (inv_fetch_pass st url depth rest out HI Hpass) as H.
    pose proof (marked_before_network_step _ _ _ _ _ _ Hnet Hpass) as H'.
    destruct out as [[st'|e] s']; simpl in H'.
    + destruct H as [H <-]. now split.
    + destruct H as [H1 H2]. now repeat split.
  - now exists fuel.
Qed.

(** ** Where the pages of the result come from *)

Lemma dict_get_set {V} (d : Dict.t V) (k k' : string) (v : V) :
  Dict.get (Dict.set d k v) k'
  = if String.eqb k k' then Some v else Dict.get d k'.
Proof.
  induction d as [|[k0 v0] d IH]; simpl.
  - reflexivity.
  - destruct (String.eqb_spec k0 k) as [->|Hne]; simpl.
    + destruct (String.eqb k k'); reflexivity.
    + rewrite IH. destruct (String.eqb_spec k0 k') as [->|Hne'];
        [|reflexivity].
      destruct (String.eqb_spec k k') as [->|_]; [now destruct Hne|reflexivity].
Qed.

Lemma page_of_some limit url r page :
  page_of limit url r = Some page ->
  exists text, r = Response 200 text
               /\ extract_content limit url text = Ok page.
Proof.
  unfold page_of. destruct r as [code text|]; [|discriminate].
  destruct (Z.eqb_spec code 200) as [->|_]; [|discriminate].
  destruct (extract_content limit url text) as [data|e] eqn:Hx;
    [|discriminate].
  intros [= <-]. now exists text.
Qed.

Lemma page_of_none limit url r :
  page_of limit url r = None <-> fetch_fails netloc_ok markup_ok parse_html limit url r.
Proof.
  unfold page_of, fetch_fails. destruct r as [code text|]; [|tauto].
  destruct (Z.eqb_spec code 200) as [->|Hne].
  - destruct (extract_content limit url text) as [data|e]; split.
    + discriminate.
    + intros [H|[e H]]; [now destruct H | discriminate].
    + intros _. right. now exists e.
    + reflexivity.
  - split; [now left | reflexivity].
Qed.

(** Every pass keeps [inv_origin]. *)
Lemma inv_origin_pass limit st url depth rest out :
  inv_origin netloc_ok markup_ok parse_html limit st ->
  pass netloc_ok markup_ok parse_html can_fetch url depth rest (sess st) (results st) out ->
  match out with
  | (Ok st', _) => inv_origin netloc_ok markup_ok parse_html limit st'
  | (Raise _, _) => True
  end.
Proof.
  intros [Hlim Horg] Hpass.
  assert (Hold : forall tail u page,
             Dict.get (results st) u = Some page ->
             exists d text,
               In (EvGet u d (Response 200 text)) (trace (sess st) ++ tail)
               /\ extract_content limit u text = Ok page).
  { intros tail u page Hu. destruct (Horg u page Hu) as (d & text & Hin & Hx).
    exists d, text. split; [|exact Hx]. apply in_or_app. now left. }
  destruct Hpass
    as [Hskip|cache w evs e Hv Hd Hev Hby|cache w evs Hv Hd Hev
        |cache w evs r w2 Hv Hd Hev Hpage s2
        |cache w evs r w2 page Hv Hd Hev Hpage new s3];
    try exact I.
  - constructor; simpl; [exact Hlim | apply Hold].
  - constructor; simpl; [exact Hlim | apply Hold].
  - subst s2. constructor; simpl; [exact Hlim|].
    rewrite <- app_assoc. apply Hold.
  - subst s3. constructor; simpl; [exact Hlim|].
    intros u pg. rewrite dict_get_set.
    destruct (String.eqb_spec url u) as [<-|Hne].
    + intros [= <-]. rewrite Hlim in Hpage.
      apply page_of_some in Hpage as (text & -> & Hx).
      exists depth, text. split; [|exact Hx].
      apply in_or_app. left. apply in_or_app. right. now left.
    + rewrite <- !app_assoc. apply Hold.
Qed.

Lemma inv_origin_init c w seed_url :
  inv_origin netloc_ok markup_ok parse_html (link_limit c)
    (mkLoop (mkSession (set_visited ∅ c) w []) [] [(seed_url, 0)]).
Proof. constructor; simpl; [reflexivity | discriminate]. Qed.

(** ** Addresses in the queue *)

Lemma page_links_parse limit url r page :
  page_of limit url r = Some page ->
  List.Forall (fun l => is_ok (urlparse l) = true) (links page).
Proof.
  intros H. apply page_of_some in H as (text & _ & Hx).
  now apply (extract_content_links_parse netloc_ok markup_ok parse_html limit url text).
Qed.

(** ** Failed requests *)


(** ** The queue is served in order, whatever fails *)














(** C7.  With a link limit of at least 1 given to the constructor, the
    links of every page of the result are the first [link_limit]
    qualifying links of the document that was fetched, in the order of
    the document, where [link_limit] is the limit the mode resolves to;
    so they are at most that many. *)
Theorem links_are_first_qualifying respect max_depth limit mode w seed_url
    (Hlimit : 1 <= limit) :
  let c := init respect max_depth limit mode in
  link_limit c
    = (if String.eqb mode "exploratory" then Z.min (limit * 2) 20 else limit)
  /\ exists fuel,
    match crawl fuel c w seed_url with
    | OutOfFuel => False
    | Returned res s =>
        forall u page,
          Dict.get res u = Some page ->
          exists d text,
            In (EvGet u d (Response 200 text)) (trace s)
            /\ links page
               = firstn (Z.to_nat (link_limit c))
                   (qualifying_links u (parse_html text))
            /\ Z.of_nat (length (links page)) <= link_limit c
    | Raised _ _ => True
    end.
Proof.
  intros c.
  assert (Hval : link_limit c
                 = (if String.eqb mode "exploratory"
                    then Z.min (limit * 2) 20 else limit)).
  { subst c. unfold init.
    destruct (String.eqb mode "exploratory"); [reflexivity|].
    destruct (String.eqb mode "deep_dive"); [reflexivity|].
    destruct (String.eqb mode "stealth"); reflexivity. }
  assert (Hpos : 0 <= link_limit c).
  { rewrite Hval. destruct (String.eqb mode "exploratory"); lia. }
  split; [exact Hval|].
  destruct (crawl_outcome
              (inv_origin netloc_ok markup_ok parse_html (link_limit c))
              (fun o => match o with
                        | OutOfFuel => False
                        | Returned res s =>
                            forall u page,
                              Dict.get res u = Some page ->
                              exists d text,
                                In (EvGet u d (Response 200 text)) (trace s)
                                /\ links page
                                   = firstn (Z.to_nat (link_limit c))
                                       (qualifying_links u (parse_html text))
                                /\ Z.of_nat (length (links page)) <= link_limit c
                        | Raised _ _ => True
                        end)
              c w seed_url) as [fuel [_ H]].
  - apply inv_origin_init.
  - intros st [_ Horg] _ u page Hu.
    destruct (Horg u page Hu) as (d & text & Hin & Hx).
    exists d, text. split; [exact Hin|].
    apply extract_content_links in Hx.
    rewrite slice_to_nonneg in Hx by exact Hpos.
    split; [exact Hx|]. rewrite Hx, length_firstn. lia.
  - intros st url depth rest out Ho _ Hpass.
    pose proof (inv_origin_pass _ st url depth rest out Ho Hpass) as H.
    destruct out as [[st'|e] s']; [exact H | exact I].
  - now exists fuel.
Qed.

(** ** Paths of links *)

Lemma dict_keys_get {V} (d : Dict.t V) (k : string) :
  In k (Dict.keys d) <-> exists v, Dict.get d k = Some v.
Proof.
  induction d as [|[k0 v0] d IH]; simpl.
  - split; [intros [] | intros [v Hv]; discriminate].
  - destruct (String.eqb_spec k0 k) as [->|Hne].
    + split; [intros _; now exists v0 | intros _; now left].
    + rewrite <- IH. split; [intros [H|H]; [now destruct Hne | exact H] | now right].
Qed.

Lemma link_path_set res seed url page n u :
  Dict.get res url = None ->
  link_path res seed n u ->
  link_path (Dict.set res url page) seed n u.
Proof.
  intros Hfresh. induction 1 as [|n u pg v _ IH Hu Hv].
  - constructor.
  - apply (path_link _ _ n u pg v); [exact IH | | exact Hv].
    rewrite dict_get_set.
    destruct (String.eqb_spec url u) as [->|_]; [congruence | exact Hu].
Qed.

(** A key of the result is an address in the visited set. *)
Lemma result_keys_visited limit st u page :
  inv_fetch st -> inv_origin netloc_ok markup_ok parse_html limit st ->
  Dict.get (results st) u = Some page ->
  u ∈ visited_urls (self (sess st)).
Proof.
  intros [_ Hmk _] [_ Horg] Hu.
  destruct (Horg u page Hu) as (d & text & Hin & _).
  apply Hmk. now apply (fetched_in u d (Response 200 text)).
Qed.

(** Every pass keeps [inv_paths]. *)
Lemma inv_paths_pass seed D limit st url depth rest out :
  inv_paths seed D st ->
  inv_fetch st -> inv_origin netloc_ok markup_ok parse_html limit st ->
  queue st = (url, depth) :: rest ->
  pass netloc_ok markup_ok parse_html can_fetch url depth rest (sess st) (results st) out ->
  match out with
  | (Ok st', _) => inv_paths seed D st'
  | (Raise _, _) => True
  end.
Proof.
  intros [HD Hqueue Hres] Hf Ho Hq Hpass.
  assert (Hrest : forall u d, In (u, d) rest ->
              0 <= d /\ link_path (results st) seed (Z.to_nat d) u).
  { intros u d Hin. apply Hqueue. rewrite Hq. now right. }
  destruct (Hqueue url depth) as [Hd0 Hpath]; [rewrite Hq; now left|].
  destruct Hpass
    as [Hskip|cache w evs e Hv Hd Hev Hby|cache w evs Hv Hd Hev
        |cache w evs r w2 Hv Hd Hev Hpage s2
        |cache w evs r w2 page Hv Hd Hev Hpage new s3];
    try exact I; try (constructor; simpl; assumption).
  assert (Hfresh : Dict.get (results st) url = None).
  { destruct (Dict.get (results st) url) as [pg|] eqn:Hu; [|reflexivity].
    destruct Hv. now apply (result_keys_visited limit st url pg). }
  assert (Hhere : link_path (Dict.set (results st) url page) seed
                    (Z.to_nat depth) url).
  { now apply link_path_set. }
  constructor; simpl.
  - exact HD.
  - intros u d Hin. apply in_app_or in Hin as [Hin|Hin].
    + destruct (Hrest u d Hin) as [H0 Hp]. split; [exact H0|].
      now apply link_path_set.
    + apply in_map_iff in Hin as (l & [= <- <-] & Hl).
      apply new_links_fresh in Hl as [Hl _]. split; [lia|].
      replace (Z.to_nat (depth + 1)) with (S (Z.to_nat depth)) by lia.
      apply (path_link _ _ _ url page l); [exact Hhere | | exact Hl].
      rewrite dict_get_set. now rewrite String.eqb_refl.
  - intros u pg. rewrite dict_get_set.
    destruct (String.eqb_spec url u) as [<-|_].
    + intros _. exists (Z.to_nat depth). split; [lia | exact Hhere].
    + intros Hu. destruct (Hres u pg Hu) as (n & Hn & Hp).
      exists n. split; [exact Hn|]. now apply link_path_set.
Qed.

Lemma inv_paths_init c w seed_url :
  inv_paths seed_url (crawl_depth c)
    (mkLoop (mkSession (set_visited ∅ c) w []) [] [(seed_url, 0)]).
Proof.
  constructor; simpl.
  - reflexivity.
  - intros u d [[= <- <-]|[]]. split; [lia | constructor].
  - discriminate.
Qed.

(** C2.  Every call of [crawl] ends, and every key of the result it
    returns is at the end of a path of links that starts at the seed, goes
    through pages of the result, and has at most [crawl_depth] links,
    where [crawl_depth] is the depth the mode resolves to. *)
Theorem depth_bound c w seed_url :
  (forall respect max_depth limit mode,
      crawl_depth (init (Rules := Rules) respect max_depth limit mode)
      = if String.eqb mode "deep_dive" then Z.min (max_depth + 2) 10
        else max_depth)
  /\ exists fuel,
    match crawl fuel c w seed_url with
    | OutOfFuel => False
    | Returned res s =>
        forall u, In u (Dict.keys res) ->
                  exists n, Z.of_nat n <= crawl_depth c
                            /\ link_path res seed_url n u
    | Raised _ _ => True
    end.
Proof.
  split.
  { intros respect max_depth limit mode. unfold init.
    destruct (String.eqb_spec mode "exploratory") as [->|_]; [reflexivity|].
    destruct (String.eqb mode "deep_dive"); [reflexivity|].
    destruct (String.eqb mode "stealth"); reflexivity. }
  destruct (crawl_outcome
              (fun st => inv_fetch st
                         /\ inv_origin netloc_ok markup_ok parse_html (link_limit c) st
                         /\ inv_paths seed_url (crawl_depth c) st)
              (fun o => match o with
                        | OutOfFuel => False
                        | Returned res s =>
                            forall u, In u (Dict.keys res) ->
                              exists n, Z.of_nat n <= crawl_depth c
                                        /\ link_path res seed_url n u
                        | Raised _ _ => True
                        end)
              c w seed_url) as [fuel [_ H]].
  - split; [apply inv_fetch_init|].
    split; [apply inv_origin_init | apply inv_paths_init].
  - intros st (_ & _ & [_ _ Hres]) _ u Hu.
    apply dict_keys_get in Hu as [page Hu]. now apply (Hres u page).
  - intros st url depth rest out (Hf & Ho & Hp) Hq Hpass.
    pose proof (inv_fetch_pass st url depth rest out Hf Hpass) as H1.
    pose proof (inv_origin_pass _ st url depth rest out Ho Hpass) as H2.
    pose proof (inv_paths_pass _ _ _ st url depth rest out Hp Hf Ho Hq Hpass)
      as H3.
    destruct out as [[st'|e] s']; [|exact I].
    split; [apply H1|]. now split.
  - now exists fuel.
Qed.

(** ** The order of the passes *)

Lemma depths_robots evs : robots_only evs -> omap pass_depth evs = [].
Proof.
  induction 1 as [|e evs He _ IH]; [reflexivity|].
  destruct e; try discriminate. exact IH.
Qed.

Lemma depths_enqueue depth (new : list string) :
  List.Forall (fun d => d = depth)
    (omap pass_depth (List.map (fun l => EvEnqueue l (depth + 1)) new)).
Proof.
  induction new as [|l new IH]; [constructor|].
  change (List.Forall (fun d => d = depth)
            ((depth + 1 - 1)
             :: omap pass_depth
                  (List.map (fun l => EvEnqueue l (depth + 1)) new))).
  constructor; [lia | exact IH].
Qed.

(** The events of a pass all belong to the depth of the item dequeued. *)
Lemma pass_trace url depth rest s res out :
  pass netloc_ok markup_ok parse_html can_fetch url depth rest s res out ->
  exists tail,
    trace (snd out) = trace s ++ tail
    /\ List.Forall (fun d => d = depth) (omap pass_depth tail).
Proof.
  intros Hpass.
  destruct Hpass
    as [Hskip|cache w evs e Hv Hd Hev Hby|cache w evs Hv Hd Hev
        |cache w evs r w2 Hv Hd Hev Hpage s2
        |cache w evs r w2 page Hv Hd Hev Hpage new s3].
  - exists [EvDequeue url depth]. split; [reflexivity|]. now repeat constructor.
  - eexists. split; [reflexivity|].
    change (List.Forall (fun d => d = depth)
              (depth :: depth :: omap pass_depth evs)).
    rewrite depths_robots by assumption. now repeat constructor.
  - eexists. split; [reflexivity|].
    change (List.Forall (fun d => d = depth)
              (depth :: depth :: omap pass_depth evs)).
    rewrite depths_robots by assumption. now repeat constructor.
  - subst s2. simpl. rewrite <- app_assoc. eexists. split; [reflexivity|].
    rewrite omap_app.
    change (List.Forall (fun d => d = depth)
              ((depth :: depth :: omap pass_depth evs) ++ [depth])).
    rewrite depths_robots by assumption. now repeat constructor.
  - subst s3. simpl. rewrite <- !app_assoc. eexists. split; [reflexivity|].
    rewrite !omap_app.
    change (List.Forall (fun d => d = depth)
              ((depth :: depth :: omap pass_depth evs)
               ++ [depth]
               ++ omap pass_depth
                    (List.map (fun l => EvEnqueue l (depth + 1)) new))).
    rewrite depths_robots by assumption. simpl.
    repeat (constructor; [reflexivity|]). apply depths_enqueue.
Qed.

(** A pass leaves the rest of the queue, followed by items one level
    deeper. *)
Lemma pass_queue url depth rest s res st' s' :
  pass netloc_ok markup_ok parse_html can_fetch url depth rest s res (Ok st', s') ->
  sess st' = s'
  /\ exists children,
       queue st' = rest ++ children
       /\ List.Forall (fun item => snd item = depth + 1) children.
Proof.
  intros Hpass. inversion Hpass; subst; (split; [reflexivity|]).
  1-3: exists []; rewrite app_nil_r; split; [reflexivity | constructor].
  eexists. split; [reflexivity|].
  apply List.Forall_forall. intros [l d] Hin.
  apply in_map_iff in Hin as (l' & [= <- <-] & _). reflexivity.
Qed.

Lemma sorted_constant (d : Z) (l : list Z) :
  List.Forall (fun x => x = d) l -> StronglySorted Z.le l.
Proof.
  induction 1 as [|x l -> Hl IH]; constructor; [exact IH|].
  apply List.Forall_forall. intros y Hy.
  rewrite (proj1 (List.Forall_forall _ _) Hl y Hy). lia.
Qed.

Lemma sorted_snoc_level (lo d : Z) (l tail : list Z) :
  StronglySorted Z.le l ->
  (forall x, In x l -> x <= lo) -> lo <= d ->
  List.Forall (fun x => x = d) tail ->
  StronglySorted Z.le (l ++ tail)
  /\ forall x, In x (l ++ tail) -> x <= d.
Proof.
  intros Hl Hlo Hd Htail. split.
  - apply StronglySorted_app. split; [|split].
    + intros x1 x2 H1 H2. apply list_elem_of_In in H1, H2.
      rewrite (proj1 (List.Forall_forall _ _) Htail x2 H2).
      specialize (Hlo x1 H1). lia.
    + exact Hl.
    + now apply (sorted_constant d).
  - intros x Hx. apply in_app_or in Hx as [Hx|Hx].
    + specialize (Hlo x Hx). lia.
    + rewrite (proj1 (List.Forall_forall _ _) Htail x Hx). lia.
Qed.

(** Every pass keeps [inv_order], and leaves a trace in order also when
    it raises. *)
Lemma inv_order_pass st url depth rest out :
  inv_order st ->
  queue st = (url, depth) :: rest ->
  pass netloc_ok markup_ok parse_html can_fetch url depth rest (sess st) (results st) out ->
  match out with
  | (Ok st', _) => inv_order st'
  | (Raise _, s') => StronglySorted Z.le (omap pass_depth (trace s'))
  end.
Proof.
  intros (lo & Hsorted & Hlo & Hqs & Hqb) Hq Hpass.
  rewrite Hq in Hqs, Hqb. simpl in Hqs, Hqb.
  apply StronglySorted_inv in Hqs as [Hqs Hhead].
  assert (Hd : lo <= depth <= lo + 1) by (apply Hqb; now left).
  destruct (pass_trace _ _ _ _ _ _ Hpass) as (tail & Htr & Htail).
  destruct (sorted_snoc_level lo depth _ _ Hsorted Hlo (proj1 Hd) Htail)
    as [Hs' Hlo'].
  rewrite <- omap_app, <- Htr in Hs', Hlo'.
  destruct out as [[st'|e] s']; [|exact Hs'].
  destruct (pass_queue _ _ _ _ _ _ _ Hpass) as (Hsess & children & Hq' & Hch).
  simpl in Htr, Hs', Hlo'. exists depth. rewrite Hsess, Hq'.
  split; [exact Hs'|]. split; [exact Hlo'|].
  rewrite map_app.
  assert (Hcd : List.Forall (fun x => x = depth + 1) (List.map snd children)).
  { apply List.Forall_forall. intros x Hx.
    apply in_map_iff in Hx as (item & <- & Hitem).
    now apply (proj1 (List.Forall_forall _ _) Hch). }
  assert (Hrb : forall x, In x (List.map snd rest) -> depth <= x <= lo + 1).
  { intros x Hx. split.
    - now apply (proj1 (List.Forall_forall _ _) Hhead).
    - apply Hqb. now right. }
  split.
  - apply StronglySorted_app. split; [|split].
    + intros x1 x2 H1 H2. apply list_elem_of_In in H1, H2.
      rewrite (proj1 (List.Forall_forall _ _) Hcd x2 H2).
      specialize (Hrb x1 H1). lia.
    + exact Hqs.
    + now apply (sorted_constant (depth + 1)).
  - intros x Hx. apply in_app_or in Hx as [Hx|Hx].
    + specialize (Hrb x Hx). lia.
    + rewrite (proj1 (List.Forall_forall _ _) Hcd x Hx). lia.
Qed.

Lemma inv_order_init c w seed_url :
  inv_order (mkLoop (mkSession (set_visited ∅ c) w []) [] [(seed_url, 0)]).
Proof.
  exists 0. simpl. split; [constructor|]. split; [intros d []|].
  split; [repeat constructor|]. intros d [<-|[]]. lia.
Qed.

(** In a list whose depths are in order, a later event is at least as
    deep as an earlier one. *)
Lemma sorted_depths_split tr pre e1 mid e2 post d1 d2 :
  StronglySorted Z.le (omap pass_depth tr) ->
  tr = pre ++ e1 :: mid ++ e2 :: post ->
  pass_depth e1 = Some d1 -> pass_depth e2 = Some d2 ->
  d1 <= d2.
Proof.
  intros Hs -> H1 H2.
  rewrite omap_app in Hs. apply StronglySorted_app_1_r in Hs.
  change (e1 :: mid ++ e2 :: post) with ([e1] ++ mid ++ [e2] ++ post) in Hs.
  rewrite !omap_app in Hs. simpl in Hs. rewrite H1, H2 in Hs. simpl in Hs.
  apply StronglySorted_inv in Hs as [_ Hall].
  apply (proj1 (List.Forall_forall _ _) Hall).
  apply in_or_app. right. now left.
Qed.

(** C6.  Every call of [crawl] ends, and the passes of its loop run in
    the order of their depths: of two events of the call (an address
    dequeued, marked visited or requested at some depth, or a link of a
    page of some depth enqueued), the later one belongs to a pass that is
    at least as deep.  So everything done for the addresses at depth d is
    done before an address at depth d+1 is dequeued. *)
Theorem breadth_first_order c w seed_url :
  exists fuel,
    match crawl fuel c w seed_url with
    | OutOfFuel => False
    | Returned _ s | Raised _ s =>
        forall pre e1 mid e2 post d1 d2,
          trace s = pre ++ e1 :: mid ++ e2 :: post ->
          pass_depth e1 = Some d1 -> pass_depth e2 = Some d2 ->
          d1 <= d2
    end.
Proof.
  destruct (crawl_outcome inv_order
              (fun o => match o with
                        | OutOfFuel => False
                        | Returned _ s | Raised _ s =>
                            StronglySorted Z.le (omap pass_depth (trace s))
                        end)
              c w seed_url) as [fuel [_ H]].
  - apply inv_order_init.
  - intros st (lo & Hs & _) _. exact Hs.
  - intros st url depth rest out HI Hq Hpass.
    exact (inv_order_pass st url depth rest out HI Hq Hpass).
  - exists fuel.
    destruct (crawl fuel c w seed_url) as [|res s|e s]; [exact H| |];
      intros pre e1 mid e2 post d1 d2;
      now apply sorted_depths_split.
Qed.

(** ** robots.txt *)

Lemma is_allowed_reads url s r s' :
  is_allowed url s = (r, s') ->
  (trace s' = trace s /\ robots_cache (self s') = robots_cache (self s))
  \/ exists b ok,
       robots_cache (self s) !! b = None
       /\ trace s' = trace s ++ [EvRobots b ok]
       /\ (ok = true -> is_Some (robots_cache (self s') !! b))
       /\ (forall b', is_Some (robots_cache (self s) !! b') ->
                      is_Some (robots_cache (self s') !! b')).
Proof.
  unfold is_allowed.
  destruct (negb _); [intros [= <- <-]; now left|].
  destruct (urlparse url) as [p|e]; [|intros [= <- <-]; now left].
  destruct (robots_cache (self s) !! base_url_of p) as [rp|] eqn:Hc;
    [intros [= <- <-]; now left|].
  destruct (urljoin (base_url_of p) "/robots.txt") as [ru|e];
    [|intros [= <- <-]; now left].
  destruct (robots_read (world s) ru) as [[rp|] w']; intros [= <- <-]; right.
  - exists (base_url_of p), true. split; [exact Hc|]. split; [reflexivity|].
    simpl. split.
    + intros _. rewrite lookup_insert_eq. now eexists.
    + intros b' Hb'. destruct (decide (base_url_of p = b')) as [<-|Hne].
      * rewrite lookup_insert_eq. now eexists.
      * now rewrite lookup_insert_ne.
  - exists (base_url_of p), false. split; [exact Hc|]. split; [reflexivity|].
    simpl. split; [discriminate | auto].
Qed.

Lemma read_once_snoc tr b ok :
  read_once tr -> ~ In (EvRobots b true) tr ->
  read_once (tr ++ [EvRobots b ok]).
Proof.
  intros Htr Hb pre b0 post Heq.
  destruct post as [|x post _] using rev_ind; [constructor|].
  rewrite app_comm_cons, app_assoc in Heq.
  apply app_inj_tail in Heq as [-> <-].
  apply List.Forall_app. split; [now apply (Htr pre b0 post)|].
  constructor; [|constructor]. intros ok' [= <- _].
  apply Hb. apply in_or_app. right. now left.
Qed.

(** The reads a sequence of calls makes, given the ones made before. *)
Lemma is_allowed_all_reads urls s :
  read_once (trace s) ->
  (forall b, In (EvRobots b true) (trace s) ->
             is_Some (robots_cache (self s) !! b)) ->
  read_once (trace (is_allowed_all netloc_ok robots_read can_fetch urls s)).
Proof.
  revert s; induction urls as [|url urls IH]; intros s Honce Hcached; simpl;
    [exact Honce|].
  destruct (is_allowed url s) as [r s'] eqn:Hal. simpl.
  apply is_allowed_reads in Hal
    as [[Htr Hc]|(b & ok & Hnone & Htr & Hok & Hmono)]; apply IH.
  - now rewrite Htr.
  - rewrite Htr, Hc. exact Hcached.
  - rewrite Htr. apply read_once_snoc; [exact Honce|].
    intros Hin. apply Hcached in Hin as [rp Hrp]. congruence.
  - rewrite Htr. intros b' Hin. apply in_app_or in Hin as [Hin|[[= <- Hk]|[]]].
    + now apply Hmono, Hcached.
    + now apply Hok.
Qed.

(** A call for an address whose base address has rules in the cache
    uses them and does nothing else. *)
Lemma is_allowed_cached url s p rp :
  respect_robots (self s) = true ->
  urlparse url = Ok p ->
  robots_cache (self s) !! base_url_of p = Some rp ->
  is_allowed url s = (can_fetch rp (user_agent (self s)) url, s).
Proof. unfold is_allowed. now intros -> -> ->. Qed.

(** A call for an address whose base address has no rules in the cache
    reads the robots.txt of that base address. *)
Lemma is_allowed_uncached url s p :
  respect_robots (self s) = true ->
  urlparse url = Ok p ->
  robots_cache (self s) !! base_url_of p = None ->
  exists robots_url,
    urljoin (base_url_of p) "/robots.txt" = Ok robots_url
    /\ is_allowed url s
       = match robots_read (world s) robots_url with
         | (Some rp, w') =>
             (can_fetch rp (user_agent (self s)) url,
              mkSession
                (set_cache (<[base_url_of p := rp]> (robots_cache (self s)))
                   (self s))
                w' (trace s ++ [EvRobots (base_url_of p) true]))
         | (None, w') =>
             (Ok true,
              mkSession (self s) w'
                (trace s ++ [EvRobots (base_url_of p) false]))
         end.
Proof.
  intros Hr Hp Hc.
  destruct (urljoin (base_url_of p) "/robots.txt") as [ru|e] eqn:Hj.
  - exists ru. split; [reflexivity|].
    unfold is_allowed. rewrite Hr, Hp, Hc, Hj. reflexivity.
  - exfalso. revert Hj. apply (robots_url_ok netloc_ok url p Hp).
Qed.

(** C4, as the code has it.  The cache is keyed by the base address of a
    URL, the string [scheme://netloc] with the network location as it is
    written in the URL.  In a sequence of calls of [is_allowed] on a
    crawler, once robots.txt was read for a base address without an
    exception, it is not read again for that base address.  A call for an
    address whose base address has rules in the cache uses them and reads
    nothing; a call for an address whose base address has none reads the
    robots.txt of that base address, and caches the rules if the read
    does not raise.  A read that raises caches nothing, so the next call
    for an address with the same base address reads robots.txt again. *)
Theorem robots_cached_after_read :
  (forall urls c w pre b post,
      trace (is_allowed_all netloc_ok robots_read can_fetch urls
               (mkSession c w []))
      = pre ++ EvRobots b true :: post ->
      List.Forall (fun e => forall ok, e <> EvRobots b ok) post)
  /\ (forall url s p rp,
         respect_robots (self s) = true ->
         urlparse url = Ok p ->
         robots_cache (self s) !! base_url_of p = Some rp ->
         is_allowed url s = (can_fetch rp (user_agent (self s)) url, s))
  /\ (forall url s p,
         respect_robots (self s) = true ->
         urlparse url = Ok p ->
         robots_cache (self s) !! base_url_of p = None ->
         exists robots_url,
           urljoin (base_url_of p) "/robots.txt" = Ok robots_url
           /\ is_allowed url s
              = match robots_read (world s) robots_url with
                | (Some rp, w') =>
                    (can_fetch rp (user_agent (self s)) url,
                     mkSession
                       (set_cache
                          (<[base_url_of p := rp]> (robots_cache (self s)))
                          (self s))
                       w' (trace s ++ [EvRobots (base_url_of p) true]))
                | (None, w') =>
                    (Ok true,
                     mkSession (self s) w'
                       (trace s ++ [EvRobots (base_url_of p) false]))
                end)
  /\ (forall url1 url2 s p1 p2 robots_url w1,
         respect_robots (self s) = true ->
         urlparse url1 = Ok p1 ->
         urlparse url2 = Ok p2 ->
         base_url_of p2 = base_url_of p1 ->
         robots_cache (self s) !! base_url_of p1 = None ->
         urljoin (base_url_of p1) "/robots.txt" = Ok robots_url ->
         robots_read (world s) robots_url = (None, w1) ->
         exists ok,
           trace (is_allowed_all netloc_ok robots_read can_fetch
                    [url1; url2] s)
           = trace s ++ [EvRobots (base_url_of p1) false;
                         EvRobots (base_url_of p1) ok]).
Proof.
  split; [|split; [|split]].
  - intros urls c w. apply (is_allowed_all_reads urls (mkSession c w [])).
    + intros pre' b' post' H. now destruct pre'.
    + intros b' [].
  - exact is_allowed_cached.
  - exact is_allowed_uncached.
  - intros url1 url2 s p1 p2 ru w1 Hr Hp1 Hp2 Hb Hc Hj Hread.
    cbn [is_allowed_all].
    destruct (is_allowed_uncached url1 s p1 Hr Hp1 Hc) as (ru1 & Hj1 & ->).
    assert (ru1 = ru) as -> by congruence.
    rewrite Hread. cbn [snd].
    destruct (is_allowed_uncached url2
                (mkSession (self s) w1
                   (trace s ++ [EvRobots (base_url_of p1) false])) p2)
      as (ru2 & Hj2 & ->); cbn [self]; try assumption.
    { now rewrite Hb. }
    cbn [world trace]. rewrite Hb.
    destruct (robots_read w1 ru2) as [[rp|] w2]; cbn [snd trace].
    + exists true. now rewrite <- app_assoc.
    + exists false. now rewrite <- app_assoc.
Qed.


End CrawlerFacts.

(** ** robots.txt that cannot be fetched *)

Section RobotsFacts.

Variable netloc_ok : string -> bool.
Context {World Entries : Type}.
Variable no_entries : Entries.
Variable urlopen : World -> string -> RobotParser.opened Entries * World.
Variable allowance : Entries -> string -> string -> result bool.

Local Abbreviation urlparse := (UrlLib.urlparse netloc_ok).
Local Abbreviation urljoin := (UrlLib.urljoin netloc_ok).
Local Abbreviation is_allowed :=
  (is_allowed netloc_ok (RobotParser.robots_read no_entries urlopen)
     (RobotParser.can_fetch allowance)).


End RobotsFacts.


(** ** The properties on the small site *)

(** C3.  [extract_content] raises on a document whose description [meta]
    tag has no [content] attribute: the lookup [tag['content']] is made for
    every such tag that is found, and it raises [KeyError] when the
    attribute is missing.  (The anchors, images, scripts and style sheets
    are searched with [href=True] or [src=True], so the same lookup cannot
    fail for them.) *)
Theorem extract_content_raises_without_meta_content :
  Site.parse_html "meta" = [Soup.Tag "meta" [("name", "description")] []]
  /\ extract_content Site.netloc_ok Site.markup_ok Site.parse_html 5 "https://ex.test/c" "meta"
     = Raise KeyError.
Proof. split; vm_compute; reflexivity. Qed.

(** C10.  The path of a parsed URL never holds [#], so the test
    ['#' not in parsed_link.path] is true of every link and the filter is
    the host test and the scheme test alone; the link of an anchor
    [href="page#section"] on a page of the same host is recorded with its
    fragment. *)
Theorem anchors_are_not_excluded :
  (forall url scheme0,
      PyStr.contains "#" (UrlLib.path (UrlLib.urlparse_parts url scheme0))
      = false)
  /\ (forall base_domain link,
         let p := UrlLib.urlparse_parts link EmptyString in
         keeps_link base_domain p
         = (String.eqb (UrlLib.netloc p) base_domain
            || PyStr.is_empty (UrlLib.netloc p))
           && PyStr.mem (UrlLib.scheme p) ["http"; "https"]%string)
  /\ Site.parse_html "fragment"
     = [Soup.Tag "a" [("href", "page#section")] []]
  /\ exists page,
       extract_content Site.netloc_ok Site.markup_ok Site.parse_html 5
         "https://ex.test/" "fragment" = Ok page
       /\ links page = ["https://ex.test/page#section"]%string.
Proof.
  split; [exact path_has_no_fragment_marker|].
  split; [exact keeps_link_ignores_fragment|].
  split; [reflexivity|].
  eexists. split; vm_compute; reflexivity.
Qed.

(** After a read of robots.txt that raised, the next call for the same
    base address reads it again. *)
Lemma robots_read_again_after_failure :
  trace (is_allowed_all Site.netloc_ok Site.robots_down Site.can_fetch
           ["https://ex.test/a"; "https://ex.test/b"]%string
           (Site.start (init true 3 5 "stealth")))
  = [EvRobots "https://ex.test" false; EvRobots "https://ex.test" false].
Proof. vm_compute. reflexivity. Qed.

Lemma robots_cached_after_read_witness :
  List.Forall (fun e => forall ok, e <> EvRobots "https://ex.test" ok)
    [EvRobots "https://four.test" true].
Proof.
  apply (proj1 (robots_cached_after_read Site.netloc_ok Site.robots_up
                  Site.can_fetch)
           ["https://ex.test/a"; "https://four.test/"; "https://ex.test/b"]%string
           (init true 3 5 "stealth") tt []).
  vm_compute. reflexivity.
Defined.

(** Four spellings of one origin are four base addresses: robots.txt is
    read for each of them. *)
Lemma robots_read_per_spelling :
  trace (is_allowed_all Site.netloc_ok Site.robots_up Site.can_fetch
           ["https://ex.test/a"; "https://ex.test/b"; "https://EX.test/a";
            "https://ex.test:443/a"; "https://u@ex.test/a"]%string
           (Site.start (init true 3 5 "stealth")))
  = [EvRobots "https://ex.test" true; EvRobots "https://EX.test" true;
     EvRobots "https://ex.test:443" true; EvRobots "https://u@ex.test" true].
Proof. vm_compute. reflexivity. Qed.





(** The crawl of the spec's scenario: depth 1, two links per page, a page
    with three internal links and one external link. *)
Lemma links_are_first_qualifying_witness :
  1 <= 2
  /\ exists fuel,
       match crawl Site.netloc_ok Site.markup_ok Site.parse_html Site.requests_get
               Site.robots_down Site.can_fetch fuel
               (init true 1 2 "stealth") tt "https://four.test/" with
       | OutOfFuel => False
       | Returned res s =>
           forall u page,
             Dict.get res u = Some page ->
             exists d text,
               In (EvGet u d (Response 200 text)) (trace s)
               /\ links page
                  = firstn (Z.to_nat (link_limit (init (Rules := bool) true 1 2 "stealth")))
                      (qualifying_links u (Site.parse_html text))
               /\ Z.of_nat (length (links page))
                  <= link_limit (init (Rules := bool) true 1 2 "stealth")
       | Raised _ _ => True
       end.
Proof.
  split; [lia|].
  apply (links_are_first_qualifying Site.netloc_ok Site.markup_ok Site.parse_html
           Site.requests_get Site.robots_down Site.can_fetch
           true 1 2 "stealth" tt "https://four.test/").
  lia.
Defined.

Example scenario_three_internal_one_external :
  match crawl Site.netloc_ok Site.markup_ok Site.parse_html Site.requests_get
          Site.robots_down Site.can_fetch 10
          (init true 1 2 "stealth") tt "https://four.test/" with
  | Returned res s =>
      List.map (fun kv => (fst kv, links (snd kv))) res
      = [("https://four.test/",
          ["https://four.test/1"; "https://four.test/2"])]%string
      /\ fetched (trace s)
         = ["https://four.test/"; "https://four.test/1"; "https://four.test/2"]%string
  | _ => False
  end.
Proof. vm_compute. split; reflexivity. Qed.

(** The seed links to a and b, and a links to c: the seed is dequeued
    first, then a and b, then c. *)
Example scenario_breadth_first :
  match crawl Site.netloc_ok Site.markup_ok Site.parse_html Site.requests_get
          Site.robots_down Site.can_fetch 10
          (init true 3 5 "stealth") tt "https://ex.test/" with
  | Returned res s =>
      omap (fun e => match e with
                     | EvDequeue u d => Some (u, d)
                     | _ => None
                     end) (trace s)
      = [("https://ex.test/", 0); ("https://ex.test/a", 1);
         ("https://ex.test/b", 1); ("https://ex.test/c", 2)]%string
      /\ Dict.keys res = ["https://ex.test/"; "https://ex.test/a"]%string
  | _ => False
  end.
Proof. vm_compute. split; reflexivity. Qed.

(** The request for b is answered with status 404 and the extraction of
    c raises: the crawl goes on after each, returns the two other pages,
    and has marked all four addresses. *)
Example scenario_failed_fetches :
  match crawl Site.netloc_ok Site.markup_ok Site.parse_html Site.requests_get
          Site.robots_down Site.can_fetch 10
          (init true 3 5 "stealth") tt "https://ex.test/" with
  | Returned res s =>
      omap (fun e => match e with
                     | EvGet u _ (Response code _) => Some (u, code)
                     | _ => None
                     end) (trace s)
      = [("https://ex.test/", 200); ("https://ex.test/a", 200);
         ("https://ex.test/b", 404); ("https://ex.test/c", 200)]%string
      /\ Dict.keys res = ["https://ex.test/"; "https://ex.test/a"]%string
      /\ visited_urls (self s)
         = list_to_set ["https://ex.test/"; "https://ex.test/a";
                        "https://ex.test/b"; "https://ex.test/c"]%string
  | _ => False
  end.
Proof. vm_compute. repeat split; reflexivity. Qed.

(** A content of 501 characters has a preview of 503. *)
Lemma preview_longer_than_500 :
  List.map (fun p => String.length (Agent.content_preview p))
    (Agent.pages
       (Agent.crawled_data
          (Agent.analyze_context Site.one_document "query"
             [("https://ex.test/", Site.page Site.long_text)]%string tt)))
  = [503%nat].
Proof. vm_compute. reflexivity. Qed.

Lemma context_bounds_witness :
  (length
     (Agent.relevant_documents
        (Agent.analyze_context Site.one_document "query"
           [("https://ex.test/", Site.page Site.long_text)]%string tt))
   <= 5)%nat.
Proof.
  refine (proj1 (proj2 (proj2 (proj2 (proj2 (proj2 (proj2
            (context_bounds Site.one_document "query"
               [("https://ex.test/", Site.page Site.long_text)]%string tt)))))))
            _).
  simpl. lia.
Defined.

(** * Further properties of the crawl *)

Section CrawlerMore.

Variable netloc_ok : string -> bool.
Variable markup_ok : string -> bool.
Variable parse_html : string -> list Soup.node.
Context {World : Type}.
Variable requests_get : World -> string -> response * World.
Context {Rules : Type}.
Variable robots_read : World -> string -> option Rules * World.
Variable can_fetch : Rules -> string -> string -> result bool.

Local Abbreviation urlparse := (UrlLib.urlparse netloc_ok).
Local Abbreviation urljoin := (UrlLib.urljoin netloc_ok).
Local Abbreviation extract_content := (extract_content netloc_ok markup_ok parse_html).
Local Abbreviation is_allowed := (is_allowed netloc_ok robots_read can_fetch).
Local Abbreviation crawl_url :=
  (crawl_url netloc_ok markup_ok parse_html requests_get robots_read can_fetch).
Local Abbreviation loop_body :=
  (loop_body netloc_ok markup_ok parse_html requests_get robots_read can_fetch).
Local Abbreviation crawl_loop :=
  (crawl_loop netloc_ok markup_ok parse_html requests_get robots_read can_fetch).
Local Abbreviation crawl :=
  (crawl netloc_ok markup_ok parse_html requests_get robots_read can_fetch).
Local Abbreviation page_of := (page_of netloc_ok markup_ok parse_html).
Local Abbreviation recorded := (recorded netloc_ok markup_ok parse_html).
Local Abbreviation crawl_outcome :=
  (crawl_outcome netloc_ok markup_ok parse_html requests_get robots_read can_fetch).
Local Abbreviation session := (@session World Rules).
Local Abbreviation loop_state := (@loop_state World Rules).

Implicit Types (s : session) (st : loop_state) (c : @crawler Rules) (w : World).

(** ** The result, page by page *)

Lemma recorded_app limit tr1 tr2 :
  recorded limit (tr1 ++ tr2) = recorded limit tr1 ++ recorded limit tr2.
Proof. apply omap_app. Qed.

Lemma recorded_quiet limit evs : fetched evs = [] -> recorded limit evs = [].
Proof.
  induction evs as [|e evs IH]; [reflexivity|].
  destruct e; try exact IH. discriminate.
Qed.

Lemma recorded_checked limit url depth s (cache : gmap string Rules) w evs :
  robots_only evs ->
  recorded limit (trace (checked url depth s cache w evs))
  = recorded limit (trace s).
Proof.
  intros Hev. unfold checked; simpl. rewrite recorded_app.
  rewrite (recorded_quiet limit (_ :: _ :: evs)); [apply app_nil_r|].
  simpl. now apply fetched_robots.
Qed.

Lemma recorded_enqueued limit depth new s :
  recorded limit (trace (enqueued depth new s)) = recorded limit (trace s).
Proof.
  unfold enqueued; simpl. rewrite recorded_app.
  rewrite (recorded_quiet limit (List.map _ new)); [apply app_nil_r|].
  apply fetched_enqueue.
Qed.

Lemma recorded_requested limit url depth r w2 s :
  recorded limit (trace (requested url depth r w2 s))
  = recorded limit (trace s)
    ++ match page_of limit url r with
       | Some page => [(url, page)]
       | None => []
       end.
Proof.
  unfold requested; simpl. rewrite recorded_app. f_equal. simpl.
  now destruct (page_of limit url r).
Qed.

(** Setting a key that is not in the dictionary appends it. *)
Lemma dict_set_fresh {V} (d : Dict.t V) (k : string) (v : V) :
  Dict.get d k = None -> Dict.set d k v = d ++ [(k, v)].
Proof.
  induction d as [|[k0 v0] d IH]; simpl; [reflexivity|].
  destruct (String.eqb k0 k); [discriminate|].
  intros H. now rewrite IH.
Qed.

(** Every pass keeps the result equal to the pages recorded so far. *)
Lemma recorded_pass limit st url depth rest out :
  inv_fetch st -> inv_origin netloc_ok markup_ok parse_html limit st ->
  results st = recorded limit (trace (sess st)) ->
  pass netloc_ok markup_ok parse_html can_fetch url depth rest (sess st) (results st) out ->
  match out with
  | (Ok st', _) => results st' = recorded limit (trace (sess st'))
  | (Raise _, _) => True
  end.
Proof.
  intros Hf Ho Hres Hpass.
  pose proof (origin_limit _ _ _ _ _ Ho) as Hlim.
  destruct Hpass
    as [Hskip|cache w evs e Hv Hd Hev Hby|cache w evs Hv Hd Hev
        |cache w evs r w2 Hv Hd Hev Hpage s2
        |cache w evs r w2 page Hv Hd Hev Hpage new s3];
    try exact I.
  - simpl. rewrite recorded_app. simpl. now rewrite app_nil_r.
  - cbn [results sess]. now rewrite recorded_checked.
  - subst s2. cbn [results sess].
    rewrite recorded_requested, recorded_checked by assumption.
    rewrite Hlim in Hpage. rewrite Hpage. now rewrite app_nil_r.
  - subst s3. cbn [results sess].
    rewrite recorded_enqueued, recorded_requested, recorded_checked
      by assumption.
    rewrite Hlim in Hpage. rewrite Hpage, <- Hres. apply dict_set_fresh.
    destruct (Dict.get (results st) url) as [pg|] eqn:Hu; [|reflexivity].
    destruct Hv.
    now apply (result_keys_visited netloc_ok markup_ok parse_html limit st url pg).
Qed.

(** X1.  Every call of [crawl] ends, and the dictionary it returns holds
    exactly the pages of the requests that yielded one (status 200 and
    an extraction that did not raise), each under the address requested,
    in the order in which the requests were made. *)
Theorem result_is_recorded c w seed_url :
  exists fuel,
    match crawl fuel c w seed_url with
    | OutOfFuel => False
    | Returned res s => res = recorded (link_limit c) (trace s)
    | Raised _ _ => True
    end.
Proof.
  destruct (crawl_outcome
              (fun st => inv_fetch st
                         /\ inv_origin netloc_ok markup_ok parse_html (link_limit c) st
                         /\ results st
                            = recorded (link_limit c) (trace (sess st)))
              (fun o => match o with
                        | OutOfFuel => False
                        | Returned res s =>
                            res = recorded (link_limit c) (trace s)
                        | Raised _ _ => True
                        end)
              c w seed_url) as [fuel [_ H]].
  - split; [apply inv_fetch_init|]. split; [apply inv_origin_init|].
    reflexivity.
  - intros st (_ & _ & Hres) _. exact Hres.
  - intros st url depth rest out (Hf & Ho & Hres) _ Hpass.
    pose proof (inv_fetch_pass netloc_ok markup_ok parse_html can_fetch st url depth rest out
                  Hf Hpass) as H1.
    pose proof (inv_origin_pass netloc_ok markup_ok parse_html can_fetch _ st url depth rest out
                  Ho Hpass) as H2.
    pose proof (recorded_pass _ st url depth rest out Hf Ho Hres Hpass) as H3.
    destruct out as [[st'|e] s']; [|exact I].
    split; [apply H1|]. now split.
  - now exists fuel.
Qed.
(** ** The depths of the events *)

Lemma in_range_robots D evs : robots_only evs -> List.Forall (in_range D) evs.
Proof.
  intros H. apply List.Forall_forall. intros e He.
  apply (proj1 (List.Forall_forall _ _) H) in He. now destruct e.
Qed.

(** Every pass keeps [inv_depths]; a pass that raises has marked an
    address, so the maximum depth is not negative. *)
Lemma inv_depths_pass D st url depth rest out :
  inv_depths D st ->
  queue st = (url, depth) :: rest ->
  pass netloc_ok markup_ok parse_html can_fetch url depth rest (sess st) (results st) out ->
  match out with
  | (Ok st', _) => inv_depths D st'
  | (Raise _, s') => List.Forall (in_range D) (trace s') /\ 0 <= D
  end.
Proof.
  intros [HD Hqueue Htrace] Hq Hpass.
  assert (H0 : 0 <= depth) by (apply (Hqueue url); rewrite Hq; now left).
  assert (Hrest : forall u d, In (u, d) rest -> 0 <= d).
  { intros u d Hin. apply (Hqueue u). rewrite Hq. now right. }
  destruct Hpass
    as [Hskip|cache w evs e Hv Hd Hev Hby|cache w evs Hv Hd Hev
        |cache w evs r w2 Hv Hd Hev Hpage s2
        |cache w evs r w2 page Hv Hd Hev Hpage new s3];
    rewrite ?HD in *.
  - constructor; simpl; [exact HD | exact Hrest|].
    apply List.Forall_app. split; [exact Htrace|]. now repeat constructor.
  - split; [|lia]. simpl.
    apply List.Forall_app. split; [exact Htrace|].
    constructor; [exact H0|]. constructor; [simpl; lia|].
    now apply in_range_robots.
  - constructor; simpl; [exact HD | exact Hrest|].
    apply List.Forall_app. split; [exact Htrace|].
    constructor; [exact H0|]. constructor; [simpl; lia|].
    now apply in_range_robots.
  - subst s2. constructor; simpl; [exact HD | exact Hrest|].
    apply List.Forall_app. split.
    + apply List.Forall_app. split; [exact Htrace|].
      constructor; [exact H0|]. constructor; [simpl; lia|].
      now apply in_range_robots.
    + constructor; [simpl; lia | constructor].
  - subst s3. constructor; simpl.
    + exact HD.
    + intros u d Hin. apply in_app_or in Hin as [Hin|Hin]; [now apply (Hrest u)|].
      apply in_map_iff in Hin as (l & [= <- <-] & _). lia.
    + apply List.Forall_app. split; [apply List.Forall_app; split|].
      * apply List.Forall_app. split; [exact Htrace|].
        constructor; [exact H0|]. constructor; [simpl; lia|].
        now apply in_range_robots.
      * constructor; [simpl; lia | constructor].
      * apply List.Forall_forall. intros e He.
        apply in_map_iff in He as (l & <- & _). simpl. lia.
Qed.

Lemma inv_depths_init c w seed_url :
  inv_depths (crawl_depth c)
    (mkLoop (mkSession (set_visited ∅ c) w []) [] [(seed_url, 0)]).
Proof.
  constructor; simpl; [reflexivity| |constructor].
  intros u d [[= <- <-]|[]]. lia.
Qed.

(** Two amounts of fuel that are both enough give the same outcome. *)
Lemma crawl_loop_fuel_agree fuel fuel' st :
  crawl_loop fuel st <> OutOfFuel -> crawl_loop fuel' st <> OutOfFuel ->
  crawl_loop fuel st = crawl_loop fuel' st.
Proof.
  intros H H'. destruct (Nat.le_ge_cases fuel fuel') as [Hle|Hle].
  - symmetry.
    now apply (crawl_loop_more_fuel netloc_ok markup_ok parse_html requests_get
                 robots_read can_fetch).
  - now apply (crawl_loop_more_fuel netloc_ok markup_ok parse_html requests_get
                 robots_read can_fetch).
Qed.

(** With a negative maximum depth the first pass skips the seed. *)
Lemma crawl_negative_depth c w seed_url :
  crawl_depth c < 0 ->
  crawl 2 c w seed_url
  = Returned [] (mkSession (set_visited ∅ c) w [EvDequeue seed_url 0]).
Proof.
  intros HD. unfold crawl. simpl. unfold loop_body. simpl.
  rewrite (proj2 (Z.ltb_lt _ _) HD), orb_true_r. reflexivity.
Qed.

(** X2.  Every call of [crawl] ends.  Every address is dequeued at a depth
    of 0 or more, marked visited and requested only at a depth between 0
    and [crawl_depth], and links are enqueued only at depths between 1 and
    [crawl_depth + 1].  A call that raises has a [crawl_depth] of 0 or
    more; with a negative [crawl_depth] the call returns the empty
    dictionary after it has dequeued the seed, and marks and requests
    nothing. *)
Theorem events_within_depth c w seed_url :
  exists fuel,
    match crawl fuel c w seed_url with
    | OutOfFuel => False
    | Returned res s =>
        List.Forall (in_range (crawl_depth c)) (trace s)
        /\ (crawl_depth c < 0 ->
            res = []
            /\ s = mkSession (set_visited ∅ c) w [EvDequeue seed_url 0])
    | Raised _ s =>
        List.Forall (in_range (crawl_depth c)) (trace s) /\ 0 <= crawl_depth c
    end.
Proof.
  destruct (crawl_outcome
              (inv_depths (crawl_depth c))
              (fun o => match o with
                        | OutOfFuel => False
                        | Returned res s =>
                            List.Forall (in_range (crawl_depth c)) (trace s)
                        | Raised _ s =>
                            List.Forall (in_range (crawl_depth c)) (trace s)
                            /\ 0 <= crawl_depth c
                        end)
              c w seed_url) as [fuel [Hfuel H]].
  - apply inv_depths_init.
  - intros st [_ _ Htr] _. exact Htr.
  - intros st url depth rest out HI Hq Hpass.
    exact (inv_depths_pass _ st url depth rest out HI Hq Hpass).
  - exists fuel.
    destruct (crawl fuel c w seed_url) as [|res s|e s] eqn:Hc;
      [exact H | | exact H].
    split; [exact H|]. intros HD.
    pose proof (crawl_negative_depth c w seed_url HD) as H2.
    assert (Heq : crawl fuel c w seed_url = crawl 2 c w seed_url).
    { apply crawl_loop_fuel_agree.
      - fold (crawl fuel c w seed_url). now rewrite Hc.
      - fold (crawl 2 c w seed_url). now rewrite H2. }
    rewrite Hc, H2 in Heq. injection Heq as -> ->. now split.
Qed.

(** ** Links that are followed *)

(** Every pass keeps [inv_closure]. *)
Lemma inv_closure_pass limit D st url depth rest out :
  inv_closure netloc_ok markup_ok parse_html limit D st ->
  queue st = (url, depth) :: rest ->
  pass netloc_ok markup_ok parse_html can_fetch url depth rest (sess st) (results st) out ->
  match out with
  | (Ok st', _) => inv_closure netloc_ok markup_ok parse_html limit D st'
  | (Raise _, _) => True
  end.
Proof.
  intros [HD Hlim Hlinks] Hq Hpass.
  (* what the links known so far *)
  assert (Hold : forall (V : gset string) q' tail,
             (url ∈ V \/ D < depth) ->
             (forall x, x ∈ visited_urls (self (sess st)) -> x ∈ V) ->
             (forall x, In x rest -> In x q') ->
             fetched tail = [] ->
             forall u d r page l,
               In (EvGet u d r) (trace (sess st) ++ tail) ->
               page_of limit u r = Some page -> d < D -> In l (links page) ->
               l ∈ V \/ In (l, d + 1) q').
  { intros V q' tail Hhead HV Hq' Htail u d r page l Hin Hpage Hd Hl.
    apply in_app_or in Hin as [Hin|Hin].
    - destruct (Hlinks u d r page l Hin Hpage Hd Hl) as [Hv|Hin'].
      + left. now apply HV.
      + rewrite Hq in Hin'. destruct Hin' as [[= <- Hdep]|Hin'].
        * destruct Hhead as [Hv|Hdeep]; [now left | lia].
        * right. now apply Hq'.
    - apply (fetched_in u d r) in Hin. rewrite Htail in Hin. destruct Hin. }
  destruct Hpass
    as [Hskip|cache w evs e Hv Hd Hev Hby|cache w evs Hv Hd Hev
        |cache w evs r w2 Hv Hd Hev Hpage s2
        |cache w evs r w2 page Hv Hd Hev Hpage new s3];
    try exact I.
  - constructor; simpl; [exact HD | exact Hlim|].
    apply Hold; auto. now rewrite <- HD.
  - constructor; simpl; [exact HD | exact Hlim|].
    apply Hold; auto.
    + left. apply elem_of_union_l, elem_of_singleton. reflexivity.
    + intros x Hx. now apply elem_of_union_r.
    + simpl. now apply fetched_robots.
  - subst s2. constructor; simpl; [exact HD | exact Hlim|].
    intros u d r' page l Hin Hpg Hdd Hl.
    apply in_app_or in Hin as [Hin|[[= <- <- <-]|[]]].
    + revert Hin Hpg Hdd Hl. apply Hold; auto.
      * left. apply elem_of_union_l, elem_of_singleton. reflexivity.
      * intros x Hx. now apply elem_of_union_r.
      * simpl. now apply fetched_robots.
    + rewrite Hlim in Hpage. congruence.
  - subst s3. constructor; simpl; [exact HD | exact Hlim|].
    intros u d r' pg l Hin Hpg Hdd Hl.
    apply in_app_or in Hin as [Hin|Hin].
    + apply in_app_or in Hin as [Hin|[[= <- <- <-]|[]]].
      * revert Hin Hpg Hdd Hl. apply Hold; auto.
        -- left. apply elem_of_union_l, elem_of_singleton. reflexivity.
        -- intros x Hx. now apply elem_of_union_r.
        -- intros x Hx. apply in_or_app. now left.
        -- simpl. now apply fetched_robots.
      * rewrite Hlim in Hpage. rewrite Hpage in Hpg. injection Hpg as <-.
        destruct (decide (l ∈ {[url]} ∪ visited_urls (self (sess st))))
          as [Hin|Hout]; [now left|].
        right. apply in_or_app. right.
        apply in_map_iff. exists l. split; [reflexivity|].
        unfold new. unfold new_links. apply filter_In. split; [exact Hl|].
        apply negb_true_iff, bool_decide_eq_false. exact Hout.
    + apply in_map_iff in Hin as (l' & Hl' & _). discriminate.
Qed.

Lemma inv_closure_init c w seed_url :
  inv_closure netloc_ok markup_ok parse_html (link_limit c) (crawl_depth c)
    (mkLoop (mkSession (set_visited ∅ c) w []) [] [(seed_url, 0)]).
Proof. constructor; simpl; [reflexivity | reflexivity | intros u d r page l []]. Qed.

(** X3.  Every call of [crawl] ends, and when it returns, every link of a
    page that was fetched at a depth below [crawl_depth] is in the visited
    set: no recorded link above the last level is left unfollowed. *)
Theorem links_are_followed c w seed_url :
  exists fuel,
    match crawl fuel c w seed_url with
    | OutOfFuel => False
    | Returned res s =>
        forall u d r page l,
          In (EvGet u d r) (trace s) ->
          page_of (link_limit c) u r = Some page ->
          d < crawl_depth c ->
          In l (links page) ->
          l ∈ visited_urls (self s)
    | Raised _ _ => True
    end.
Proof.
  destruct (crawl_outcome
              (inv_closure netloc_ok markup_ok parse_html (link_limit c) (crawl_depth c))
              (fun o => match o with
                        | OutOfFuel => False
                        | Returned res s =>
                            forall u d r page l,
                              In (EvGet u d r) (trace s) ->
                              page_of (link_limit c) u r = Some page ->
                              d < crawl_depth c ->
                              In l (links page) ->
                              l ∈ visited_urls (self s)
                        | Raised _ _ => True
                        end)
              c w seed_url) as [fuel [_ H]].
  - apply inv_closure_init.
  - intros st [_ _ Hlinks] Hq u d r page l Hin Hpage Hd Hl.
    destruct (Hlinks u d r page l Hin Hpage Hd Hl) as [Hv|Hin']; [exact Hv|].
    rewrite Hq in Hin'. destruct Hin'.
  - intros st url depth rest out HI Hq Hpass.
    pose proof (inv_closure_pass _ _ st url depth rest out HI Hq Hpass) as H.
    destruct out as [[st'|e] s']; [exact H | exact I].
  - now exists fuel.
Qed.

(** ** The site of the seed *)

Lemma kept_link_site base l :
  kept_link base l = true ->
  (UrlLib.netloc (UrlLib.urlparse_parts l EmptyString) = base
   \/ UrlLib.netloc (UrlLib.urlparse_parts l EmptyString) = EmptyString)
  /\ web_scheme l.
Proof.
  unfold kept_link, web_scheme. intros H.
  apply andb_true_iff in H as [H _]. apply andb_true_iff in H as [Hn Hs].
  split.
  - apply orb_true_iff in Hn as [Hn|Hn].
    + left. now apply String.eqb_eq.
    + right. now destruct (UrlLib.netloc _).
  - apply orb_true_iff in Hs as [Hs|Hs]; apply String.eqb_eq in Hs; auto.
Qed.

(** The links of an extracted page are on the host of the page, or have
    no host, and have scheme http or https. *)
Lemma page_links_site limit url r page l :
  page_of limit url r = Some page -> In l (links page) ->
  (UrlLib.netloc (UrlLib.urlparse_parts l EmptyString)
   = UrlLib.netloc (UrlLib.urlparse_parts url EmptyString)
   \/ UrlLib.netloc (UrlLib.urlparse_parts l EmptyString) = EmptyString)
  /\ web_scheme l.
Proof.
  intros Hpage Hl. apply page_of_some in Hpage as (text & _ & Hx).
  apply extract_content_links in Hx. rewrite Hx in Hl.
  apply slice_to_sublist in Hl. unfold qualifying_links in Hl.
  apply filter_In in Hl as [_ Hk]. now apply kept_link_site.
Qed.

(** Every pass keeps [inv_site]. *)
Lemma inv_site_pass seed st url depth rest out :
  inv_site seed st ->
  queue st = (url, depth) :: rest ->
  pass netloc_ok markup_ok parse_html can_fetch url depth rest (sess st) (results st) out ->
  match out with
  | (Ok st', _) => inv_site seed st'
  | (Raise _, s') =>
      forall u, In u (fetched (trace s')) ->
                same_site seed u /\ (u = seed \/ web_scheme u)
  end.
Proof.
  intros [Hqueue Hfetched] Hq Hpass.
  assert (Hhead : same_site seed url /\ (url = seed \/ web_scheme url)).
  { apply (Hqueue url depth). rewrite Hq. now left. }
  assert (Hrest : forall u d, In (u, d) rest ->
                    same_site seed u /\ (u = seed \/ web_scheme u)).
  { intros u d Hin. apply (Hqueue u d). rewrite Hq. now right. }
  assert (Hget : forall u, In u (fetched (trace (sess st)) ++ [url]) ->
                   same_site seed u /\ (u = seed \/ web_scheme u)).
  { intros u Hin. apply in_app_or in Hin as [Hin|[<-|[]]]; auto. }
  destruct Hpass
    as [Hskip|cache w evs e Hv Hd Hev Hby|cache w evs Hv Hd Hev
        |cache w evs r w2 Hv Hd Hev Hpage s2
        |cache w evs r w2 page Hv Hd Hev Hpage new s3].
  - constructor; simpl; [exact Hrest|].
    now rewrite fetched_quiet.
  - now rewrite fetched_checked.
  - constructor; [exact Hrest|]. cbn [sess].
    now rewrite fetched_checked.
  - subst s2. constructor; [exact Hrest|]. cbn [sess].
    now rewrite fetched_requested, fetched_checked.
  - subst s3. constructor; cbn [sess queue].
    + intros u d Hin. apply in_app_or in Hin as [Hin|Hin]; [now apply (Hrest u d)|].
      apply in_map_iff in Hin as (l & [= <- <-] & Hl).
      apply new_links_fresh in Hl as [Hl _].
      destruct (page_links_site _ _ _ _ _ Hpage Hl) as [Hn Hw].
      split; [|now right].
      destruct Hhead as [[Hs|Hs] _], Hn as [Hn|Hn]; unfold same_site;
        rewrite ?Hn, ?Hs; auto.
    + now rewrite fetched_enqueued, fetched_requested, fetched_checked.
Qed.

Lemma inv_site_init c w seed_url :
  inv_site seed_url
    (mkLoop (mkSession (set_visited ∅ c) w []) [] [(seed_url, 0)]).
Proof.
  constructor; simpl.
  - intros u d [[= <- <-]|[]]. split; [now left | now left].
  - intros u [].
Qed.

(** X4.  Every call of [crawl] ends, and it never leaves the site of the
    seed: every address it requests has the network location of the seed
    or none, and every requested address other than the seed has scheme
    http or https.  In the dictionary it returns, every link of a page has
    the network location of the address of that page, or none. *)
Theorem crawl_stays_on_site c w seed_url :
  exists fuel,
    match crawl fuel c w seed_url with
    | OutOfFuel => False
    | Returned res s =>
        (forall u, In u (fetched (trace s)) ->
                   same_site seed_url u /\ (u = seed_url \/ web_scheme u))
        /\ (forall u page l,
               Dict.get res u = Some page -> In l (links page) ->
               same_site u l /\ web_scheme l)
    | Raised _ s =>
        forall u, In u (fetched (trace s)) ->
                  same_site seed_url u /\ (u = seed_url \/ web_scheme u)
    end.
Proof.
  destruct (crawl_outcome
              (fun st => inv_site seed_url st
                         /\ inv_origin netloc_ok markup_ok parse_html (link_limit c) st)
              (fun o => match o with
                        | OutOfFuel => False
                        | Returned res s =>
                            (forall u, In u (fetched (trace s)) ->
                               same_site seed_url u
                               /\ (u = seed_url \/ web_scheme u))
                            /\ (forall u page l,
                                   Dict.get res u = Some page ->
                                   In l (links page) ->
                                   same_site u l /\ web_scheme l)
                        | Raised _ s =>
                            forall u, In u (fetched (trace s)) ->
                              same_site seed_url u
                              /\ (u = seed_url \/ web_scheme u)
                        end)
              c w seed_url) as [fuel [_ H]].
  - split; [apply inv_site_init | apply inv_origin_init].
  - intros st [[_ Hf] [_ Horg]] _. split; [exact Hf|].
    intros u page l Hu Hl.
    destruct (Horg u page Hu) as (d & text & _ & Hx).
    apply (page_links_site (link_limit c) u (Response 200 text) page l);
      [|exact Hl].
    unfold page_of. simpl. now rewrite Hx.
  - intros st url depth rest out [Hs Ho] Hq Hpass.
    pose proof (inv_site_pass _ st url depth rest out Hs Hq Hpass) as H1.
    pose proof (inv_origin_pass netloc_ok markup_ok parse_html can_fetch _ st url depth rest out
                  Ho Hpass) as H2.
    destruct out as [[st'|e] s']; [now split | exact H1].
  - now exists fuel.
Qed.

(** ** A pass, in terms of the answer of [is_allowed] *)

Local Abbreviation pass_after :=
  (pass_after netloc_ok markup_ok parse_html requests_get).
Local Abbreviation complies := (complies netloc_ok can_fetch).

(** Every pass that does not skip its address is [is_allowed] on the
    marked session followed by [pass_after]. *)
Lemma loop_body_eq url depth rest s res :
  url ∉ visited_urls (self s) -> depth <= crawl_depth (self s) ->
  loop_body url depth rest s res
  = pass_after url depth rest res
      (fst (is_allowed url (marked url depth s)))
      (snd (is_allowed url (marked url depth s))).
Proof.
  intros Hv Hd. unfold loop_body.
  assert (Hskip : bool_decide (url ∈ visited_urls (self (log (EvDequeue url depth) s)))
                  || (crawl_depth (self (log (EvDequeue url depth) s)) <? depth)
                  = false).
  { apply orb_false_iff. split.
    - now apply bool_decide_eq_false.
    - now apply Z.ltb_ge. }
  rewrite Hskip.
  rewrite (crawl_url_eq netloc_ok markup_ok parse_html requests_get robots_read can_fetch)
    by assumption.
  assert (Hm : mkSession
                 (set_visited
                    ({[url]} ∪ visited_urls (self (log (EvDequeue url depth) s)))
                    (self (log (EvDequeue url depth) s)))
                 (world (log (EvDequeue url depth) s))
                 (trace (log (EvDequeue url depth) s) ++ [EvVisited url depth])
               = marked url depth s).
  { unfold marked, log. simpl. now rewrite <- app_assoc. }
  rewrite Hm.
  destruct (is_allowed url (marked url depth s)) as [[[|]|e] s1];
    cbn [fst snd]; unfold pass_after; try reflexivity.
  destruct (page_of (link_limit (self s1)) url
              (fst (requests_get (world s1) url))) as [page|];
    unfold data_of.
  - rewrite dict_get_single, enqueue_links_spec. reflexivity.
  - reflexivity.
Qed.

(** What [is_allowed] does to the session, and what its answer means. *)
Lemma is_allowed_rich url s r s' :
  is_allowed url s = (r, s') ->
  exists evs,
    trace s' = trace s ++ evs
    /\ robots_only evs
    /\ self s' = set_cache (robots_cache (self s')) (self s)
    /\ (forall b rp, robots_cache (self s) !! b = Some rp ->
                     robots_cache (self s') !! b = Some rp)
    /\ (forall b rp, robots_cache (self s') !! b = Some rp ->
                     robots_cache (self s) !! b = Some rp
                     \/ In (EvRobots b true) evs)
    /\ (forall b, In (EvRobots b true) evs ->
                  is_Some (robots_cache (self s') !! b))
    /\ (r = Ok true ->
        respect_robots (self s) = false
        \/ exists p,
             urlparse url = Ok p
             /\ forall rp, robots_cache (self s') !! base_url_of p = Some rp ->
                           can_fetch rp (user_agent (self s)) url = Ok true)
    /\ (respect_robots (self s) = false -> r = Ok true /\ s' = s)
    /\ (forall b ok, In (EvRobots b ok) evs ->
                     robots_cache (self s) !! b = None).
Proof.
  unfold is_allowed.
  assert (Hsame : self s = set_cache (robots_cache (self s)) (self s)).
  { now destruct (self s). }
  assert (Hid : forall r0,
             (r0 = Ok true ->
              respect_robots (self s) = false
              \/ exists p,
                   urlparse url = Ok p
                   /\ forall rp, robots_cache (self s) !! base_url_of p = Some rp ->
                                 can_fetch rp (user_agent (self s)) url = Ok true) ->
             (respect_robots (self s) = false -> r0 = Ok true) ->
             (r0, s) = (r, s') ->
             exists evs,
               trace s' = trace s ++ evs
               /\ robots_only evs
               /\ self s' = set_cache (robots_cache (self s')) (self s)
               /\ (forall b rp, robots_cache (self s) !! b = Some rp ->
                                robots_cache (self s') !! b = Some rp)
               /\ (forall b rp, robots_cache (self s') !! b = Some rp ->
                                robots_cache (self s) !! b = Some rp
                                \/ In (EvRobots b true) evs)
               /\ (forall b, In (EvRobots b true) evs ->
                             is_Some (robots_cache (self s') !! b))
               /\ (r = Ok true ->
                   respect_robots (self s) = false
                   \/ exists p,
                        urlparse url = Ok p
                        /\ forall rp,
                             robots_cache (self s') !! base_url_of p = Some rp ->
                             can_fetch rp (user_agent (self s)) url = Ok true)
               /\ (respect_robots (self s) = false -> r = Ok true /\ s' = s)
               /\ (forall b ok, In (EvRobots b ok) evs ->
                                robots_cache (self s) !! b = None)).
  { intros r0 Hr0 Hoff [= <- <-]. exists [].
    split; [now rewrite app_nil_r|]. split; [constructor|].
    split; [exact Hsame|]. split; [auto|]. split; [auto|].
    split; [intros b []|]. split; [exact Hr0|].
    split; [intros H; split; auto | intros b ok []]. }
  destruct (respect_robots (self s)) eqn:Hrr; simpl.
  2:{ apply Hid; auto. }
  destruct (urlparse url) as [p|e] eqn:Hp.
  2:{ apply Hid; [discriminate | discriminate]. }
  destruct (robots_cache (self s) !! base_url_of p) as [rp|] eqn:Hc.
  { apply Hid; [|discriminate]. intros [= Hcf]. right. exists p.
    split; [reflexivity|]. intros rp' Hrp'. congruence. }
  destruct (urljoin (base_url_of p) "/robots.txt") as [ru|e].
  2:{ apply Hid; [discriminate | discriminate]. }
  destruct (robots_read (world s) ru) as [[rp|] w']; intros [= <- <-].
  - exists [EvRobots (base_url_of p) true]. simpl.
    split; [reflexivity|]. split; [repeat constructor|].
    split; [reflexivity|]. split; [|split; [|split; [|split]]].
    + intros b rp' Hb. destruct (decide (base_url_of p = b)) as [<-|Hne].
      * congruence.
      * now rewrite lookup_insert_ne.
    + intros b rp' Hb. destruct (decide (base_url_of p = b)) as [<-|Hne].
      * right. now left.
      * left. now rewrite lookup_insert_ne in Hb.
    + intros b [[= <-]|[]]. rewrite lookup_insert_eq. now eexists.
    + intros [= Hcf]. right. exists p. split; [reflexivity|].
      intros rp'. rewrite lookup_insert_eq. intros [= <-]. exact Hcf.
    + split; [discriminate|]. intros b ok [[= <- _]|[]]. exact Hc.
  - exists [EvRobots (base_url_of p) false]. simpl.
    split; [reflexivity|]. split; [repeat constructor|].
    split; [exact Hsame|]. split; [auto|]. split; [auto|].
    split; [intros b [[= ]|[]]|]. split; [|split; [discriminate|]].
    + intros _. right. exists p. split; [reflexivity|].
      intros rp'. rewrite Hc. discriminate.
    + intros b ok [[= <- _]|[]]. exact Hc.
Qed.

(** What [pass_after] adds to the session: no robots.txt read, and at
    most a request for [url], made only when [is_allowed] answered
    [True]. *)
Lemma pass_after_effect url depth rest res r s1 :
  exists tail,
    trace (snd (pass_after url depth rest res r s1)) = trace s1 ++ tail
    /\ self (snd (pass_after url depth rest res r s1)) = self s1
    /\ List.Forall (fun e => is_robots_event e = false) tail
    /\ (forall u d r', In (EvGet u d r') tail -> u = url /\ r = Ok true)
    /\ (forall st', fst (pass_after url depth rest res r s1) = Ok st' ->
                    sess st' = snd (pass_after url depth rest res r s1))
    /\ (forall e, fst (pass_after url depth rest res r s1) = Raise e ->
                  r = Raise e).
Proof.
  unfold pass_after. destruct r as [[|]|e]; cbn [fst snd].
  - destruct (page_of (link_limit (self s1)) url
                (fst (requests_get (world s1) url))) as [page|];
      cbn [fst snd].
    + eexists. split; [unfold enqueued, requested; simpl;
                       rewrite <- app_assoc; reflexivity|].
      split; [reflexivity|]. split; [|split; [|split]].
      * constructor; [reflexivity|].
        apply List.Forall_forall. intros e He.
        apply in_map_iff in He as (l & <- & _). reflexivity.
      * intros u d r' [[= <- _ _]|Hin]; [now split|].
        apply in_map_iff in Hin as (l & Hl & _). discriminate.
      * intros st' [= <-]. reflexivity.
      * discriminate.
    + exists [EvGet url depth (fst (requests_get (world s1) url))].
      split; [reflexivity|]. split; [reflexivity|].
      split; [now repeat constructor|]. split; [|split].
      * intros u d r' [[= <- _ _]|[]]. now split.
      * intros st' [= <-]. reflexivity.
      * discriminate.
  - exists []. split; [now rewrite app_nil_r|]. split; [reflexivity|].
    split; [constructor|]. split; [intros u d r' []|]. split.
    + intros st' [= <-]. reflexivity.
    + discriminate.
  - exists []. split; [now rewrite app_nil_r|]. split; [reflexivity|].
    split; [constructor|]. split; [intros u d r' []|]. split.
    + discriminate.
    + intros e' [= <-]. reflexivity.
Qed.

(** A property that every pass keeps, stated on [loop_body] itself, holds
    when the loop ends; and the loop ends. *)
Lemma crawl_outcome_body (I : loop_state -> Prop) (Q : outcome -> Prop)
    c w seed_url :
  I (mkLoop (mkSession (set_visited ∅ c) w []) [] [(seed_url, 0)]) ->
  (forall st, I st -> queue st = [] -> Q (Returned (results st) (sess st))) ->
  (forall st url depth rest,
      I st -> queue st = (url, depth) :: rest ->
      match loop_body url depth rest (sess st) (results st) with
      | (Ok st', _) => I st'
      | (Raise e, s') => Q (Raised e s')
      end) ->
  exists fuel,
    crawl fuel c w seed_url <> OutOfFuel /\ Q (crawl fuel c w seed_url).
Proof.
  intros Hinit Hend Hstep.
  destruct (crawl_loop_terminates netloc_ok markup_ok parse_html requests_get
              robots_read can_fetch
              (mkLoop (mkSession (set_visited ∅ c) w []) [] [(seed_url, 0)]))
    as [fuel Hfuel].
  exists fuel. split; [exact Hfuel|].
  unfold crawl in *.
  revert Hinit Hfuel.
  generalize (mkLoop (mkSession (set_visited ∅ c) w []) [] [(seed_url, 0)]).
  induction fuel as [|fuel IH]; intros st HI Hfuel; [now destruct Hfuel|].
  simpl in *. destruct (queue st) as [|[url depth] rest] eqn:Hq.
  - now apply Hend.
  - pose proof (Hstep st url depth rest HI Hq) as H.
    destruct (loop_body url depth rest (sess st) (results st)) as [[st'|e] s'].
    + now apply IH.
    + exact H.
Qed.

(** ** robots.txt during a crawl *)

Lemma loop_body_skip url depth rest s res :
  url ∈ visited_urls (self s) \/ crawl_depth (self s) < depth ->
  loop_body url depth rest s res
  = (Ok (mkLoop (log (EvDequeue url depth) s) res rest),
     log (EvDequeue url depth) s).
Proof.
  intros H. unfold loop_body.
  assert (Hskip : bool_decide (url ∈ visited_urls (self (log (EvDequeue url depth) s)))
                  || (crawl_depth (self (log (EvDequeue url depth) s)) <? depth)
                  = true).
  { apply orb_true_iff. destruct H as [H|H].
    - left. now apply bool_decide_eq_true.
    - right. now apply Z.ltb_lt. }
  now rewrite Hskip.
Qed.

(** What a pass of the loop does about robots.txt. *)
Lemma loop_body_robots url depth rest s res :
  exists evs,
    trace (snd (loop_body url depth rest s res)) = trace s ++ evs
    /\ respect_robots (self (snd (loop_body url depth rest s res)))
       = respect_robots (self s)
    /\ user_agent (self (snd (loop_body url depth rest s res)))
       = user_agent (self s)
    /\ (forall st', fst (loop_body url depth rest s res) = Ok st' ->
                    sess st' = snd (loop_body url depth rest s res))
    /\ (forall b rp,
           robots_cache (self s) !! b = Some rp ->
           robots_cache (self (snd (loop_body url depth rest s res))) !! b
           = Some rp)
    /\ (forall b rp,
           robots_cache (self (snd (loop_body url depth rest s res))) !! b
           = Some rp ->
           robots_cache (self s) !! b = Some rp \/ In (EvRobots b true) evs)
    /\ (forall b, In (EvRobots b true) evs ->
           is_Some (robots_cache
                      (self (snd (loop_body url depth rest s res))) !! b))
    /\ (forall b ok, In (EvRobots b ok) evs ->
                     robots_cache (self s) !! b = None)
    /\ (forall u d r,
           In (EvGet u d r) evs ->
           respect_robots (self s) = false
           \/ exists p,
                urlparse u = Ok p
                /\ forall rp,
                     robots_cache
                       (self (snd (loop_body url depth rest s res)))
                     !! base_url_of p = Some rp ->
                     can_fetch rp (user_agent (self s)) u = Ok true)
    /\ (respect_robots (self s) = false ->
        List.Forall (fun e => is_robots_event e = false) evs
        /\ robots_cache (self (snd (loop_body url depth rest s res)))
           = robots_cache (self s)
        /\ forall e, fst (loop_body url depth rest s res) <> Raise e).
Proof.
  destruct (decide (url ∈ visited_urls (self s))) as [Hv|Hv].
  { rewrite loop_body_skip by now left. exists [EvDequeue url depth]. simpl.
    repeat split; auto; try discriminate; try (now repeat constructor).
    all: try (now intros st' [= <-]).
    all: try (now intros b [[= ]|[]]).
    all: try (now intros b ok [[= ]|[]]).
    all: now intros u d r [[= ]|[]]. }
  destruct (Z.lt_ge_cases (crawl_depth (self s)) depth) as [Hd|Hd].
  { rewrite loop_body_skip by now right. exists [EvDequeue url depth]. simpl.
    repeat split; auto; try discriminate; try (now repeat constructor).
    all: try (now intros st' [= <-]).
    all: try (now intros b [[= ]|[]]).
    all: try (now intros b ok [[= ]|[]]).
    all: now intros u d r [[= ]|[]]. }
  rewrite loop_body_eq by assumption.
  destruct (is_allowed url (marked url depth s)) as [r s1] eqn:Hal.
  cbn [fst snd].
  destruct (is_allowed_rich _ _ _ _ Hal)
    as (evs & Htr & Hev & Hself & Hkeep & Horg & Hread & Hans & Hoff & Hfresh).
  destruct (pass_after_effect url depth rest res r s1)
    as (tail & Htr' & Hself' & Htail & Hget & Hsess & Hraise).
  exists ([EvDequeue url depth; EvVisited url depth] ++ evs ++ tail).
  rewrite Htr', Hself', Htr. unfold marked at 1. cbn [trace].
  split; [now rewrite <- !app_assoc|].
  split; [now rewrite Hself|]. split; [now rewrite Hself|].
  split; [exact Hsess|]. split; [exact Hkeep|].
  assert (Hnot : forall b ok, ~ In (EvRobots b ok) tail).
  { intros b ok Hin. apply (proj1 (List.Forall_forall _ _) Htail) in Hin.
    discriminate. }
  assert (Hin4 : forall e,
             In e ([EvDequeue url depth; EvVisited url depth] ++ evs ++ tail)
             <-> e = EvDequeue url depth \/ e = EvVisited url depth
                 \/ In e evs \/ In e tail).
  { intros e. rewrite !in_app_iff. simpl. intuition congruence. }
  split; [|split; [|split; [|split; [|]]]].
  - intros b rp Hb. destruct (Horg b rp Hb) as [H|H]; [now left|].
    right. apply Hin4. now right; right; left.
  - intros b Hin. apply Hin4 in Hin as [[= ]|[[= ]|[Hin|Hin]]].
    + now apply Hread.
    + now destruct (Hnot b true).
  - intros b ok Hin. apply Hin4 in Hin as [[= ]|[[= ]|[Hin|Hin]]].
    + now apply (Hfresh b ok).
    + now destruct (Hnot b ok).
  - intros u d r' Hin. apply Hin4 in Hin as [[= ]|[[= ]|[Hin|Hin]]].
    + apply (proj1 (List.Forall_forall _ _) Hev) in Hin. discriminate.
    + destruct (Hget u d r' Hin) as [-> ->]. now apply Hans.
  - intros Hrr. destruct (Hoff Hrr) as [-> ->].
    assert (evs = []) as ->.
    { apply (app_inv_head (trace (marked url depth s))).
      now rewrite app_nil_r. }
    split; [|split].
    + constructor; [reflexivity|]. constructor; [reflexivity|]. exact Htail.
    + reflexivity.
    + intros e He. apply Hraise in He. discriminate.
Qed.

(** Every pass keeps the cache grown from the one the call started with. *)
Lemma cache_grown_pass (c0 : @crawler Rules) url depth rest s res :
  cache_grown c0 (self s) (trace s) ->
  cache_grown c0 (self (snd (loop_body url depth rest s res)))
    (trace (snd (loop_body url depth rest s res))).
Proof.
  intros [Hrr Hua Hkeep Horg Hread Hfresh].
  destruct (loop_body_robots url depth rest s res)
    as (evs & -> & Hrr' & Hua' & _ & Hk & Ho & Hr & Hf & _ & _).
  constructor.
  - now rewrite Hrr'.
  - now rewrite Hua'.
  - intros b rp Hb. now apply Hk, Hkeep.
  - intros b rp Hb. destruct (Ho b rp Hb) as [H|H].
    + destruct (Horg b rp H) as [H'|H']; [now left|].
      right. apply in_or_app. now left.
    + right. apply in_or_app. now right.
  - intros b Hin. apply in_app_or in Hin as [Hin|Hin]; [|now apply Hr].
    destruct (Hread b Hin) as [rp Hrp]. exists rp. now apply Hk.
  - intros b ok Hin. apply in_app_or in Hin as [Hin|Hin];
      [now apply (Hfresh b ok)|].
    pose proof (Hf b ok Hin) as Hnone.
    destruct (robots_cache c0 !! b) as [rp|] eqn:Hc0; [|reflexivity].
    apply Hkeep in Hc0. congruence.
Qed.

(** Every pass keeps the requests in line with the rules. *)
Lemma complies_pass url depth rest s res :
  complies (self s) (trace s) ->
  complies (self (snd (loop_body url depth rest s res)))
    (trace (snd (loop_body url depth rest s res))).
Proof.
  intros Hc.
  destruct (loop_body_robots url depth rest s res)
    as (evs & -> & Hrr' & Hua' & _ & Hk & Ho & _ & _ & Hg & _).
  intros pre u d r post Heq. rewrite Hrr', Hua'.
  apply app_eq_app in Heq as [l [[Htr Hl]|[-> Hl]]].
  - destruct l as [|x l]; simpl in Hl.
    + destruct (Hg u d r) as [H|(p & Hp & Hcf)];
        [rewrite <- Hl; now left | now left|].
      right. exists p. split; [exact Hp|]. intros rp Hrp. left. now apply Hcf.
    + injection Hl as <- ->.
      destruct (Hc pre u d r l Htr) as [H|(p & Hp & Hcf)]; [now left|].
      right. exists p. split; [exact Hp|]. intros rp Hrp.
      destruct (Ho _ _ Hrp) as [H|H].
      * destruct (Hcf rp H) as [H'|H']; [now left|].
        right. apply in_or_app. now left.
      * right. apply in_or_app. now right.
  - destruct (Hg u d r) as [H|(p & Hp & Hcf)];
      [rewrite Hl; apply in_or_app; right; now left | now left|].
    right. exists p. split; [exact Hp|]. intros rp Hrp. left. now apply Hcf.
Qed.

Lemma cache_grown_init c :
  cache_grown c (set_visited ∅ c) [].
Proof.
  constructor; simpl; auto.
  - intros b [].
  - intros b ok [].
Qed.

(** X5.  Every call of [crawl] ends, and all it does to the robots cache
    is to add the rules of the robots.txt files it read without an
    exception: the entries the crawler had before the call are there
    after it, unchanged; a base address has rules after the call exactly
    when it had some before or was read during the call; and no
    robots.txt is read for a base address that had rules before the
    call. *)
Theorem crawl_grows_robots_cache c w seed_url :
  exists fuel,
    match crawl fuel c w seed_url with
    | OutOfFuel => False
    | Returned _ s | Raised _ s => cache_grown c (self s) (trace s)
    end.
Proof.
  destruct (crawl_outcome_body
              (fun st => cache_grown c (self (sess st)) (trace (sess st)))
              (fun o => match o with
                        | OutOfFuel => False
                        | Returned _ s | Raised _ s =>
                            cache_grown c (self s) (trace s)
                        end)
              c w seed_url) as [fuel [_ H]].
  - apply cache_grown_init.
  - intros st HI _. exact HI.
  - intros st url depth rest HI _.
    pose proof (cache_grown_pass c url depth rest (sess st) (results st) HI)
      as H.
    destruct (loop_body_robots url depth rest (sess st) (results st))
      as (_ & _ & _ & _ & Hsess & _).
    destruct (loop_body url depth rest (sess st) (results st)) as [[st'|e] s'];
      cbn [fst snd] in *; [|exact H].
    now rewrite (Hsess st' eq_refl).
  - now exists fuel.
Qed.

(** X6.  Every call of [crawl] ends, and every request it made for a page
    is allowed by the robots rules the crawler holds for the base address
    of the page when the call ends, unless [respect_robots] is off, no
    rules are held for that base address, or the rules were read only
    after the request (a read that had raised before). *)
Theorem crawl_complies_with_robots c w seed_url :
  exists fuel,
    match crawl fuel c w seed_url with
    | OutOfFuel => False
    | Returned _ s | Raised _ s => complies (self s) (trace s)
    end.
Proof.
  destruct (crawl_outcome_body
              (fun st => complies (self (sess st)) (trace (sess st)))
              (fun o => match o with
                        | OutOfFuel => False
                        | Returned _ s | Raised _ s =>
                            complies (self s) (trace s)
                        end)
              c w seed_url) as [fuel [_ H]].
  - intros pre u d r post Heq. now destruct pre.
  - intros st HI _. exact HI.
  - intros st url depth rest HI _.
    pose proof (complies_pass url depth rest (sess st) (results st) HI) as H.
    destruct (loop_body_robots url depth rest (sess st) (results st))
      as (_ & _ & _ & _ & Hsess & _).
    destruct (loop_body url depth rest (sess st) (results st)) as [[st'|e] s'];
      cbn [fst snd] in *; [|exact H].
    now rewrite (Hsess st' eq_refl).
  - now exists fuel.
Qed.

(** The two properties above hold of the same run. *)
Lemma crawl_robots_summary c w seed_url :
  exists fuel,
    match crawl fuel c w seed_url with
    | OutOfFuel => False
    | Returned _ s | Raised _ s =>
        cache_grown c (self s) (trace s) /\ complies (self s) (trace s)
    end.
Proof.
  destruct (crawl_outcome_body
              (fun st => cache_grown c (self (sess st)) (trace (sess st))
                         /\ complies (self (sess st)) (trace (sess st)))
              (fun o => match o with
                        | OutOfFuel => False
                        | Returned _ s | Raised _ s =>
                            cache_grown c (self s) (trace s)
                            /\ complies (self s) (trace s)
                        end)
              c w seed_url) as [fuel [_ H]].
  - split; [apply cache_grown_init|].
    intros pre u d r post Heq. now destruct pre.
  - intros st HI _. exact HI.
  - intros st url depth rest [HI1 HI2] _.
    pose proof (cache_grown_pass c url depth rest (sess st) (results st) HI1)
      as H1.
    pose proof (complies_pass url depth rest (sess st) (results st) HI2) as H2.
    destruct (loop_body_robots url depth rest (sess st) (results st))
      as (_ & _ & _ & _ & Hsess & _).
    destruct (loop_body url depth rest (sess st) (results st)) as [[st'|e] s'];
      cbn [fst snd] in *; [|now split].
    now rewrite (Hsess st' eq_refl).
  - now exists fuel.
Qed.

(** X7.  When the crawler respects robots.txt and already holds, for the
    base address of an address [u], rules that forbid [u] to its user
    agent, a call of [crawl] ends without ever requesting [u], whatever
    the network answers and whatever the pages link to. *)
Theorem cached_denial_is_never_requested c w seed_url u p rp :
  respect_robots c = true ->
  urlparse u = Ok p ->
  robots_cache c !! base_url_of p = Some rp ->
  can_fetch rp (user_agent c) u = Ok false ->
  exists fuel,
    match crawl fuel c w seed_url with
    | OutOfFuel => False
    | Returned _ s | Raised _ s =>
        forall d r, ~ In (EvGet u d r) (trace s)
    end.
Proof.
  intros Hrr Hp Hrp Hcf.
  destruct (crawl_robots_summary c w seed_url) as [fuel H].
  exists fuel.
  assert (Hno : forall s,
             cache_grown c (self s) (trace s) /\ complies (self s) (trace s) ->
             forall d r, ~ In (EvGet u d r) (trace s)).
  { intros s [[Hr Hua Hkeep _ _ Hfresh] Hc] d r Hin.
    apply in_split in Hin as (pre & post & Heq).
    destruct (Hc pre u d r post Heq) as [Hoff|(p' & Hp' & Hall)];
      [congruence|].
    assert (p' = p) as -> by congruence.
    destruct (Hall rp (Hkeep _ _ Hrp)) as [Hyes|Hread].
    - rewrite Hua in Hyes. congruence.
    - assert (Hin : In (EvRobots (base_url_of p) true) (trace s)).
      { rewrite Heq. apply in_or_app. right. now right. }
      apply Hfresh in Hin. congruence. }
  destruct (crawl fuel c w seed_url) as [|res s|e s]; [exact H| |];
    now apply Hno.
Qed.

(** X8.  With [respect_robots] off, a call of [crawl] ends by returning:
    it raises on no seed, reads no robots.txt and leaves the robots cache
    as it was.  The delays are taken not to be negative, as
    [__init__] sets them: the pause before a request, which is left out
    of [crawl_url] here, raises for a negative time. *)
Theorem crawl_without_robots c w seed_url :
  respect_robots c = false ->
  0 <= delay_min c ->
  0 <= delay_max c ->
  exists fuel,
    match crawl fuel c w seed_url with
    | Returned _ s =>
        List.Forall (fun e => is_robots_event e = false) (trace s)
        /\ robots_cache (self s) = robots_cache c
    | OutOfFuel | Raised _ _ => False
    end.
Proof.
  intros Hoff _ _.
  destruct (crawl_outcome_body
              (fun st =>
                 respect_robots (self (sess st)) = false
                 /\ List.Forall (fun e => is_robots_event e = false)
                      (trace (sess st))
                 /\ robots_cache (self (sess st)) = robots_cache c)
              (fun o => match o with
                        | Returned _ s =>
                            List.Forall (fun e => is_robots_event e = false)
                              (trace s)
                            /\ robots_cache (self s) = robots_cache c
                        | OutOfFuel | Raised _ _ => False
                        end)
              c w seed_url) as [fuel [_ H]].
  - simpl. repeat split; auto.
  - intros st (_ & H1 & H2) _. now split.
  - intros st url depth rest (Hr & Htr & Hca) _.
    destruct (loop_body_robots url depth rest (sess st) (results st))
      as (evs & Hevs & Hrr & _ & Hsess & _ & _ & _ & _ & _ & Hquiet).
    destruct (Hquiet Hr) as (Hq1 & Hq2 & Hq3).
    destruct (loop_body url depth rest (sess st) (results st)) as [[st'|e] s'];
      cbn [fst snd] in *; [|now destruct (Hq3 e)].
    rewrite (Hsess st' eq_refl), Hrr, Hevs, Hq2.
    split; [exact Hr|]. split; [|exact Hca].
    apply List.Forall_app. now split.
  - now exists fuel.
Qed.

(** ** The number of requests *)

Lemma budget_level L D (l : string) (url : string) depth :
  depth <= D ->
  budget L D (url, depth)
  = (1 + Z.to_nat L * budget L D (l, (depth + 1)%Z))%nat.
Proof.
  intros Hd. unfold budget, levels_left. simpl.
  replace (Z.to_nat (D + 1 - depth))
    with (S (Z.to_nat (D + 1 - (depth + 1)))) by lia.
  reflexivity.
Qed.

Lemma queue_budget_app L D q1 q2 :
  queue_budget L D (q1 ++ q2)
  = (queue_budget L D q1 + queue_budget L D q2)%nat.
Proof. unfold queue_budget. now rewrite map_app, list_sum_app. Qed.

Lemma queue_budget_level L D depth (new : list string) :
  queue_budget L D (List.map (fun l => (l, depth + 1)) new)
  = (length new * budget L D (EmptyString, (depth + 1)%Z))%nat.
Proof.
  unfold queue_budget. induction new as [|l new IH]; [reflexivity|].
  simpl. rewrite IH. reflexivity.
Qed.

Lemma new_links_length visited (ls : list string) :
  (length (new_links visited ls) <= length ls)%nat.
Proof. unfold new_links. apply filter_length_le. Qed.

Lemma page_links_length limit url r page :
  0 <= limit ->
  page_of limit url r = Some page ->
  (length (links page) <= Z.to_nat limit)%nat.
Proof.
  intros H0 Hpage. apply page_of_some in Hpage as (text & _ & Hx).
  apply extract_content_links in Hx.
  rewrite Hx, slice_to_nonneg, length_firstn by exact H0. lia.
Qed.

Lemma dict_set_length {V} (d : Dict.t V) (k : string) (v : V) :
  (length (Dict.set d k v) <= S (length d))%nat.
Proof.
  induction d as [|[k0 v0] d IH]; simpl; [lia|].
  destruct (String.eqb k0 k); simpl; lia.
Qed.

Lemma inv_budget_pass L D st url depth rest out :
  0 <= L ->
  inv_budget L D st ->
  queue st = (url, depth) :: rest ->
  pass netloc_ok markup_ok parse_html can_fetch url depth rest (sess st) (results st) out ->
  match out with
  | (Ok st', _) => inv_budget L D st'
  | (Raise _, s') =>
      (length (fetched (trace s')) <= geometric (Z.to_nat L) (Z.to_nat (D + 1)))%nat
  end.
Proof.
  intros H0 [HD HL Hleft Hpages] Hq Hpass.
  rewrite Hq in Hleft. unfold queue_budget in Hleft. simpl in Hleft.
  fold (queue_budget L D rest) in Hleft.
  destruct Hpass
    as [Hskip|cache w evs e Hv Hd Hev Hby|cache w evs Hv Hd Hev
        |cache w evs r w2 Hv Hd Hev Hpage s2
        |cache w evs r w2 page Hv Hd Hev Hpage new s3];
    rewrite ?HD, ?HL in *.
  - constructor; simpl; [exact HD | exact HL | |].
    + rewrite fetched_app. simpl. rewrite app_nil_r. lia.
    + rewrite fetched_app. simpl. rewrite app_nil_r. exact Hpages.
  - rewrite (fetched_checked url depth (sess st) cache w evs Hev). lia.
  - constructor; cbn [sess queue results]; [exact HD | exact HL | |].
    + rewrite (fetched_checked url depth (sess st) cache w evs Hev). lia.
    + rewrite (fetched_checked url depth (sess st) cache w evs Hev).
      exact Hpages.
  - subst s2.
    rewrite (budget_level L D EmptyString url depth Hd) in Hleft.
    constructor; cbn [sess queue results]; [exact HD | exact HL | |].
    + rewrite fetched_requested, length_app,
        (fetched_checked url depth (sess st) cache w evs Hev).
      simpl. lia.
    + rewrite fetched_requested, length_app,
        (fetched_checked url depth (sess st) cache w evs Hev).
      simpl. lia.
  - subst s3.
    rewrite (budget_level L D EmptyString url depth Hd) in Hleft.
    assert (Hnew : (length new <= Z.to_nat L)%nat).
    { unfold new. etransitivity; [apply new_links_length|].
      now apply (page_links_length L url r page). }
    constructor; cbn [sess queue results]; [exact HD | exact HL | |].
    + rewrite fetched_enqueued, fetched_requested, length_app,
        (fetched_checked url depth (sess st) cache w evs Hev),
        queue_budget_app, queue_budget_level.
      simpl.
      pose proof (Nat.mul_le_mono_r _ _
                    (budget L D (EmptyString, depth + 1)) Hnew).
      lia.
    + rewrite fetched_enqueued, fetched_requested, length_app,
        (fetched_checked url depth (sess st) cache w evs Hev).
      pose proof (dict_set_length (results st) url page). simpl. lia.
Qed.

(** X15.  With a link limit that is not negative, every call of [crawl]
    ends after at most [1 + L + ... + L^D] requests for a page, for the
    link limit [L] and the crawl depth [D] of the crawler (none for a
    negative depth), and returns at most as many pages as it made
    requests. *)
Theorem crawl_request_bound c w seed_url :
  0 <= link_limit c ->
  exists fuel,
    match crawl fuel c w seed_url with
    | OutOfFuel => False
    | Returned res s =>
        (length res <= length (fetched (trace s))
         <= geometric (Z.to_nat (link_limit c))
              (Z.to_nat (crawl_depth c + 1)))%nat
    | Raised _ s =>
        (length (fetched (trace s))
         <= geometric (Z.to_nat (link_limit c))
              (Z.to_nat (crawl_depth c + 1)))%nat
    end.
Proof.
  intros H0.
  destruct (crawl_outcome
              (inv_budget (link_limit c) (crawl_depth c))
              (fun o => match o with
                        | OutOfFuel => False
                        | Returned res s =>
                            (length res <= length (fetched (trace s))
                             <= geometric (Z.to_nat (link_limit c))
                                  (Z.to_nat (crawl_depth c + 1)))%nat
                        | Raised _ s =>
                            (length (fetched (trace s))
                             <= geometric (Z.to_nat (link_limit c))
                                  (Z.to_nat (crawl_depth c + 1)))%nat
                        end)
              c w seed_url) as [fuel [_ H]].
  - constructor; simpl; [reflexivity | reflexivity | | lia].
    unfold queue_budget, budget, levels_left. simpl.
    rewrite Z.sub_0_r. lia.
  - intros st [_ _ Hleft Hpages] Hq. split; [exact Hpages|]. lia.
  - intros st url depth rest out HI Hq Hpass.
    pose proof (inv_budget_pass _ _ st url depth rest out H0 HI Hq Hpass) as H.
    destruct out as [[st'|e] s']; exact H.
  - now exists fuel.
Qed.


End CrawlerMore.

(** A crawler that holds rules forbidding everything on the seed's site. *)
Lemma cached_denial_is_never_requested_witness :
  exists fuel,
    match crawl Site.netloc_ok Site.markup_ok Site.parse_html Site.requests_get
            Site.robots_up Site.can_fetch fuel
            (set_cache {[ "https://ex.test"%string := false ]}
               (init true 3 5 "stealth"))
            tt "https://ex.test/" with
    | OutOfFuel => False
    | Returned _ s | Raised _ s =>
        forall d r, ~ In (EvGet "https://ex.test/a" d r) (trace s)
    end.
Proof.
  apply (cached_denial_is_never_requested Site.netloc_ok Site.markup_ok Site.parse_html
           Site.requests_get Site.robots_up Site.can_fetch
           (set_cache {[ "https://ex.test"%string := false ]}
              (init true 3 5 "stealth"))
           tt "https://ex.test/" "https://ex.test/a"
           (UrlLib.urlparse_parts "https://ex.test/a" EmptyString) false);
    vm_compute; reflexivity.
Defined.

(** A crawl of the site with [respect_robots] off. *)
Lemma crawl_without_robots_witness :
  exists fuel,
    match crawl Site.netloc_ok Site.markup_ok Site.parse_html Site.requests_get
            Site.robots_up Site.can_fetch fuel
            (init false 3 5 "stealth") tt "https://ex.test/" with
    | Returned _ s =>
        List.Forall (fun e => is_robots_event e = false) (trace s)
        /\ robots_cache (self s) = robots_cache (init false 3 5 "stealth")
    | OutOfFuel | Raised _ _ => False
    end.
Proof.
  apply (crawl_without_robots Site.netloc_ok Site.markup_ok Site.parse_html
           Site.requests_get Site.robots_up Site.can_fetch
           (init false 3 5 "stealth") tt "https://ex.test/").
  - reflexivity.
  - simpl. lia.
  - simpl. lia.
Defined.

(** ** When [extract_content] raises *)

Section ExtractMore.

Variable netloc_ok : string -> bool.
Variable markup_ok : string -> bool.
Variable parse_html : string -> list Soup.node.

Local Abbreviation urlparse := (UrlLib.urlparse netloc_ok).
Local Abbreviation urljoin := (UrlLib.urljoin netloc_ok).
Local Abbreviation extract_content :=
  (extract_content netloc_ok markup_ok parse_html).

Lemma get_item_absent key t :
  Soup.has_attr key t = false -> Soup.get_item t key = Raise KeyError.
Proof.
  unfold Soup.has_attr, Soup.get_item.
  destruct (Soup.attr key t); [discriminate|reflexivity].
Qed.

Lemma get_item_present key t :
  Soup.has_attr key t = true -> exists v, Soup.get_item t key = Ok v.
Proof.
  unfold Soup.has_attr, Soup.get_item.
  destruct (Soup.attr key t); [now eexists|discriminate].
Qed.

(** the tags a search finds are tags of the document that meet its
    criteria *)
Lemma find_all_forall p doc :
  List.Forall (fun t => In t (List.flat_map Soup.tags doc) /\ p t = true)
    (Soup.find_all p doc).
Proof.
  apply List.Forall_forall. intros t Ht.
  unfold Soup.find_all in Ht. now apply filter_In in Ht.
Qed.

Lemma collect_links_total url base_domain anchors acc :
  List.Forall
    (fun t => exists href link,
                Soup.attr "href" t = Some href
                /\ urljoin url href = Ok link
                /\ is_ok (urlparse link) = true) anchors ->
  exists ls, collect_links netloc_ok url base_domain anchors acc = Ok ls.
Proof.
  intros Hall. revert acc.
  induction Hall as [|t rest (href & link & Ht & Hj & Hp) _ IH]; intros acc;
    simpl; [now eexists|].
  unfold Soup.get_item. rewrite Ht. cbn [mbind result_bind]. rewrite Hj.
  cbn [mbind result_bind].
  destruct (urlparse link) as [p|e]; [|discriminate]. cbn [mbind result_bind].
  destruct (keeps_link base_domain p); apply IH.
Qed.

Lemma join_all_total url key ts :
  List.Forall
    (fun t => exists v u, Soup.attr key t = Some v /\ urljoin url v = Ok u)
    ts ->
  exists us, join_all netloc_ok url key ts = Ok us.
Proof.
  intros Hall.
  induction Hall as [|t rest (v & u & Ht & Hj) _ [us IH]]; simpl;
    [now eexists|].
  unfold Soup.get_item. rewrite Ht. cbn [mbind result_bind]. rewrite Hj.
  cbn [mbind result_bind]. rewrite IH. cbn [mbind result_bind]. now eexists.
Qed.

Lemma meta_content_complete doc n :
  if meta_complete doc n
  then exists v, meta_content doc n = Ok v
  else meta_content doc n = Raise KeyError.
Proof.
  unfold meta_complete, meta_content.
  destruct (Soup.find _ doc) as [t|]; [|now eexists].
  destruct (Soup.has_attr "content" t) eqn:Hc.
  - now apply get_item_present.
  - now apply get_item_absent.
Qed.

(** the tags found with [key=True] have addresses the library accepts *)
Lemma found_addresses url doc key (p : Soup.node -> bool) :
  addresses_ok netloc_ok url doc ->
  key = "href"%string \/ key = "src"%string ->
  (forall t, p t = true -> Soup.has_attr key t = true) ->
  List.Forall
    (fun t => exists v link,
                Soup.attr key t = Some v
                /\ urljoin url v = Ok link
                /\ is_ok (urlparse link) = true)
    (Soup.find_all p doc).
Proof.
  intros [_ Hok] Hkey Hp.
  eapply List.Forall_impl; [|apply find_all_forall].
  intros t [Hin Ht]. apply Hp in Ht. unfold Soup.has_attr in Ht.
  destruct (Soup.attr key t) as [v|] eqn:Hv; [|discriminate].
  destruct (Hok t key v Hin Hkey Hv) as (link & Hj & Hl).
  now exists v, link.
Qed.

(** X9.  [extract_content] raises [ParserRejectedMarkup] on the markup the
    tree builder rejects.  On markup it accepts, when the URL library
    accepts the address of the page and the addresses the document
    refers to, [extract_content] returns a page if the first description
    meta tag and the first keywords meta tag of the document, where
    present, carry a [content] attribute, and raises [KeyError] if one of
    them does not: the anchors, images, scripts and style sheets do not
    make it fail. *)
Theorem extract_content_fails_only_on_meta limit url html :
  (markup_ok html = false ->
   extract_content limit url html = Raise ParserRejectedMarkup)
  /\ (markup_ok html = true ->
      addresses_ok netloc_ok url (parse_html html) ->
      if meta_complete (parse_html html) "description"
         && meta_complete (parse_html html) "keywords"
      then exists page, extract_content limit url html = Ok page
      else extract_content limit url html = Raise KeyError).
Proof.
  unfold extract_content. split; [now intros ->|].
  intros -> Hok. cbn [negb]. cbv zeta.
  pose proof (proj1 Hok) as Hurl.
  destruct (urlparse url) as [base|e] eqn:Hbase; [|discriminate].
  cbn [mbind result_bind].
  destruct (collect_links_total url (UrlLib.netloc base)
              (Soup.find_all a_href (parse_html html)) []) as [ls ->].
  { apply (found_addresses url _ "href"); [exact Hok | now left|].
    intros t Ht. unfold a_href in Ht. now apply andb_true_iff in Ht. }
  cbn [mbind result_bind].
  destruct (join_all_total url "src"
              (Soup.find_all (fun t => Soup.named ["img"] t
                                       && Soup.has_attr "src" t)
                 (parse_html html))) as [imgs ->].
  { eapply List.Forall_impl;
      [|apply (found_addresses url _ "src"); [exact Hok | now right|]].
    - intros t (v & link & Hv & Hj & _). now exists v, link.
    - intros t Ht. now apply andb_true_iff in Ht. }
  cbn [mbind result_bind].
  destruct (join_all_total url "src"
              (Soup.find_all (fun t => Soup.named ["script"] t
                                       && Soup.has_attr "src" t)
                 (parse_html html))) as [scrs ->].
  { eapply List.Forall_impl;
      [|apply (found_addresses url _ "src"); [exact Hok | now right|]].
    - intros t (v & link & Hv & Hj & _). now exists v, link.
    - intros t Ht. now apply andb_true_iff in Ht. }
  cbn [mbind result_bind].
  destruct (join_all_total url "href"
              (Soup.find_all (fun t => Soup.named ["link"] t
                                       && Soup.attr_has "rel" "stylesheet" t
                                       && Soup.has_attr "href" t)
                 (parse_html html))) as [csss ->].
  { eapply List.Forall_impl;
      [|apply (found_addresses url _ "href"); [exact Hok | now left|]].
    - intros t (v & link & Hv & Hj & _). now exists v, link.
    - intros t Ht. now apply andb_true_iff in Ht. }
  cbn [mbind result_bind].
  pose proof (meta_content_complete (parse_html html) "description") as Hd.
  pose proof (meta_content_complete (parse_html html) "keywords") as Hk.
  destruct (meta_complete (parse_html html) "description").
  - destruct Hd as [d ->]. cbn [mbind result_bind].
    destruct (meta_complete (parse_html html) "keywords").
    + destruct Hk as [k ->]. cbn [mbind result_bind]. now eexists.
    + now rewrite Hk.
  - now rewrite Hd.
Qed.

End ExtractMore.

(** A page of the site whose description has no content. *)
Lemma extract_content_fails_only_on_meta_witness :
  extract_content Site.netloc_ok Site.markup_ok Site.parse_html 5
    "https://ex.test/c" "meta"
  = Raise KeyError.
Proof.
  apply (proj2 (extract_content_fails_only_on_meta Site.netloc_ok
                  Site.markup_ok Site.parse_html 5 "https://ex.test/c" "meta")).
  - reflexivity.
  - split; [reflexivity|].
    intros t key v [<-|[]] Hkey Hv. destruct Hkey as [->| ->]; discriminate.
Defined.

(** ** utils.py *)

Lemma append_cons (c : ascii) (s t : string) :
  String c s +:+ t = String c (s +:+ t).
Proof. reflexivity. Qed.

Lemma append_nil (t : string) : EmptyString +:+ t = t.
Proof. reflexivity. Qed.

Lemma take_append_le (n : nat) (s t : string) :
  (n <= String.length s)%nat -> PyStr.take n (s +:+ t) = PyStr.take n s.
Proof.
  revert s; induction n as [|n IH]; intros s Hn; [reflexivity|].
  destruct s as [|c s]; simpl in Hn; [lia|].
  rewrite append_cons. simpl. rewrite IH by lia. reflexivity.
Qed.

Lemma take_take (n : nat) (s : string) :
  PyStr.take n (PyStr.take n s) = PyStr.take n s.
Proof.
  revert s; induction n as [|n IH]; intros [|c s]; simpl; try reflexivity.
  now rewrite IH.
Qed.

Lemma length_take_le (n : nat) (s : string) :
  (n <= String.length s)%nat -> String.length (PyStr.take n s) = n.
Proof.
  revert s; induction n as [|n IH]; intros [|c s] Hn; simpl in *;
    try reflexivity; try lia.
  rewrite IH by lia. reflexivity.
Qed.

Lemma truncate_text_eq (text : string) (n : nat) :
  Utils.truncate_text text (Z.of_nat n)
  = if (String.length text <=? n)%nat then text
    else PyStr.take n text +:+ "...".
Proof.
  unfold Utils.truncate_text, Utils.slice_to.
  assert (H0 : (0 <=? Z.of_nat n) = true) by (apply Z.leb_le; lia).
  rewrite H0, Nat2Z.id.
  destruct (Nat.leb_spec (String.length text) n) as [Hle|Hgt].
  - assert (Hz : (Z.of_nat (String.length text) <=? Z.of_nat n) = true)
      by (apply Z.leb_le; lia).
    now rewrite Hz.
  - assert (Hz : (Z.of_nat (String.length text) <=? Z.of_nat n) = false)
      by (apply Z.leb_gt; lia).
    now rewrite Hz.
Qed.

(** X10.  For a bound [max_length >= 0], [truncate_text] returns the text
    itself when it has at most [max_length] characters and otherwise its
    first [max_length] characters followed by three dots, so a text of
    [max_length + 3] characters, which is longer than a text of
    [max_length + 1] or [max_length + 2] characters was; the result
    starts as the text does, truncating it again changes nothing, and
    the previews of [ResearchAgent._prepare_context] are what
    [truncate_text] gives. *)
Theorem truncate_text_bounded (text : string) (max_length : nat) :
  let result := Utils.truncate_text text (Z.of_nat max_length) in
  String.length result
  = (if (String.length text <=? max_length)%nat then String.length text
     else max_length + 3)%nat
  /\ PyStr.take max_length result = PyStr.take max_length text
  /\ Utils.truncate_text result (Z.of_nat max_length) = result
  /\ Agent.preview max_length text = result.
Proof.
  intros result. subst result. unfold Agent.preview.
  rewrite !truncate_text_eq.
  destruct (Nat.leb_spec (String.length text) max_length) as [Hle|Hgt].
  - assert (Hn : (max_length <? String.length text)%nat = false)
      by (apply Nat.ltb_ge; lia).
    rewrite Hn.
    assert (Hl : (String.length text <=? max_length)%nat = true)
      by (apply Nat.leb_le; lia).
    now rewrite Hl.
  - assert (Hn : (max_length <? String.length text)%nat = true)
      by (apply Nat.ltb_lt; lia).
    rewrite Hn.
    assert (Hlen : String.length (PyStr.take max_length text +:+ "...")
                   = (max_length + 3)%nat).
    { rewrite length_append, length_take_le by lia. reflexivity. }
    split; [exact Hlen|].
    assert (Htake : PyStr.take max_length (PyStr.take max_length text +:+ "...")
                    = PyStr.take max_length text).
    { rewrite take_append_le by (rewrite length_take_le; lia).
      apply take_take. }
    split; [exact Htake|]. split; [|reflexivity].
    rewrite Hlen, Htake.
    assert (Hl : (max_length + 3 <=? max_length)%nat = false)
      by (apply Nat.leb_gt; lia).
    now rewrite Hl.
Qed.

Lemma replace_by_underscore (old : ascii) (s : string) :
  Utils.replace old "_" s
  = map_chars (fun c => if Ascii.eqb c old then "_"%char else c) s.
Proof.
  induction s as [|c s IH]; simpl; [reflexivity|].
  rewrite IH. now destruct (Ascii.eqb c old).
Qed.

Lemma map_chars_compose (f g : ascii -> ascii) (s : string) :
  map_chars g (map_chars f s) = map_chars (fun c => g (f c)) s.
Proof. induction s as [|c s IH]; simpl; [reflexivity | now rewrite IH]. Qed.

Lemma map_chars_ext (f g : ascii -> ascii) (s : string) :
  (forall c, f c = g c) -> map_chars f s = map_chars g s.
Proof.
  intros H. induction s as [|c s IH]; simpl; [reflexivity|].
  now rewrite H, IH.
Qed.

Lemma map_chars_length (f : ascii -> ascii) (s : string) :
  String.length (map_chars f s) = String.length s.
Proof. induction s as [|c s IH]; simpl; [reflexivity | now rewrite IH]. Qed.

Lemma map_chars_all (p : ascii -> bool) (f : ascii -> ascii) (s : string) :
  (forall c, p (f c) = true) -> PyStr.all p (map_chars f s) = true.
Proof.
  intros H. unfold PyStr.all.
  induction s as [|c s IH]; simpl; [reflexivity|]. now rewrite H, IH.
Qed.

Lemma map_chars_fixed (p : ascii -> bool) (f : ascii -> ascii) (s : string) :
  (forall c, p c = true -> f c = c) ->
  (forall c, p c = false -> f c <> c) ->
  map_chars f s = s <-> PyStr.all p s = true.
Proof.
  intros Hfix Hmove. unfold PyStr.all.
  induction s as [|c s IH]; simpl; [now split|].
  rewrite andb_true_iff, <- IH. split.
  - intros [= Hc Hs]. split; [|exact Hs].
    destruct (p c) eqn:Hp; [reflexivity|]. now destruct (Hmove c Hp).
  - intros [Hp ->]. now rewrite Hfix.
Qed.

(** the loop of [sanitize_filename], over any list of characters *)
Lemma replace_all_by_underscore (chars : list ascii) (s : string) :
  fold_left (fun filename char => Utils.replace char "_" filename) chars s
  = map_chars
      (fun c => fold_left
                  (fun c char => if Ascii.eqb c char then "_"%char else c)
                  chars c) s.
Proof.
  revert s. induction chars as [|ch chars IH]; intros s; simpl.
  - induction s as [|c s IHs]; simpl; [reflexivity | now rewrite <- IHs].
  - rewrite IH, replace_by_underscore, map_chars_compose. reflexivity.
Qed.

Lemma sanitized_char_loop (c : ascii) :
  fold_left (fun c char => if Ascii.eqb c char then "_"%char else c)
    (list_ascii_of_string Utils.invalid_chars) c
  = sanitized_char c.
Proof.
  destruct c as [[] [] [] [] [] [] [] []]; vm_compute; reflexivity.
Qed.

Lemma sanitize_filename_map (filename : string) :
  Utils.sanitize_filename filename = map_chars sanitized_char filename.
Proof.
  unfold Utils.sanitize_filename. rewrite replace_all_by_underscore.
  apply map_chars_ext, sanitized_char_loop.
Qed.

(** X11.  [sanitize_filename] replaces each of its nine invalid
    characters ([<>:], the double quote and [/\|?*]) by an underscore and
    keeps every other character, in place: the name keeps its length, no invalid character is left in it,
    a second pass changes nothing, and the names it returns unchanged are
    exactly the names without an invalid character. *)
Theorem sanitize_filename_safe (filename : string) :
  Utils.sanitize_filename filename = map_chars sanitized_char filename
  /\ String.length (Utils.sanitize_filename filename)
     = String.length filename
  /\ PyStr.all valid_char (Utils.sanitize_filename filename) = true
  /\ Utils.sanitize_filename (Utils.sanitize_filename filename)
     = Utils.sanitize_filename filename
  /\ (Utils.sanitize_filename filename = filename
      <-> PyStr.all valid_char filename = true).
Proof.
  rewrite !sanitize_filename_map. split; [reflexivity|].
  split; [apply map_chars_length|]. split; [|split].
  - apply map_chars_all. intros c.
    destruct c as [[] [] [] [] [] [] [] []]; vm_compute; reflexivity.
  - rewrite map_chars_compose. apply map_chars_ext. intros c.
    destruct c as [[] [] [] [] [] [] [] []]; vm_compute; reflexivity.
  - apply map_chars_fixed; intros c;
      destruct c as [[] [] [] [] [] [] [] []]; vm_compute;
      congruence.
Qed.

(** ** KnowledgeBase.query, entry by entry *)

Section QueryFacts.

Context {Store Distance : Type}.
Variable collection_query :
  Store -> string -> Z -> option (KB.query_result Distance).

Lemma entries_nth (r : KB.query_result Distance) docs i acc k :
  nth_error (KB.entries r i docs acc) k
  = if (k <? length acc)%nat then nth_error acc k
    else option_map (KB.entry r (i + (k - length acc)))
           (nth_error docs (k - length acc)).
Proof.
  revert i acc k. induction docs as [|doc docs IH]; intros i acc k; simpl.
  - destruct (Nat.ltb_spec k (length acc)) as [Hlt|Hge]; [reflexivity|].
    rewrite (proj2 (nth_error_None acc k)) by lia.
    now destruct (k - length acc)%nat.
  - rewrite IH, length_app. simpl.
    destruct (Nat.ltb_spec k (length acc)) as [Hlt|Hge].
    + assert (Hk : (k <? length acc + 1)%nat = true)
        by (apply Nat.ltb_lt; lia).
      rewrite Hk. now rewrite nth_error_app1.
    + destruct (Nat.eq_dec k (length acc)) as [->|Hne].
      * assert (Hk : (length acc <? length acc + 1)%nat = true)
          by (apply Nat.ltb_lt; lia).
        rewrite Hk, nth_error_app2, Nat.sub_diag by lia. simpl.
        now rewrite Nat.add_0_r.
      * assert (Hk : (k <? length acc + 1)%nat = false)
          by (apply Nat.ltb_ge; lia).
        rewrite Hk.
        replace (k - length acc)%nat with (S (k - (length acc + 1)))%nat
          by lia.
        simpl. f_equal. f_equal. lia.
Qed.

(** X12.  [KnowledgeBase.query] never raises.  When the store answers, it
    returns one entry for each document of the answer, in the order of
    the answer: entry [i] holds document [i] as its text, metadata [i] (an
    empty dictionary when the store gave fewer metadata than documents)
    and distance [i] (none when the store gave no distances or fewer).
    When the call to the store raises, it returns the empty list. *)
Theorem query_follows_store (store : Store) (query_text : string)
    (n_results : Z) :
  match collection_query store query_text n_results with
  | Some r =>
      length (KB.query collection_query store query_text n_results)
      = length (KB.documents r)
      /\ forall i,
           nth_error (KB.query collection_query store query_text n_results) i
           = option_map
               (fun doc =>
                  KB.mkDocument doc
                    (match nth_error (KB.metadatas r) i with
                     | Some m => m
                     | None => []
                     end)
                    (match KB.distances r with
                     | Some ds => nth_error ds i
                     | None => None
                     end))
               (nth_error (KB.documents r) i)
  | None => KB.query collection_query store query_text n_results = []
  end.
Proof.
  unfold KB.query.
  destruct (collection_query store query_text n_results) as [r|];
    [|reflexivity].
  split.
  - rewrite entries_length. simpl. lia.
  - intros i. rewrite entries_nth. simpl. now rewrite Nat.sub_0_r.
Qed.

End QueryFacts.

(** ** Indexing the pages of a crawl *)

Section IndexFacts.

Context {World : Type}.
Variable hash : string -> Z.
Variable str : Z -> string.
Variable now : World -> string * World.
Variable collection_add : World -> Index.add_call -> bool * World.

Local Abbreviation add_document :=
  (Index.add_document hash str now collection_add).
Local Abbreviation index_pages :=
  (Index.index_pages hash str now collection_add).

(** the call [add_document] makes for a page of the crawl *)
Lemma add_document_page url timestamp text s :
  Index.calls
    (add_document text (Some [("url", url); ("timestamp", timestamp)]%string) s)
  = if Index.is_blank text then Index.calls s
    else Index.calls s
         ++ [Index.mkAdd [text]
               [[("url", url); ("timestamp", timestamp)]%string]
               [str (hash url)]].
Proof.
  unfold Index.add_document. destruct (Index.is_blank text); reflexivity.
Qed.

(** X13.  The indexing loop of the application hands to the store the
    pages of the crawl whose content is not blank, and only these, one
    call of [collection.add] each, in the order of the crawl; each call
    carries the content of the page as its one document, the address of
    the page and a timestamp as its metadata, and as its id the hash of
    the address, which depends on neither the time nor the content. *)
Theorem index_pages_calls (crawled_data : Dict.t PageData)
    (s : @Index.session World) :
  exists new,
    Index.calls (index_pages crawled_data s) = Index.calls s ++ new
    /\ Forall2
         (fun call item =>
            exists timestamp,
              call = Index.mkAdd [content (snd item)]
                       [[("url", fst item); ("timestamp", timestamp)]%string]
                       [str (hash (fst item))])
         new (indexed_pages crawled_data).
Proof.
  revert s. induction crawled_data as [|[url data] rest IH]; intros s.
  - exists []. split; [now rewrite app_nil_r|constructor].
  - simpl. destruct (now (Index.world s)) as [timestamp w].
    destruct (IH (add_document (content data)
                    (Some [("url", url); ("timestamp", timestamp)]%string)
                    (Index.mkSession w (Index.calls s))))
      as (new & Hcalls & Hnew).
    rewrite Hcalls, add_document_page. unfold indexed_pages. simpl.
    destruct (Index.is_blank (content data)); simpl.
    + exists new. split; [reflexivity|exact Hnew].
    + eexists (_ :: new). split; [now rewrite <- app_assoc|].
      constructor; [|exact Hnew]. now exists timestamp.
Qed.

End IndexFacts.

(** ** The crawler the application builds *)

Section AppFacts.

Context {Rules : Type}.

(** X14.  For each of the three research modes the application offers
    and all values of its sliders, the crawler it builds crawls to the
    depth of the slider, also in the mode "Deep Dive": the application
    passes the lowered name "deep dive", which is not the "deep_dive"
    that [ClearnetCrawler] deepens the crawl for.  The limit of links
    per page is the slider's, doubled and capped at 20 in the mode
    "Exploratory", so between the slider's value and 20, and the pause
    before a request is drawn between two positive delays. *)
Theorem app_crawler_settings (respect : bool) (depth limit : Z)
    (mode : string) :
  In mode App.research_modes ->
  1 <= depth <= 10 ->
  1 <= limit <= 20 ->
  crawl_depth (App.crawler_of (Rules:=Rules) respect depth limit mode)
  = depth
  /\ link_limit (App.crawler_of (Rules:=Rules) respect depth limit mode)
     = (if String.eqb mode "Exploratory" then Z.min (limit * 2) 20
        else limit)
  /\ limit
     <= link_limit (App.crawler_of (Rules:=Rules) respect depth limit mode)
     <= 20
  /\ 0 < delay_min (App.crawler_of (Rules:=Rules) respect depth limit mode)
     < delay_max (App.crawler_of (Rules:=Rules) respect depth limit mode)
  /\ respect_robots (App.crawler_of (Rules:=Rules) respect depth limit mode)
     = respect
  /\ robots_cache (App.crawler_of (Rules:=Rules) respect depth limit mode)
     = ∅
  /\ visited_urls (App.crawler_of (Rules:=Rules) respect depth limit mode)
     = ∅.
Proof.
  intros Hmode Hd Hl.
  destruct Hmode as [<-|[<-|[<-|[]]]]; unfold App.crawler_of; simpl;
    repeat split; lia.
Qed.

End AppFacts.

Lemma app_crawler_settings_witness :
  crawl_depth (App.crawler_of (Rules:=bool) true 3 5 "Deep Dive") = 3
  /\ link_limit (App.crawler_of (Rules:=bool) true 3 5 "Deep Dive")
     = (if String.eqb "Deep Dive" "Exploratory" then Z.min (5 * 2) 20 else 5)
  /\ 5 <= link_limit (App.crawler_of (Rules:=bool) true 3 5 "Deep Dive") <= 20
  /\ 0 < delay_min (App.crawler_of (Rules:=bool) true 3 5 "Deep Dive")
     < delay_max (App.crawler_of (Rules:=bool) true 3 5 "Deep Dive")
  /\ respect_robots (App.crawler_of (Rules:=bool) true 3 5 "Deep Dive") = true
  /\ robots_cache (App.crawler_of (Rules:=bool) true 3 5 "Deep Dive") = ∅
  /\ visited_urls (App.crawler_of (Rules:=bool) true 3 5 "Deep Dive") = ∅.
Proof.
  apply (app_crawler_settings (Rules:=bool) true 3 5 "Deep Dive").
  - right. left. reflexivity.
  - lia.
  - lia.
Defined.

(** A crawl of the site to depth 1 with two links per page. *)
Lemma crawl_request_bound_witness :
  exists fuel,
    match crawl Site.netloc_ok Site.markup_ok Site.parse_html Site.requests_get
            Site.robots_up Site.can_fetch fuel
            (init true 1 2 "stealth") tt "https://ex.test/" with
    | OutOfFuel => False
    | Returned res s =>
        (length res <= length (fetched (trace s))
         <= geometric (Z.to_nat (link_limit (init (Rules:=bool) true 1 2 "stealth")))
              (Z.to_nat (crawl_depth (init (Rules:=bool) true 1 2 "stealth") + 1)))%nat
    | Raised _ s =>
        (length (fetched (trace s))
         <= geometric (Z.to_nat (link_limit (init (Rules:=bool) true 1 2 "stealth")))
              (Z.to_nat (crawl_depth (init (Rules:=bool) true 1 2 "stealth") + 1)))%nat
    end.
Proof.
  apply (crawl_request_bound Site.netloc_ok Site.markup_ok Site.parse_html
           Site.requests_get Site.robots_up Site.can_fetch
           (init true 1 2 "stealth") tt "https://ex.test/").
  simpl. lia.
Defined.
